(** * A shallow embedding of [wayland_display.c]

    The client speaks the Wayland wire protocol by hand: it frames messages
    into fixed-size stack buffers, allocates object identifiers from a
    process-wide counter, binds three globals, and drives a small surface
    state machine from an event loop.

    Conventions of the embedding.
    - Machine integers are [Z] with the wrap-around written out ([u16], [u32],
      [u64]; [size_t] is 64 bits wide, the build is for Linux/gcc).
    - Memory is [list byte].  A pointer into an array is modelled by the
      bytes from the pointer to the end of its array; [NULL] is [None].
      Every access outside the array (or through [NULL]) is a [Fault].
    - Multi-byte accesses are little-endian (the code does native-endian
      casts; the target is little-endian).
    - [exit(1)] is the outcome [Exit 1]; the process state at that point is
      kept so that what was printed and sent before can still be inspected.
    - System calls answer what an [Env] says; everything the process does
      to the outside world is appended to a trace.

    The file first gives the embedding (state, environment, the functions of
    the program in the order of the source), then the vocabulary of the
    statements and sample inputs, then the properties: those of the
    specification first, then further properties of the encoders, the
    requests, the handlers, the event loop and the teardown. *)

From Stdlib Require Import ZArith List Bool Lia.
From Stdlib.Strings Require Import String Byte.
Import ListNotations.
Local Open Scope Z_scope.

(** ** Machine integers *)

Definition u16 (z : Z) : Z := z mod 65536.
Definition u32 (z : Z) : Z := z mod 4294967296.
Definition u64 (z : Z) : Z := z mod 18446744073709551616.

(** Conversion to [int]: two's complement reading of the low 32 bits. *)
Definition s32 (z : Z) : Z :=
  let r := u32 z in if r <? 2147483648 then r else r - 4294967296.

(** ** Bytes and little-endian words *)

Definition byte_of_Z (z : Z) : byte :=
  match Byte.of_N (Z.to_N (z mod 256)) with
  | Some b => b
  | None => x00
  end.

Definition Z_of_byte (b : byte) : Z := Z.of_N (Byte.to_N b).

Definition u32_bytes (v : Z) : list byte :=
  [ byte_of_Z v; byte_of_Z (Z.shiftr v 8);
    byte_of_Z (Z.shiftr v 16); byte_of_Z (Z.shiftr v 24) ].

Definition bytes_u32 (bs : list byte) : Z :=
  match bs with
  | [b0; b1; b2; b3] =>
      Z_of_byte b0 + 256 * Z_of_byte b1 + 65536 * Z_of_byte b2
      + 16777216 * Z_of_byte b3
  | _ => 0
  end.

(** ** Memory regions *)

Definition zlen (bs : list byte) : Z := Z.of_nat (List.length bs).

(** [load buf off n]: the [n] bytes at offset [off], when they all lie inside
    [buf]. *)
Definition load (buf : list byte) (off : Z) (n : nat) : option (list byte) :=
  if (0 <=? off) && (off + Z.of_nat n <=? zlen buf)
  then Some (firstn n (skipn (Z.to_nat off) buf))
  else None.

(** [store buf off bs]: [buf] with [bs] written at offset [off], when the
    written range lies inside [buf]. *)
Definition store (buf : list byte) (off : Z) (bs : list byte)
  : option (list byte) :=
  if (0 <=? off) && (off + zlen bs <=? zlen buf)
  then Some (firstn (Z.to_nat off) buf ++ bs
             ++ skipn (Z.to_nat off + List.length bs) buf)
  else None.

(** A pointer: [None] is [NULL], [Some view] the bytes from the pointer to the
    end of the array it points into. *)
Definition ptr := option (list byte).

(** [buffer + off] for an in-range offset (one-past-the-end included). *)
Definition ptr_add (buf : list byte) (off : Z) : list byte :=
  skipn (Z.to_nat off) buf.

(** The C string starting at a pointer: the bytes before the first NUL.
    [None] when the array ends before a NUL is found. *)
Fixpoint cstr (view : list byte) : option (list byte) :=
  match view with
  | [] => None
  | b :: rest =>
      if Byte.eqb b x00 then Some []
      else match cstr rest with
           | Some s => Some (b :: s)
           | None => None
           end
  end.

(** The bytes of a string literal, without the terminator. *)
Definition lit (s : string) : list byte := list_byte_of_string s.

(** ** Outcomes *)

Inductive result (A : Type) : Type :=
| Ok (a : A)            (* the call returned *)
| Exit (status : Z)     (* the process called exit *)
| Fault                 (* access outside an object or through NULL *)
| Blocked               (* the process waits in recv for input that never comes *)
| OutOfFuel.            (* a loop bound of the embedding was too small *)
Arguments Ok {A} a.
Arguments Exit {A} status.
Arguments Fault {A}.
Arguments Blocked {A}.
Arguments OutOfFuel {A}.

(** ** Program state *)

Inductive SurfaceState : Type :=
| NONE
| ACKED_CONFIGURE
| SURFACE_ATTACHED.

(** The value of the [image_buffer] pointer: [NULL], [MAP_FAILED], or the
    mapped shared memory. *)
Inductive image_ptr : Type :=
| ImgNull
| ImgMapFailed
| ImgAt (mem : list byte).

Record ApplicationState : Type := {
  socket_fd : Z;
  shm_fd : Z;
  registry_id : Z;
  shm_id : Z;
  shm_pool_id : Z;
  frame_buffer_id : Z;
  compositor_id : Z;
  xdg_wm_base_id : Z;
  surface_id : Z;
  xdg_surface_id : Z;
  xdg_toplevel_id : Z;
  binding_done : Z;
  surface_state : SurfaceState;
  width : Z;
  height : Z;
  color_channels : Z;
  stride : Z;
  image_buffer_size : Z;
  image_buffer : image_ptr
}.

(** Field updates ([s->f = v]). *)

Definition set_socket_fd (v : Z) (s : ApplicationState) : ApplicationState :=
  {| socket_fd := v; shm_fd := shm_fd s; registry_id := registry_id s;
     shm_id := shm_id s; shm_pool_id := shm_pool_id s;
     frame_buffer_id := frame_buffer_id s; compositor_id := compositor_id s;
     xdg_wm_base_id := xdg_wm_base_id s; surface_id := surface_id s;
     xdg_surface_id := xdg_surface_id s;
     xdg_toplevel_id := xdg_toplevel_id s; binding_done := binding_done s;
     surface_state := surface_state s; width := width s; height := height s;
     color_channels := color_channels s; stride := stride s;
     image_buffer_size := image_buffer_size s;
     image_buffer := image_buffer s |}.

Definition set_shm_fd (v : Z) (s : ApplicationState) : ApplicationState :=
  {| socket_fd := socket_fd s; shm_fd := v; registry_id := registry_id s;
     shm_id := shm_id s; shm_pool_id := shm_pool_id s;
     frame_buffer_id := frame_buffer_id s; compositor_id := compositor_id s;
     xdg_wm_base_id := xdg_wm_base_id s; surface_id := surface_id s;
     xdg_surface_id := xdg_surface_id s;
     xdg_toplevel_id := xdg_toplevel_id s; binding_done := binding_done s;
     surface_state := surface_state s; width := width s; height := height s;
     color_channels := color_channels s; stride := stride s;
     image_buffer_size := image_buffer_size s;
     image_buffer := image_buffer s |}.

Definition set_registry_id (v : Z) (s : ApplicationState) : ApplicationState :=
  {| socket_fd := socket_fd s; shm_fd := shm_fd s; registry_id := v;
     shm_id := shm_id s; shm_pool_id := shm_pool_id s;
     frame_buffer_id := frame_buffer_id s; compositor_id := compositor_id s;
     xdg_wm_base_id := xdg_wm_base_id s; surface_id := surface_id s;
     xdg_surface_id := xdg_surface_id s;
     xdg_toplevel_id := xdg_toplevel_id s; binding_done := binding_done s;
     surface_state := surface_state s; width := width s; height := height s;
     color_channels := color_channels s; stride := stride s;
     image_buffer_size := image_buffer_size s;
     image_buffer := image_buffer s |}.

Definition set_shm_id (v : Z) (s : ApplicationState) : ApplicationState :=
  {| socket_fd := socket_fd s; shm_fd := shm_fd s;
     registry_id := registry_id s; shm_id := v; shm_pool_id := shm_pool_id s;
     frame_buffer_id := frame_buffer_id s; compositor_id := compositor_id s;
     xdg_wm_base_id := xdg_wm_base_id s; surface_id := surface_id s;
     xdg_surface_id := xdg_surface_id s;
     xdg_toplevel_id := xdg_toplevel_id s; binding_done := binding_done s;
     surface_state := surface_state s; width := width s; height := height s;
     color_channels := color_channels s; stride := stride s;
     image_buffer_size := image_buffer_size s;
     image_buffer := image_buffer s |}.

Definition set_shm_pool_id (v : Z) (s : ApplicationState) : ApplicationState :=
  {| socket_fd := socket_fd s; shm_fd := shm_fd s;
     registry_id := registry_id s; shm_id := shm_id s; shm_pool_id := v;
     frame_buffer_id := frame_buffer_id s; compositor_id := compositor_id s;
     xdg_wm_base_id := xdg_wm_base_id s; surface_id := surface_id s;
     xdg_surface_id := xdg_surface_id s;
     xdg_toplevel_id := xdg_toplevel_id s; binding_done := binding_done s;
     surface_state := surface_state s; width := width s; height := height s;
     color_channels := color_channels s; stride := stride s;
     image_buffer_size := image_buffer_size s;
     image_buffer := image_buffer s |}.

Definition set_frame_buffer_id (v : Z) (s : ApplicationState) : ApplicationState :=
  {| socket_fd := socket_fd s; shm_fd := shm_fd s;
     registry_id := registry_id s; shm_id := shm_id s;
     shm_pool_id := shm_pool_id s; frame_buffer_id := v;
     compositor_id := compositor_id s; xdg_wm_base_id := xdg_wm_base_id s;
     surface_id := surface_id s; xdg_surface_id := xdg_surface_id s;
     xdg_toplevel_id := xdg_toplevel_id s; binding_done := binding_done s;
     surface_state := surface_state s; width := width s; height := height s;
     color_channels := color_channels s; stride := stride s;
     image_buffer_size := image_buffer_size s;
     image_buffer := image_buffer s |}.

Definition set_compositor_id (v : Z) (s : ApplicationState) : ApplicationState :=
  {| socket_fd := socket_fd s; shm_fd := shm_fd s;
     registry_id := registry_id s; shm_id := shm_id s;
     shm_pool_id := shm_pool_id s; frame_buffer_id := frame_buffer_id s;
     compositor_id := v; xdg_wm_base_id := xdg_wm_base_id s;
     surface_id := surface_id s; xdg_surface_id := xdg_surface_id s;
     xdg_toplevel_id := xdg_toplevel_id s; binding_done := binding_done s;
     surface_state := surface_state s; width := width s; height := height s;
     color_channels := color_channels s; stride := stride s;
     image_buffer_size := image_buffer_size s;
     image_buffer := image_buffer s |}.

Definition set_xdg_wm_base_id (v : Z) (s : ApplicationState) : ApplicationState :=
  {| socket_fd := socket_fd s; shm_fd := shm_fd s;
     registry_id := registry_id s; shm_id := shm_id s;
     shm_pool_id := shm_pool_id s; frame_buffer_id := frame_buffer_id s;
     compositor_id := compositor_id s; xdg_wm_base_id := v;
     surface_id := surface_id s; xdg_surface_id := xdg_surface_id s;
     xdg_toplevel_id := xdg_toplevel_id s; binding_done := binding_done s;
     surface_state := surface_state s; width := width s; height := height s;
     color_channels := color_channels s; stride := stride s;
     image_buffer_size := image_buffer_size s;
     image_buffer := image_buffer s |}.

Definition set_surface_id (v : Z) (s : ApplicationState) : ApplicationState :=
  {| socket_fd := socket_fd s; shm_fd := shm_fd s;
     registry_id := registry_id s; shm_id := shm_id s;
     shm_pool_id := shm_pool_id s; frame_buffer_id := frame_buffer_id s;
     compositor_id := compositor_id s; xdg_wm_base_id := xdg_wm_base_id s;
     surface_id := v; xdg_surface_id := xdg_surface_id s;
     xdg_toplevel_id := xdg_toplevel_id s; binding_done := binding_done s;
     surface_state := surface_state s; width := width s; height := height s;
     color_channels := color_channels s; stride := stride s;
     image_buffer_size := image_buffer_size s;
     image_buffer := image_buffer s |}.

Definition set_xdg_surface_id (v : Z) (s : ApplicationState) : ApplicationState :=
  {| socket_fd := socket_fd s; shm_fd := shm_fd s;
     registry_id := registry_id s; shm_id := shm_id s;
     shm_pool_id := shm_pool_id s; frame_buffer_id := frame_buffer_id s;
     compositor_id := compositor_id s; xdg_wm_base_id := xdg_wm_base_id s;
     surface_id := surface_id s; xdg_surface_id := v;
     xdg_toplevel_id := xdg_toplevel_id s; binding_done := binding_done s;
     surface_state := surface_state s; width := width s; height := height s;
     color_channels := color_channels s; stride := stride s;
     image_buffer_size := image_buffer_size s;
     image_buffer := image_buffer s |}.

Definition set_xdg_toplevel_id (v : Z) (s : ApplicationState) : ApplicationState :=
  {| socket_fd := socket_fd s; shm_fd := shm_fd s;
     registry_id := registry_id s; shm_id := shm_id s;
     shm_pool_id := shm_pool_id s; frame_buffer_id := frame_buffer_id s;
     compositor_id := compositor_id s; xdg_wm_base_id := xdg_wm_base_id s;
     surface_id := surface_id s; xdg_surface_id := xdg_surface_id s;
     xdg_toplevel_id := v; binding_done := binding_done s;
     surface_state := surface_state s; width := width s; height := height s;
     color_channels := color_channels s; stride := stride s;
     image_buffer_size := image_buffer_size s;
     image_buffer := image_buffer s |}.

Definition set_binding_done (v : Z) (s : ApplicationState) : ApplicationState :=
  {| socket_fd := socket_fd s; shm_fd := shm_fd s;
     registry_id := registry_id s; shm_id := shm_id s;
     shm_pool_id := shm_pool_id s; frame_buffer_id := frame_buffer_id s;
     compositor_id := compositor_id s; xdg_wm_base_id := xdg_wm_base_id s;
     surface_id := surface_id s; xdg_surface_id := xdg_surface_id s;
     xdg_toplevel_id := xdg_toplevel_id s; binding_done := v;
     surface_state := surface_state s; width := width s; height := height s;
     color_channels := color_channels s; stride := stride s;
     image_buffer_size := image_buffer_size s;
     image_buffer := image_buffer s |}.

Definition set_surface_state (v : SurfaceState) (s : ApplicationState) : ApplicationState :=
  {| socket_fd := socket_fd s; shm_fd := shm_fd s;
     registry_id := registry_id s; shm_id := shm_id s;
     shm_pool_id := shm_pool_id s; frame_buffer_id := frame_buffer_id s;
     compositor_id := compositor_id s; xdg_wm_base_id := xdg_wm_base_id s;
     surface_id := surface_id s; xdg_surface_id := xdg_surface_id s;
     xdg_toplevel_id := xdg_toplevel_id s; binding_done := binding_done s;
     surface_state := v; width := width s; height := height s;
     color_channels := color_channels s; stride := stride s;
     image_buffer_size := image_buffer_size s;
     image_buffer := image_buffer s |}.

Definition set_width (v : Z) (s : ApplicationState) : ApplicationState :=
  {| socket_fd := socket_fd s; shm_fd := shm_fd s;
     registry_id := registry_id s; shm_id := shm_id s;
     shm_pool_id := shm_pool_id s; frame_buffer_id := frame_buffer_id s;
     compositor_id := compositor_id s; xdg_wm_base_id := xdg_wm_base_id s;
     surface_id := surface_id s; xdg_surface_id := xdg_surface_id s;
     xdg_toplevel_id := xdg_toplevel_id s; binding_done := binding_done s;
     surface_state := surface_state s; width := v; height := height s;
     color_channels := color_channels s; stride := stride s;
     image_buffer_size := image_buffer_size s;
     image_buffer := image_buffer s |}.

Definition set_height (v : Z) (s : ApplicationState) : ApplicationState :=
  {| socket_fd := socket_fd s; shm_fd := shm_fd s;
     registry_id := registry_id s; shm_id := shm_id s;
     shm_pool_id := shm_pool_id s; frame_buffer_id := frame_buffer_id s;
     compositor_id := compositor_id s; xdg_wm_base_id := xdg_wm_base_id s;
     surface_id := surface_id s; xdg_surface_id := xdg_surface_id s;
     xdg_toplevel_id := xdg_toplevel_id s; binding_done := binding_done s;
     surface_state := surface_state s; width := width s; height := v;
     color_channels := color_channels s; stride := stride s;
     image_buffer_size := image_buffer_size s;
     image_buffer := image_buffer s |}.

Definition set_color_channels (v : Z) (s : ApplicationState) : ApplicationState :=
  {| socket_fd := socket_fd s; shm_fd := shm_fd s;
     registry_id := registry_id s; shm_id := shm_id s;
     shm_pool_id := shm_pool_id s; frame_buffer_id := frame_buffer_id s;
     compositor_id := compositor_id s; xdg_wm_base_id := xdg_wm_base_id s;
     surface_id := surface_id s; xdg_surface_id := xdg_surface_id s;
     xdg_toplevel_id := xdg_toplevel_id s; binding_done := binding_done s;
     surface_state := surface_state s; width := width s; height := height s;
     color_channels := v; stride := stride s;
     image_buffer_size := image_buffer_size s;
     image_buffer := image_buffer s |}.

Definition set_stride (v : Z) (s : ApplicationState) : ApplicationState :=
  {| socket_fd := socket_fd s; shm_fd := shm_fd s;
     registry_id := registry_id s; shm_id := shm_id s;
     shm_pool_id := shm_pool_id s; frame_buffer_id := frame_buffer_id s;
     compositor_id := compositor_id s; xdg_wm_base_id := xdg_wm_base_id s;
     surface_id := surface_id s; xdg_surface_id := xdg_surface_id s;
     xdg_toplevel_id := xdg_toplevel_id s; binding_done := binding_done s;
     surface_state := surface_state s; width := width s; height := height s;
     color_channels := color_channels s; stride := v;
     image_buffer_size := image_buffer_size s;
     image_buffer := image_buffer s |}.

Definition set_image_buffer_size (v : Z) (s : ApplicationState) : ApplicationState :=
  {| socket_fd := socket_fd s; shm_fd := shm_fd s;
     registry_id := registry_id s; shm_id := shm_id s;
     shm_pool_id := shm_pool_id s; frame_buffer_id := frame_buffer_id s;
     compositor_id := compositor_id s; xdg_wm_base_id := xdg_wm_base_id s;
     surface_id := surface_id s; xdg_surface_id := xdg_surface_id s;
     xdg_toplevel_id := xdg_toplevel_id s; binding_done := binding_done s;
     surface_state := surface_state s; width := width s; height := height s;
     color_channels := color_channels s; stride := stride s;
     image_buffer_size := v; image_buffer := image_buffer s |}.

Definition set_image_buffer (v : image_ptr) (s : ApplicationState) : ApplicationState :=
  {| socket_fd := socket_fd s; shm_fd := shm_fd s;
     registry_id := registry_id s; shm_id := shm_id s;
     shm_pool_id := shm_pool_id s; frame_buffer_id := frame_buffer_id s;
     compositor_id := compositor_id s; xdg_wm_base_id := xdg_wm_base_id s;
     surface_id := surface_id s; xdg_surface_id := xdg_surface_id s;
     xdg_toplevel_id := xdg_toplevel_id s; binding_done := binding_done s;
     surface_state := surface_state s; width := width s; height := height s;
     color_channels := color_channels s; stride := stride s;
     image_buffer_size := image_buffer_size s; image_buffer := v |}.

(** [memset(&state, 0, sizeof(state))]. *)
Definition zero_state : ApplicationState :=
  {| socket_fd := 0; shm_fd := 0; registry_id := 0; shm_id := 0;
     shm_pool_id := 0; frame_buffer_id := 0; compositor_id := 0;
     xdg_wm_base_id := 0; surface_id := 0; xdg_surface_id := 0;
     xdg_toplevel_id := 0; binding_done := 0; surface_state := NONE;
     width := 0; height := 0; color_channels := 0; stride := 0;
     image_buffer_size := 0; image_buffer := ImgNull |}.

(** ** What the process does to the outside world *)

(** An argument of [printf]: a number, a string, or [strerror(errno)]. *)
Inductive arg : Type :=
| AInt (z : Z)
| AStr (s : list byte)
| AErrno.

(** What one call of [recv] does. *)
Inductive RecvOutcome : Type :=
| RecvError                      (* returns a negative value *)
| RecvData (data : list byte).   (* delivers these bytes (at most 4096) *)

(** Observable actions, in program order.  [Printf] keeps the format string
    (without its final newline) and the arguments; the hex-dump printer is
    recorded as one action with the bytes it was given.  The path of the
    shared-memory object is [wl_shm_<t>], recorded by its number [t]. *)
Inductive IOEvent : Type :=
| Printf (fmt : string) (args : list arg)
| HexDump (data : list byte)
| Socket
| Connect (fd : Z) (path : list byte)
| ShmOpen (t : Z)
| ShmUnlink (t : Z)
| Ftruncate (fd : Z) (size : Z)
| Mmap (fd : Z) (size : Z)
| Sigaction
| Recv (fd : Z) (got : RecvOutcome)
| Send (fd : Z) (data : list byte) (flags : Z)
| SendMsg (fd : Z) (data : list byte) (anc_fd : Z)
| Close (fd : Z)
| Munmap (addr : image_ptr) (size : Z).

(** The process: the [ApplicationState] that [main] owns and passes by
    pointer, the two variables with static storage ([next_id] of
    [NextWaylandID] and [should_exit]), and the trace of its actions. *)
Record Machine : Type := {
  app : ApplicationState;
  next_id : Z;
  should_exit : Z;
  trace : list IOEvent
}.

Definition with_app (s : ApplicationState) (m : Machine) : Machine :=
  {| app := s; next_id := next_id m; should_exit := should_exit m;
     trace := trace m |}.

Definition with_next_id (v : Z) (m : Machine) : Machine :=
  {| app := app m; next_id := v; should_exit := should_exit m;
     trace := trace m |}.

Definition with_should_exit (v : Z) (m : Machine) : Machine :=
  {| app := app m; next_id := next_id m; should_exit := v;
     trace := trace m |}.

Definition emit (ev : IOEvent) (m : Machine) : Machine :=
  {| app := app m; next_id := next_id m; should_exit := should_exit m;
     trace := trace m ++ [ev] |}.

(** The state of the process when [main] starts. *)
Definition boot : Machine :=
  {| app := zero_state; next_id := 1; should_exit := 0; trace := [] |}.

(** ** The environment *)

(** What the operating system answers.  Results of [send] and [sendmsg] may
    depend on everything the process did before and on the bytes sent.
    [stack_junk] is the content of uninitialised local arrays. *)
Record Env : Type := {
  getenv_XDG_RUNTIME_DIR : option (list byte);
  getenv_WAYLAND_DISPLAY : option (list byte);
  socket_result : Z;
  connect_result : Z;
  time_now : Z;
  shm_open_result : Z;
  shm_unlink_result : Z;
  ftruncate_result : Z;
  mmap_succeeds : bool;
  sigaction_result : Z;
  send_result : list IOEvent -> list byte -> Z;
  sendmsg_result : list IOEvent -> list byte -> Z;
  stack_junk : byte
}.

(** One turn of the event loop as the environment sees it: whether SIGINT
    was delivered before the loop condition is tested, whether it was
    delivered while the process was inside [recv], and what [recv] did. *)
Record LoopInput : Type := {
  sigint_before_test : bool;
  sigint_in_recv : bool;
  recv_outcome : RecvOutcome
}.

(** ** The monad of the embedding *)

Definition M (A : Type) : Type := Machine -> result A * Machine.

Definition ret {A} (a : A) : M A := fun m => (Ok a, m).

Definition bind {A B} (c : M A) (k : A -> M B) : M B :=
  fun m =>
    match c m with
    | (Ok a, m') => k a m'
    | (Exit z, m') => (Exit z, m')
    | (Fault, m') => (Fault, m')
    | (Blocked, m') => (Blocked, m')
    | (OutOfFuel, m') => (OutOfFuel, m')
    end.

Declare Scope prog_scope.
Delimit Scope prog_scope with prog.
Notation "x <- c ;; k" := (bind c (fun x => k))
  (at level 61, c at next level, right associativity) : prog_scope.
Notation "' pat <- c ;; k" := (bind c (fun x => match x with pat => k end))
  (at level 61, pat pattern, c at next level, right associativity) : prog_scope.
Notation "c ;; k" := (bind c (fun _ => k))
  (at level 61, right associativity) : prog_scope.
Local Open Scope prog_scope.

Definition exit {A} (status : Z) : M A := fun m => (Exit status, m).
Definition fault {A} : M A := fun m => (Fault, m).
Definition get_app : M ApplicationState := fun m => (Ok (app m), m).
Definition modify_app (f : ApplicationState -> ApplicationState) : M unit :=
  fun m => (Ok tt, with_app (f (app m)) m).
Definition io (ev : IOEvent) : M unit := fun m => (Ok tt, emit ev m).
Definition printf (fmt : string) (args : list arg) : M unit :=
  io (Printf fmt args).

(** A memory access of the pure layer, lifted: [None] is a fault. *)
Definition mem {A} (o : option A) : M A :=
  match o with
  | Some a => ret a
  | None => fault
  end.

(** Dereferencing a pointer gives the array behind it; [NULL] faults. *)
Definition deref (p : ptr) : M (list byte) := mem p.

(** A local array [uint8_t buffer[n]] without initialiser. *)
Definition local_array (env : Env) (n : nat) : list byte :=
  repeat (stack_junk env) n.

(** ** The program *)

Definition WAYLAND_DISPLAY_OBJECT_ID : Z := 1.
Definition WAYLAND_DISPLAY_GET_REGISTRY_OPCODE : Z := 1.
Definition WAYLAND_REGISTRY_BIND_OPCODE : Z := 0.
Definition WAYLAND_REGISTRY_GLOBAL_EVENT : Z := 0.
Definition WAYLAND_DISPLAY_ERROR_EVENT : Z := 0.
Definition WAYLAND_SHM_FORMAT_EVENT : Z := 0.
Definition XDG_WM_PING_EVENT : Z := 0.
Definition XDG_SURFACE_CONFIGURE_EVENT : Z := 0.
Definition XDG_TOPLEVEL_CONFIGURE_EVENT : Z := 0.
Definition IMAGE_WIDTH : Z := 256.
Definition IMAGE_HEIGHT : Z := 256.
Definition COLOR_CHANNELS : Z := 4.
Definition MSG_DONTWAIT : Z := 64.
Definition SIGINT : Z := 2.
Definition MAX_CLIENT_ID : Z := 4278190079. (* 0xfeffffff *)

(** [RoundUp4]: [while (v & 3) v++;] on a [uint32_t].  At most three
    increments are ever needed. *)
Fixpoint RoundUp4_loop (fuel : nat) (v : Z) : Z :=
  match fuel with
  | O => v
  | S fuel' =>
      if Z.land v 3 =? 0 then v else RoundUp4_loop fuel' (u32 (v + 1))
  end.

Definition RoundUp4 (v : Z) : Z := RoundUp4_loop 3 (u32 v).

(** [AppendUint32(buffer, &off, v)]: the new buffer and offset. *)
Definition AppendUint32 (buffer : list byte) (current_offset : Z) (v : Z)
  : option (list byte * Z) :=
  match store buffer current_offset (u32_bytes (u32 v)) with
  | Some buffer' => Some (buffer', u64 (current_offset + 4))
  | None => None
  end.

(** [ReadUint32(buffer, &off)]: the value and the new offset. *)
Definition ReadUint32 (buffer : list byte) (current_offset : Z)
  : option (Z * Z) :=
  match load buffer current_offset 4 with
  | Some bs => Some (bytes_u32 bs, u64 (current_offset + 4))
  | None => None
  end.

(** [strlen]: length of the C string at a pointer. *)
Definition strlen (str : list byte) : option Z :=
  match cstr str with
  | Some s => Some (zlen s)
  | None => None
  end.

(** [AppendWaylandString(buffer, &off, capacity, str)]: the returned [int],
    the buffer and the offset. *)
Definition AppendWaylandString (buffer : list byte) (current_offset : Z)
    (buffer_capacity : Z) (str : list byte) : M (Z * list byte * Z) :=
  len <- mem (strlen str) ;;
  let padded_length := RoundUp4 (len + 1) in
  let padding_length := u64 (padded_length - len) in
  let remaining := u64 (buffer_capacity - current_offset) in
  if u64 (padded_length + 4) >? remaining then
    printf "Appending a string exceeds the %u bytes remaining in a buffer."
      [AInt (u32 remaining)] ;;
    ret (0, buffer, current_offset)
  else
    '(b1, off1) <- mem (AppendUint32 buffer current_offset (len + 1)) ;;
    (* memcpy(buffer + *current_offset, str, length) *)
    b2 <- mem (store b1 off1 (firstn (Z.to_nat len) str)) ;;
    let off2 := u64 (off1 + len) in
    (* memset(buffer + *current_offset, 0, padding_length) *)
    b3 <- mem (store b2 off2 (repeat x00 (Z.to_nat padding_length))) ;;
    ret (1, b3, u64 (off2 + padding_length)).

(** [ParsedWaylandEvent]. *)
Record ParsedWaylandEvent : Type := {
  object_id : Z;
  opcode : Z;
  payload_size : Z;
  payload : ptr
}.

(** The payload a message designates: the first [payload_size] bytes at its
    payload pointer (nothing behind [NULL]). *)
Definition payload_bytes (e : ParsedWaylandEvent) : list byte :=
  match payload e with
  | Some view => firstn (Z.to_nat (payload_size e)) view
  | None => []
  end.

(** [ReadWaylandEvent(buffer, &off, dst)]: the filled [dst] and the new
    offset. *)
Definition ReadWaylandEvent (buffer : list byte) (current_offset : Z)
  : M (ParsedWaylandEvent * Z) :=
  '(oid, off1) <- mem (ReadUint32 buffer current_offset) ;;
  '(opcode_and_size, off2) <- mem (ReadUint32 buffer off1) ;;
  let op := Z.land opcode_and_size 65535 in
  let size_with_header := Z.shiftr opcode_and_size 16 in
  if size_with_header <? 8 then
    printf "Got invalid wayland message size: %d"
      [AInt (s32 size_with_header)] ;;
    exit 1
  else
    let psize := u16 (size_with_header - 8) in
    let p := if psize =? 0 then None else Some (ptr_add buffer off2) in
    ret ({| object_id := oid; opcode := op; payload_size := psize;
            payload := p |},
         u64 (off2 + RoundUp4 psize)).

(** [WriteWaylandMessage(buffer, &off, src)]: the new buffer and offset;
    [None] when a write leaves the buffer or the payload cannot be read.
    The shift is taken modulo 2^32, as gcc computes it. *)
Definition WriteWaylandMessage (buffer : list byte) (current_offset : Z)
    (src : ParsedWaylandEvent) : option (list byte * Z) :=
  match AppendUint32 buffer current_offset (object_id src) with
  | None => None
  | Some (b1, off1) =>
      let opcode_and_size :=
        Z.lor (u32 (Z.shiftl (payload_size src + 8) 16)) (opcode src) in
      match AppendUint32 b1 off1 opcode_and_size with
      | None => None
      | Some (b2, off2) =>
          if payload_size src >? 0 then
            match payload src with
            | None => None
            | Some view =>
                match load view 0 (Z.to_nat (payload_size src)) with
                | None => None
                | Some bs =>
                    match store b2 off2 bs with
                    | None => None
                    | Some b3 =>
                        Some (b3, u64 (off2 + RoundUp4 (payload_size src)))
                    end
                end
            end
          else Some (b2, off2)
      end
  end.

(** [ReadWaylandString(buffer, &off)]: the returned pointer and the new
    offset.  For a zero length the pointer is the literal empty string. *)
Definition ReadWaylandString (buffer : list byte) (current_offset : Z)
  : option (list byte * Z) :=
  match ReadUint32 buffer current_offset with
  | None => None
  | Some (string_length, off1) =>
      if string_length =? 0 then Some ([x00], off1)
      else Some (ptr_add buffer off1, u64 (off1 + RoundUp4 string_length))
  end.

(** [NextWaylandID]. *)
Definition NextWaylandID : M Z :=
  fun m =>
    let n := u32 (next_id m + 1) in
    let m' := with_next_id n m in
    if n >? MAX_CLIENT_ID then
      (printf "Error: Allocated too many client-side wayland IDs." [] ;;
       exit 1) m'
    else (Ok n, m').

Definition bool_int (b : bool) : Z := if b then 1 else 0.

(** [strcmp(a, b) == 0] on two C strings already read. *)
Fixpoint strcmp_eq (a b : list byte) : bool :=
  match a, b with
  | [], [] => true
  | x :: a', y :: b' => Byte.eqb x y && strcmp_eq a' b'
  | _, _ => false
  end.

(** The fill of one row in [RenderFrame]: pixels [x], [x+1], ... ([n] of
    them) of the row at [row_offset]. *)
Fixpoint fill_row (n : nat) (x row_offset : Z) (img : list byte)
  : option (list byte) :=
  match n with
  | O => Some img
  | S n' =>
      let pixel_offset := u32 (row_offset + u32 (x * 4)) in
      match store img pixel_offset [xaa] with
      | None => None
      | Some i1 =>
          match store i1 (u32 (pixel_offset + 1)) [x10] with
          | None => None
          | Some i2 =>
              match store i2 (u32 (pixel_offset + 2)) [x55] with
              | None => None
              | Some i3 =>
                  match store i3 (u32 (pixel_offset + 3)) [xff] with
                  | None => None
                  | Some i4 => fill_row n' (x + 1) row_offset i4
                  end
              end
          end
      end
  end.

(** The rows of the fill: [n] rows starting with the one at [row_offset]. *)
Fixpoint fill_rows (n : nat) (w stride_ row_offset : Z) (img : list byte)
  : option (list byte) :=
  match n with
  | O => Some img
  | S n' =>
      match fill_row (Z.to_nat w) 0 row_offset img with
      | None => None
      | Some img' => fill_rows n' w stride_ (u32 (row_offset + stride_)) img'
      end
  end.

(** The [memset] and the two loops of [RenderFrame] on the mapped buffer. *)
Definition paint (s : ApplicationState) : option (list byte) :=
  match image_buffer s with
  | ImgAt img =>
      match store img 0 (repeat x00 (Z.to_nat (image_buffer_size s))) with
      | None => None
      | Some cleared =>
          fill_rows (Z.to_nat (height s)) (width s) (stride s) 0 cleared
      end
  | _ => None
  end.

(** The conditions that [HandleWaylandEvent] tests, in its order: the
    object the event is addressed to and its opcode. *)
Definition is_registry_global (s : ApplicationState) (e : ParsedWaylandEvent)
  : bool :=
  (object_id e =? registry_id s) && (opcode e =? WAYLAND_REGISTRY_GLOBAL_EVENT).
Definition is_display_error (e : ParsedWaylandEvent) : bool :=
  (object_id e =? WAYLAND_DISPLAY_OBJECT_ID)
  && (opcode e =? WAYLAND_DISPLAY_ERROR_EVENT).
Definition is_ping (s : ApplicationState) (e : ParsedWaylandEvent) : bool :=
  (object_id e =? xdg_wm_base_id s) && (opcode e =? XDG_WM_PING_EVENT).
Definition is_surface_configure (s : ApplicationState)
    (e : ParsedWaylandEvent) : bool :=
  (object_id e =? xdg_surface_id s) && (opcode e =? XDG_SURFACE_CONFIGURE_EVENT).
Definition is_toplevel_configure (s : ApplicationState)
    (e : ParsedWaylandEvent) : bool :=
  (object_id e =? xdg_toplevel_id s)
  && (opcode e =? XDG_TOPLEVEL_CONFIGURE_EVENT).
Definition is_shm_format (s : ApplicationState) (e : ParsedWaylandEvent)
  : bool :=
  (object_id e =? shm_id s) && (opcode e =? WAYLAND_SHM_FORMAT_EVENT).

(** What a successful [recv] leaves in the buffer and returns: the bytes
    delivered (no more than the buffer holds) replace its beginning, the
    rest keeps what earlier calls left there. *)
Definition recv_into (recv_buffer data : list byte) : list byte * Z :=
  let d := firstn (List.length recv_buffer) data in
  (d ++ skipn (List.length d) recv_buffer, zlen d).

Section Client.

Variable env : Env.

(** [send(fd, buffer, n, flags)], its result converted to [size_t]. *)
Definition send (fd : Z) (buffer : list byte) (n : Z) (flags : Z) : M Z :=
  data <- mem (load buffer 0 (Z.to_nat n)) ;;
  fun m => (Ok (u64 (send_result env (trace m) data)),
            emit (Send fd data flags) m).

(** The statements every request function repeats: serialise [msg] into a
    local array of [cap] bytes with [WriteWaylandMessage], [send] the bytes
    written, and test [result != buffer_offset].  [true] when they agree. *)
Definition write_and_send (cap : nat) (msg : ParsedWaylandEvent) (flags : Z)
  : M bool :=
  s <- get_app ;;
  '(buffer, buffer_offset) <-
     mem (WriteWaylandMessage (local_array env cap) 0 msg) ;;
  result <- send (socket_fd s) buffer buffer_offset flags ;;
  ret (result =? buffer_offset).

(** An array of [uint32_t] arguments as the bytes a pointer to it sees. *)
Definition u32_array (vs : list Z) : list byte :=
  flat_map (fun v => u32_bytes (u32 v)) vs.

Definition GetWaylandConnection : M Z :=
  match getenv_XDG_RUNTIME_DIR env with
  | None =>
      printf "The XDG_RUNTIME_DIR environment variable was not set." [] ;;
      ret (-1)
  | Some xdg_dir =>
      let display_name :=
        match getenv_WAYLAND_DISPLAY env with
        | Some d => d
        | None => lit "wayland-0"
        end in
      (* snprintf into sun_path with size sizeof(sun_path) - 1 = 107 *)
      let path := firstn 106 (xdg_dir ++ lit "/" ++ display_name) in
      printf "Connecting to display path: %s" [AStr path] ;;
      io Socket ;;
      let fd := socket_result env in
      if fd <? 0 then
        printf "Error creating socket: %s" [AErrno] ;;
        ret (-1)
      else
        io (Connect fd path) ;;
        if negb (connect_result env =? 0) then
          printf "Error connecting to %s: %s" [AStr path; AErrno] ;;
          io (Close fd) ;;
          ret (-1)
        else ret fd
  end.

Definition GetWaylandDisplayRegistry : M Z :=
  wayland_id <- NextWaylandID ;;
  let msg := {| object_id := WAYLAND_DISPLAY_OBJECT_ID;
                opcode := WAYLAND_DISPLAY_GET_REGISTRY_OPCODE;
                payload_size := 4;
                payload := Some (u32_array [wayland_id]) |} in
  ok <- write_and_send 128 msg MSG_DONTWAIT ;;
  if ok then
    modify_app (set_registry_id wayland_id) ;;
    ret 1
  else
    printf "Error sending message: %s" [AErrno] ;;
    ret 0.

Definition WaylandRegistryBind (name : Z) (interface : list byte)
    (version : Z) : M Z :=
  new_id <- NextWaylandID ;;
  '(p1, off1) <- mem (AppendUint32 (local_array env 248) 0 name) ;;
  '(r, p2, off2) <- AppendWaylandString p1 off1 248 interface ;;
  if r =? 0 then
    printf "Error copying wayland interface name string." [] ;;
    ret 0
  else
    '(p3, off3) <- mem (AppendUint32 p2 off2 version) ;;
    '(p4, off4) <- mem (AppendUint32 p3 off3 new_id) ;;
    s <- get_app ;;
    let msg := {| object_id := registry_id s;
                  opcode := WAYLAND_REGISTRY_BIND_OPCODE;
                  payload_size := u16 off4;
                  payload := Some p4 |} in
    ok <- write_and_send 256 msg 0 ;;
    if ok then ret new_id
    else
      printf "Error sending registry bind message: %s" [AErrno] ;;
      ret 0.

(** The path of the shared-memory object is printed by its number. *)
Definition OpenSharedMemoryObject : M Z :=
  let t := s32 (Z.rem (time_now env) 16777215) in
  io (ShmOpen t) ;;
  modify_app (set_shm_fd (shm_open_result env)) ;;
  s <- get_app ;;
  if shm_fd s <=? -1 then
    printf "Error creating %s: %s" [AInt t; AErrno] ;;
    ret 0
  else
    io (ShmUnlink t) ;;
    if negb (shm_unlink_result env =? 0) then
      printf "Error unlinking %s: %s" [AInt t; AErrno] ;;
      ret 0
    else
      io (Ftruncate (shm_fd s) (image_buffer_size s)) ;;
      if negb (ftruncate_result env =? 0) then
        printf "Error setting size of %s to %d: %s"
          [AInt t; AInt (s32 (image_buffer_size s)); AErrno] ;;
        ret 0
      else
        io (Mmap (shm_fd s) (image_buffer_size s)) ;;
        if mmap_succeeds env then
          modify_app (set_image_buffer
            (ImgAt (repeat x00 (Z.to_nat (image_buffer_size s))))) ;;
          ret 1
        else
          modify_app (set_image_buffer ImgMapFailed) ;;
          printf "Error mapping shared image buffer: %s" [AErrno] ;;
          ret 0.

Definition SignalHandler (signal_number : Z) : M unit :=
  printf "Received signal %d. Exiting." [AInt signal_number] ;;
  fun m => (Ok tt, with_should_exit 1 m).

Definition PrintErrorEventInfo (e : ParsedWaylandEvent) : M unit :=
  if payload_size e <=? 12 then
    printf "Got an error event, but it was only %d bytes long."
      [AInt (payload_size e)]
  else
    view <- deref (payload e) ;;
    '(oid, off1) <- mem (ReadUint32 view 0) ;;
    '(error_code, off2) <- mem (ReadUint32 view off1) ;;
    '(msg, _) <- mem (ReadWaylandString view off2) ;;
    text <- mem (cstr msg) ;;
    printf "Error detected on object ID %u, code %u: %s"
      [AInt oid; AInt error_code; AStr text].

Definition BindingDone : M Z :=
  s <- get_app ;;
  if negb (binding_done s =? 0) then ret 1
  else if negb (shm_id s =? 0) && negb (compositor_id s =? 0)
          && negb (xdg_wm_base_id s =? 0) then
    modify_app (set_binding_done 1) ;;
    ret 1
  else ret 0.

Definition CreateWLSurface : M Z :=
  id <- NextWaylandID ;;
  modify_app (set_surface_id id) ;;
  s <- get_app ;;
  let msg := {| object_id := compositor_id s; opcode := 0;
                payload_size := 4;
                payload := Some (u32_array [surface_id s]) |} in
  ok <- write_and_send 64 msg 0 ;;
  if ok then
    printf "s->surface_id = %d" [AInt (s32 (surface_id s))] ;;
    ret 1
  else
    printf "Error sending create-surface message: %s" [AErrno] ;;
    ret 0.

Definition CreateXDGSurface : M Z :=
  id <- NextWaylandID ;;
  modify_app (set_xdg_surface_id id) ;;
  s <- get_app ;;
  let msg := {| object_id := xdg_wm_base_id s; opcode := 2;
                payload_size := 8;
                payload := Some (u32_array [xdg_surface_id s; surface_id s])
             |} in
  ok <- write_and_send 64 msg 0 ;;
  if ok then
    printf "s->xdg_surface_id = %d" [AInt (s32 (xdg_surface_id s))] ;;
    ret 1
  else
    printf "Error getting xdg surface: %s" [AErrno] ;;
    ret 0.

Definition GetXDGTopLevel : M Z :=
  id <- NextWaylandID ;;
  modify_app (set_xdg_toplevel_id id) ;;
  s <- get_app ;;
  let msg := {| object_id := xdg_surface_id s; opcode := 1;
                payload_size := 4;
                payload := Some (u32_array [xdg_toplevel_id s]) |} in
  ok <- write_and_send 64 msg 0 ;;
  if ok then
    printf "s->xdg_toplevel_id = %d" [AInt (s32 (xdg_toplevel_id s))] ;;
    ret 1
  else
    printf "Error getting xdg toplevel: %s" [AErrno] ;;
    ret 0.

Definition CreateSurface : M Z :=
  r1 <- CreateWLSurface ;;
  if r1 =? 0 then ret 0 else
  r2 <- CreateXDGSurface ;;
  if r2 =? 0 then ret 0 else
  r3 <- GetXDGTopLevel ;;
  if r3 =? 0 then ret 0 else
  ret 1.

Definition SendMsgWithShmDescriptor (msg_buffer : list byte) (msg_size : Z)
  : M Z :=
  s <- get_app ;;
  data <- mem (load msg_buffer 0 (Z.to_nat msg_size)) ;;
  printf "Message sent when creating shm pool:" [] ;;
  io (HexDump data) ;;
  result <- (fun m => (Ok (sendmsg_result env (trace m) data),
                       emit (SendMsg (socket_fd s) data (shm_fd s)) m)) ;;
  if result <? 0 then
    printf "Error sending message with FD: %s" [AErrno] ;;
    ret 0
  else ret 1.

Definition CreateShmPool : M Z :=
  shm_pool_id_ <- NextWaylandID ;;
  s <- get_app ;;
  let msg := {| object_id := shm_id s; opcode := 0; payload_size := 8;
                payload := Some (u32_array [shm_pool_id_;
                                            image_buffer_size s]) |} in
  '(buffer, buffer_offset) <-
     mem (WriteWaylandMessage (local_array env 256) 0 msg) ;;
  r <- SendMsgWithShmDescriptor buffer buffer_offset ;;
  if r =? 0 then
    printf "Error sending shm_pool.create message." [] ;;
    ret 0
  else
    modify_app (set_shm_pool_id shm_pool_id_) ;;
    ret 1.

Definition CreateFrameBuffer : M Z :=
  buffer_id <- NextWaylandID ;;
  s <- get_app ;;
  let msg := {| object_id := shm_pool_id s; opcode := 0; payload_size := 24;
                payload := Some (u32_array [buffer_id; 0; width s; height s;
                                            stride s; 0]) |} in
  ok <- write_and_send 256 msg 0 ;;
  if ok then
    modify_app (set_frame_buffer_id buffer_id) ;;
    ret 1
  else
    printf "Error sending create-buffer message: %s" [AErrno] ;;
    ret 0.

Definition AttachBuffer : M Z :=
  s <- get_app ;;
  let msg := {| object_id := surface_id s; opcode := 1; payload_size := 12;
                payload := Some (u32_array [frame_buffer_id s; 0; 0]) |} in
  ok <- write_and_send 128 msg 0 ;;
  if ok then ret 1
  else
    printf "Error sending surface attach message: %s" [AErrno] ;;
    ret 0.

Definition CommitSurface : M Z :=
  s <- get_app ;;
  let msg := {| object_id := surface_id s; opcode := 6; payload_size := 0;
                payload := None |} in
  ok <- write_and_send 64 msg 0 ;;
  if ok then ret 1
  else
    printf "Error sending surface commit message: %s" [AErrno] ;;
    ret 0.

Definition RenderFrame : M Z :=
  s0 <- get_app ;;
  r1 <- (if shm_pool_id s0 =? 0 then CreateShmPool else ret 1) ;;
  if r1 =? 0 then
    printf "Error creating shm_pool." [] ;;
    ret 0
  else
  s1 <- get_app ;;
  r2 <- (if frame_buffer_id s1 =? 0 then CreateFrameBuffer else ret 1) ;;
  if r2 =? 0 then
    printf "Error creating frame buffer." [] ;;
    ret 0
  else
  s2 <- get_app ;;
  img <- mem (paint s2) ;;
  modify_app (set_image_buffer (ImgAt img)) ;;
  r3 <- AttachBuffer ;;
  if r3 =? 0 then
    printf "Error attaching buffer to surface." [] ;;
    ret 0
  else
  r4 <- CommitSurface ;;
  if r4 =? 0 then
    printf "Error committing surface." [] ;;
    ret 0
  else
  modify_app (set_surface_state SURFACE_ATTACHED) ;;
  ret 1.

Definition SendXDGPong (ping_serial : Z) : M Z :=
  s <- get_app ;;
  let msg := {| object_id := xdg_wm_base_id s; opcode := 3;
                payload_size := 4;
                payload := Some (u32_array [ping_serial]) |} in
  ok <- write_and_send 128 msg 0 ;;
  if ok then ret 1
  else
    printf "Error sending XDG WM pong: %s" [AErrno] ;;
    ret 0.

Definition AckXDGSurfaceConfigure (serial : Z) : M Z :=
  s <- get_app ;;
  let msg := {| object_id := xdg_surface_id s; opcode := 4;
                payload_size := 4;
                payload := Some (u32_array [serial]) |} in
  ok <- write_and_send 64 msg 0 ;;
  if ok then ret 1
  else
    printf "Error sending xdg_surface.ack_configure: %s" [AErrno] ;;
    ret 0.

(** [*((uint32_t * ) p)]. *)
Definition read_u32_at (p : ptr) (off : Z) : M Z :=
  view <- deref p ;;
  '(v, _) <- mem (ReadUint32 view off) ;;
  ret v.

(** One of the three [if (strcmp(label, interface_name) == 0)] blocks of the
    registry handler: bind, store the identifier with [set], and report.
    [false] when the block executes [return 0]. *)
Definition bind_if_named (label : string)
    (set : Z -> ApplicationState -> ApplicationState)
    (error_line : string)
    (name : Z) (interface_name text : list byte) (interface_version : Z)
  : M bool :=
  if strcmp_eq (lit label) text then
    id <- WaylandRegistryBind name interface_name interface_version ;;
    modify_app (set id) ;;
    if id =? 0 then
      printf error_line [] ;;
      ret false
    else
      printf "  -> Bound to ID %u" [AInt id] ;;
      ret true
  else ret true.

Definition HandleWaylandEvent (e : ParsedWaylandEvent) : M Z :=
  s <- get_app ;;
  if is_registry_global s e then
    view <- deref (payload e) ;;
    '(name, off1) <- mem (ReadUint32 view 0) ;;
    '(interface_name, off2) <- mem (ReadWaylandString view off1) ;;
    '(interface_version, _) <- mem (ReadUint32 view off2) ;;
    text <- mem (cstr interface_name) ;;
    printf "Found interface %s: name %u, version %u"
      [AStr text; AInt name; AInt interface_version] ;;
    go1 <- bind_if_named "wl_shm" set_shm_id
             "Error binding wl_shm object."
             name interface_name text interface_version ;;
    if negb go1 then ret 0 else
    go2 <- bind_if_named "xdg_wm_base" set_xdg_wm_base_id
             "Error binding xdg_wm_base object."
             name interface_name text interface_version ;;
    if negb go2 then ret 0 else
    go3 <- bind_if_named "wl_compositor" set_compositor_id
             "Error binding wl_compositor object."
             name interface_name text interface_version ;;
    if negb go3 then ret 0 else
    ret 1
  else if is_display_error e then
    PrintErrorEventInfo e ;;
    ret 0
  else if is_ping s e then
    if negb (payload_size e =? 4) then
      printf "Incorrect xdg ping payload size: %d" [AInt (payload_size e)] ;;
      ret 0
    else
      serial <- read_u32_at (payload e) 0 ;;
      SendXDGPong serial
  else if is_surface_configure s e then
    if negb (payload_size e =? 4) then
      printf "Incorrect xdg_surface configure payload size: %d"
        [AInt (payload_size e)] ;;
      ret 0
    else
      serial <- read_u32_at (payload e) 0 ;;
      result <- AckXDGSurfaceConfigure serial ;;
      if result =? 0 then ret 0
      else
        modify_app (set_surface_state ACKED_CONFIGURE) ;;
        ret 1
  else if is_toplevel_configure s e then
    (if payload_size e <? 8 then
       printf "Invalid payload size for xdg_toplevel configure: %d"
         [AInt (payload_size e)]
     else ret tt) ;;
    w <- read_u32_at (payload e) 0 ;;
    h <- read_u32_at (payload e) 4 ;;
    printf "Got xdg toplevel configure event. W=%d, H=%d"
      [AInt (s32 w); AInt (s32 h)] ;;
    ret 1
  else if is_shm_format s e then
    if negb (payload_size e =? 4) then
      printf "Incorrect wl_shm.format payload size: %d"
        [AInt (payload_size e)] ;;
      ret 0
    else
      format <- read_u32_at (payload e) 0 ;;
      printf "Supported pixel format: 0x%08x" [AInt format] ;;
      ret 1
  else
    printf "Handling opcode %d on object %u is not supported!"
      [AInt (opcode e); AInt (object_id e)] ;;
    ret 0.

(** The loop of [ProcessWaylandEvents] from [buffer_offset] on.  Every turn
    moves the offset forward by at least 8, so [fuel] turns are enough when
    [fuel] exceeds the bytes left. *)
Fixpoint ProcessWaylandEvents_loop (fuel : nat) (buffer : list byte)
    (buffer_size buffer_offset : Z) {struct fuel} : M Z :=
  if buffer_offset <? buffer_size then
    match fuel with
    | O => fun m => (OutOfFuel, m)
    | S fuel' =>
        '(event, off') <- ReadWaylandEvent buffer buffer_offset ;;
        if u64 (off' - 1) >? buffer_size then
          printf ("A message with a body of %d bytes overflowed the buffer "
                  ++ "containing %d bytes.")
            [AInt (payload_size event); AInt (s32 buffer_size)] ;;
          ret 0
        else
          r <- HandleWaylandEvent event ;;
          if r =? 0 then
            printf "Error handling Wayland op %u on object %u."
              [AInt (opcode event); AInt (object_id event)] ;;
            ret 0
          else ProcessWaylandEvents_loop fuel' buffer buffer_size off'
    end
  else ret 1.

Definition ProcessWaylandEvents (buffer : list byte) (buffer_size : Z)
  : M Z :=
  ProcessWaylandEvents_loop (Z.to_nat buffer_size) buffer buffer_size 0.

(** [recv] into [recv_buffer]: the buffer afterwards and the value
    returned. *)
Definition recv (recv_buffer : list byte) (got : RecvOutcome)
  : M (list byte * Z) :=
  s <- get_app ;;
  io (Recv (socket_fd s) got) ;;
  match got with
  | RecvError => ret (recv_buffer, -1)
  | RecvData data => ret (recv_into recv_buffer data)
  end.

(** The loop of [EventLoop], one [LoopInput] per turn.  When the inputs are
    used up and no signal has asked for the exit, the process stays in
    [recv]. *)
Fixpoint EventLoop_loop (script : list LoopInput) (recv_buffer : list byte)
  : M Z :=
  match script with
  | [] =>
      fun m => if should_exit m =? 0 then (Blocked, m) else (Ok 1, m)
  | turn :: rest =>
      (if sigint_before_test turn then SignalHandler SIGINT else ret tt) ;;
      stop <- (fun m => (Ok (negb (should_exit m =? 0)), m)) ;;
      if (stop : bool) then ret 1 else
      (if sigint_in_recv turn then SignalHandler SIGINT else ret tt) ;;
      '(recv_buffer', bytes_read) <- recv recv_buffer (recv_outcome turn) ;;
      if bytes_read <? 0 then
        printf "Error receiving wayland message: %s" [AErrno] ;;
        ret 0
      else
      r <- ProcessWaylandEvents recv_buffer' (u32 bytes_read) ;;
      if r =? 0 then
        printf "Error handling wayland messages." [] ;;
        ret 0
      else
      done <- BindingDone ;;
      s <- get_app ;;
      created <-
        (if negb (done =? 0) && (surface_id s =? 0) then
           r1 <- CreateSurface ;;
           if r1 =? 0 then
             printf "Error creating surface." [] ;;
             ret false
           else
             r2 <- CommitSurface ;;
             if r2 =? 0 then
               printf "Error initially committing surface." [] ;;
               ret false
             else
               printf "Created surface." [] ;;
               ret true
         else ret true) ;;
      if negb created then ret 0 else
      s' <- get_app ;;
      rendered <-
        (match surface_state s' with
         | ACKED_CONFIGURE =>
             r3 <- RenderFrame ;;
             if r3 =? 0 then
               printf "Error rendering a frame." [] ;;
               ret false
             else ret true
         | _ => ret true
         end) ;;
      if negb rendered then ret 0 else
      EventLoop_loop rest recv_buffer'
  end.

Definition EventLoop (script : list LoopInput) : M Z :=
  (* uint8_t recv_buffer[4096]; memset(recv_buffer, 0, ...) *)
  EventLoop_loop script (repeat x00 4096).

Definition CleanupState : M unit :=
  s <- get_app ;;
  (if socket_fd s >=? 0 then io (Close (socket_fd s)) else ret tt) ;;
  (if shm_fd s >=? 0 then
     io (Munmap (image_buffer s) (image_buffer_size s)) ;;
     io (Close (shm_fd s))
   else ret tt) ;;
  modify_app (fun _ => set_shm_fd (-1) (set_socket_fd (-1) zero_state)).

(** [main]: the value it returns is the exit status of the process. *)
Definition main (script : list LoopInput) : M Z :=
  (fun m => (Ok tt, with_should_exit 0 m)) ;;
  modify_app (fun _ => set_shm_fd (-1) (set_socket_fd (-1) zero_state)) ;;
  fd <- GetWaylandConnection ;;
  modify_app (set_socket_fd fd) ;;
  if fd <=? 0 then ret 1 else
  modify_app (set_width IMAGE_WIDTH) ;;
  modify_app (set_height IMAGE_HEIGHT) ;;
  modify_app (fun s => set_stride (u32 (width s * COLOR_CHANNELS)) s) ;;
  modify_app (fun s => set_image_buffer_size (u32 (stride s * height s)) s) ;;
  r1 <- OpenSharedMemoryObject ;;
  if r1 =? 0 then CleanupState ;; ret 1 else
  r2 <- GetWaylandDisplayRegistry ;;
  if r2 =? 0 then CleanupState ;; ret 1 else
  io Sigaction ;;
  if negb (sigaction_result env =? 0) then
    printf "Error setting SIGINT handler: %s" [AErrno] ;;
    CleanupState ;;
    ret 1
  else
  printf "Running. Press Ctrl+C to exit." [] ;;
  result <- EventLoop script ;;
  (if result =? 0 then printf "The event loop exited with an error." []
   else printf "The event loop ended normally." []) ;;
  CleanupState ;;
  ret 0.

End Client.

(** The exit status of the process, when it has ended. *)
Definition exit_status (r : result Z) : option Z :=
  match r with
  | Ok status => Some status
  | Exit status => Some status
  | _ => None
  end.

(** ** Vocabulary of the statements *)

(** The header found at an offset of a buffer: object identifier, opcode and
    declared total size. *)
Definition header_at (buffer : list byte) (off : Z) : option (Z * Z * Z) :=
  match ReadUint32 buffer off with
  | None => None
  | Some (oid, off1) =>
      match ReadUint32 buffer off1 with
      | None => None
      | Some (w, _) => Some (oid, Z.land w 65535, Z.shiftr w 16)
      end
  end.

(** Lines the dispatcher prints. *)
Definition invalid_size_line (size : Z) : IOEvent :=
  Printf "Got invalid wayland message size: %d" [AInt (s32 size)].
Definition unsupported_line (e : ParsedWaylandEvent) : IOEvent :=
  Printf "Handling opcode %d on object %u is not supported!"
    [AInt (opcode e); AInt (object_id e)].
Definition handling_error_line (e : ParsedWaylandEvent) : IOEvent :=
  Printf "Error handling Wayland op %u on object %u."
    [AInt (opcode e); AInt (object_id e)].
Definition overflow_line (e : ParsedWaylandEvent) (size : Z) : IOEvent :=
  Printf ("A message with a body of %d bytes overflowed the buffer "
          ++ "containing %d bytes.")
    [AInt (payload_size e); AInt (s32 size)].
Definition batch_error_line : IOEvent :=
  Printf "Error handling wayland messages." [].
Definition short_toplevel_line (e : ParsedWaylandEvent) : IOEvent :=
  Printf "Invalid payload size for xdg_toplevel configure: %d"
    [AInt (payload_size e)].
Definition toplevel_size_line (w h : Z) : IOEvent :=
  Printf "Got xdg toplevel configure event. W=%d, H=%d"
    [AInt (s32 w); AInt (s32 h)].

(** Some handler of [HandleWaylandEvent] takes the event. *)
Definition known_handler (s : ApplicationState) (e : ParsedWaylandEvent)
  : bool :=
  is_registry_global s e || is_display_error e || is_ping s e
  || is_surface_configure s e || is_toplevel_configure s e
  || is_shm_format s e.

(** The configure handler of the top-level object is the one that takes the
    event. *)
Definition reaches_toplevel_configure (s : ApplicationState)
    (e : ParsedWaylandEvent) : bool :=
  negb (is_registry_global s e) && negb (is_display_error e)
  && negb (is_ping s e) && negb (is_surface_configure s e)
  && is_toplevel_configure s e.

(** All three required roles hold a bound identifier. *)
Definition roles_bound (s : ApplicationState) : bool :=
  negb (shm_id s =? 0) && negb (compositor_id s =? 0)
  && negb (xdg_wm_base_id s =? 0).

(** The order of the surface states. *)
Definition rank (st : SurfaceState) : Z :=
  match st with
  | NONE => 0
  | ACKED_CONFIGURE => 1
  | SURFACE_ATTACHED => 2
  end.

(** The things that happen to the [ApplicationState] during a run, as the
    calls that [EventLoop] and [ProcessWaylandEvents] make. *)
Inductive Op : Type :=
| OpHandle (e : ParsedWaylandEvent)
| OpBatch (buffer : list byte) (buffer_size : Z)
| OpBindingDone
| OpCreateSurface
| OpCommitSurface
| OpRenderFrame.

Definition run_op (env : Env) (op : Op) : M Z :=
  match op with
  | OpHandle e => HandleWaylandEvent env e
  | OpBatch buffer buffer_size => ProcessWaylandEvents env buffer buffer_size
  | OpBindingDone => BindingDone
  | OpCreateSurface => CreateSurface env
  | OpCommitSurface => CommitSurface env
  | OpRenderFrame => RenderFrame env
  end.

(** A sequence of such calls, with the values they return. *)
Fixpoint run_ops (env : Env) (ops : list Op) : M (list Z) :=
  match ops with
  | [] => ret []
  | op :: rest =>
      r <- run_op env op ;;
      rs <- run_ops env rest ;;
      ret (r :: rs)
  end.

Definition is_BindingDone (op : Op) : bool :=
  match op with
  | OpBindingDone => true
  | _ => false
  end.

(** Some call of [BindingDone] in the sequence returned 1. *)
Fixpoint answered_done (ops : list Op) (rs : list Z) : bool :=
  match ops, rs with
  | op :: ops', r :: rs' =>
      (is_BindingDone op && (r =? 1)) || answered_done ops' rs'
  | _, _ => false
  end.

(** [n] further calls of the allocator after a first one; the value is that
    of the last call. *)
Definition NextWaylandID_after (n : N) : M Z :=
  N.iter n (fun later => _ <- NextWaylandID ;; later) NextWaylandID.

(** An environment in which every system call succeeds and every [send]
    transmits all its bytes. *)
Definition friendly_env : Env :=
  {| getenv_XDG_RUNTIME_DIR := Some (lit "/run/user/1000");
     getenv_WAYLAND_DISPLAY := None;
     socket_result := 3;
     connect_result := 0;
     time_now := 1700000000;
     shm_open_result := 4;
     shm_unlink_result := 0;
     ftruncate_result := 0;
     mmap_succeeds := true;
     sigaction_result := 0;
     send_result := fun _ data => zlen data;
     sendmsg_result := fun _ data => zlen data;
     stack_junk := xcc |}.

(** A turn of the event loop without signal. *)
Definition quiet_turn (got : RecvOutcome) : LoopInput :=
  {| sigint_before_test := false; sigint_in_recv := false;
     recv_outcome := got |}.

(** A message a caller may hand to [WriteWaylandMessage]: identifier and
    opcode fit their fields, and the payload pointer has [payload_size]
    bytes behind it ([NULL] only for an empty payload). *)
Definition well_formed_message (src : ParsedWaylandEvent) : Prop :=
  0 <= object_id src < 4294967296 /\
  0 <= opcode src < 65536 /\
  0 <= payload_size src /\
  match payload src with
  | Some view => payload_size src <= zlen view
  | None => payload_size src = 0
  end.

(** Whatever the outcome of [c], the application state it leaves is related
    by [R] to the one it started from. *)
Definition respects (R : ApplicationState -> ApplicationState -> Prop)
    {A} (c : M A) : Prop :=
  forall m, R (app m) (app (snd (c m))).

(** The two fields that the properties below follow are left alone. *)
Definition same_tracked (s s' : ApplicationState) : Prop :=
  binding_done s' = binding_done s /\ surface_state s' = surface_state s.

(** [c] changes neither [binding_done] nor [surface_state]. *)
Abbreviation frame c := (respects same_tracked c).

(** [c] never ends in [OutOfFuel]. *)
Definition fueled {A} (c : M A) : Prop :=
  forall m, fst (c m) <> OutOfFuel.

(** The line [main] prints before it enters the event loop. *)
Definition running_line : IOEvent :=
  Printf "Running. Press Ctrl+C to exit." [].

(** Everything [c] adds to the trace satisfies [P]. *)
Definition emits_only (P : IOEvent -> Prop) {A} (c : M A) : Prop :=
  forall m ev, In ev (trace (snd (c m))) -> In ev (trace m) \/ P ev.

(** When [c] returns, it returns 0. *)
Definition returns_0 (c : M Z) : Prop :=
  forall m st m', c m = (Ok st, m') -> st = 0.

(** When [c] returns after the line that announces the event loop has been
    printed, it returns 0. *)
Definition returns_0_once_running (c : M Z) : Prop :=
  forall m st m',
    ~ In running_line (trace m) ->
    c m = (Ok st, m') ->
    In running_line (trace m') ->
    st = 0.

(** [c] does not print that line. *)
Abbreviation quiet c := (emits_only (fun ev => ev <> running_line) c).

(** [binding_done] is kept by every call but [BindingDone]. *)
Definition keeps_binding_done (s s' : ApplicationState) : Prop :=
  binding_done s' = binding_done s.

(** The moves of the surface state that the program can make: forward or
    not at all, and back from [SURFACE_ATTACHED] to [ACKED_CONFIGURE]. *)
Definition surface_move (a b : SurfaceState) : Prop :=
  rank a <= rank b \/ (a = SURFACE_ATTACHED /\ b = ACKED_CONFIGURE).

(** The dispatcher hands [e] to the configure handler of the shell
    surface. *)
Definition takes_surface_configure (s : ApplicationState)
    (e : ParsedWaylandEvent) : bool :=
  negb (is_registry_global s e) && negb (is_display_error e)
  && negb (is_ping s e) && is_surface_configure s e.

(** The call returned, and not 0. *)
Definition returned_nonzero (r : result Z) : bool :=
  match r with
  | Ok v => negb (v =? 0)
  | _ => false
  end.

(** Handling [e] in [m] acknowledges a configure event of the shell surface:
    the event goes to that handler, its payload has the four bytes of the
    serial, and the call of [AckXDGSurfaceConfigure] with the serial read
    from it returns a non-zero value. *)
Definition configure_acknowledged (env : Env) (e : ParsedWaylandEvent)
    (m : Machine) : bool :=
  takes_surface_configure (app m) e && (payload_size e =? 4)
  && match payload e with
     | Some view =>
         match ReadUint32 view 0 with
         | Some (serial, _) =>
             returned_nonzero (fst (AckXDGSurfaceConfigure env serial m))
         | None => false
         end
     | None => false
     end.

(** What a batch read from [buffer] can do to the surface state: nothing,
    or leave it at [ACKED_CONFIGURE] because one of the events decoded from
    the buffer was an acknowledged configure. *)
Definition batch_move (env : Env) (buffer : list byte) (m m' : Machine)
  : Prop :=
  surface_state (app m') = surface_state (app m) \/
  (surface_state (app m') = ACKED_CONFIGURE /\
   exists off e off' m0,
     ReadWaylandEvent buffer off m0 = (Ok (e, off'), m0) /\
     configure_acknowledged env e m0 = true).

(** [c] sets the surface state to [target] exactly when it returns a
    non-zero value, and leaves it alone otherwise. *)
Definition sets_on_success (target : SurfaceState) (c : M Z) : Prop :=
  forall m,
    surface_state (app (snd (c m)))
    = if returned_nonzero (fst (c m)) then target
      else surface_state (app m).

(** ** Sample inputs *)

(** A message with a five-byte payload. *)
Definition sample_message : ParsedWaylandEvent :=
  {| object_id := 3; opcode := 1; payload_size := 5;
     payload := Some [x01; x02; x03; x04; x05; x06] |}.

(** The format strings of the lines printed, and the descriptors closed,
    in order. *)
Definition printed (t : list IOEvent) : list string :=
  flat_map (fun ev => match ev with Printf fmt _ => [fmt] | _ => [] end) t.
Definition closed (t : list IOEvent) : list Z :=
  flat_map (fun ev => match ev with Close fd => [fd] | _ => [] end) t.

(** An environment like [friendly_env] in which every [send] fails. *)
Definition deaf_env : Env :=
  {| getenv_XDG_RUNTIME_DIR := getenv_XDG_RUNTIME_DIR friendly_env;
     getenv_WAYLAND_DISPLAY := getenv_WAYLAND_DISPLAY friendly_env;
     socket_result := socket_result friendly_env;
     connect_result := connect_result friendly_env;
     time_now := time_now friendly_env;
     shm_open_result := shm_open_result friendly_env;
     shm_unlink_result := shm_unlink_result friendly_env;
     ftruncate_result := ftruncate_result friendly_env;
     mmap_succeeds := mmap_succeeds friendly_env;
     sigaction_result := sigaction_result friendly_env;
     send_result := fun _ _ => -1;
     sendmsg_result := fun _ _ => -1;
     stack_junk := stack_junk friendly_env |}.

(** The process after the registry (2) and the three globals (3, 4, 5) are
    bound, before [BindingDone] has been asked. *)
Definition bound_machine : Machine :=
  with_next_id 5
    (with_app
       (set_xdg_wm_base_id 5
          (set_compositor_id 4
             (set_shm_id 3 (set_registry_id 2 (set_socket_fd 3 zero_state)))))
       boot).

(** The registry announces [wl_shm] (name 1, version 1). *)
Definition shm_global_event : ParsedWaylandEvent :=
  {| object_id := 2; opcode := 0; payload_size := 20;
     payload := Some (u32_bytes 1 ++ u32_bytes 7 ++ lit "wl_shm"
                      ++ [x00; x00] ++ u32_bytes 1) |}.

(** The process with its surface (6), shell surface (7) and top-level
    object (8) created and a frame attached. *)
Definition attached_machine : Machine :=
  with_next_id 10
    (with_app
       (set_surface_state SURFACE_ATTACHED
          (set_binding_done 1
             (set_frame_buffer_id 10
                (set_shm_pool_id 9
                   (set_xdg_toplevel_id 8
                      (set_xdg_surface_id 7
                         (set_surface_id 6 (app bound_machine))))))))
       boot).

(** A configure event (serial 7) for the shell surface. *)
Definition surface_configure_event : ParsedWaylandEvent :=
  {| object_id := 7; opcode := 0; payload_size := 4;
     payload := Some (u32_bytes 7) |}.

(** Configure events for the top-level object: one without payload, as
    [ReadWaylandEvent] delivers it, and one with a four-byte payload at the
    start of a receive buffer that holds older bytes behind it. *)
Definition empty_toplevel_configure : ParsedWaylandEvent :=
  {| object_id := 8; opcode := 0; payload_size := 0; payload := None |}.
Definition short_toplevel_configure : ParsedWaylandEvent :=
  {| object_id := 8; opcode := 0; payload_size := 4;
     payload := Some (u32_bytes 640 ++ repeat x00 12) |}.

(** The bytes of [empty_toplevel_configure] on the wire. *)
Definition empty_toplevel_bytes : list byte :=
  u32_bytes 8 ++ [x00; x00; x08; x00].

(** An event for an object the client never created. *)
Definition stray_event : ParsedWaylandEvent :=
  {| object_id := 99; opcode := 5; payload_size := 0; payload := None |}.

(** The bytes of [stray_event] on the wire. *)
Definition stray_bytes : list byte :=
  u32_bytes 99 ++ [x05; x00; x08; x00].

(** A header for object 1 that declares a total size of 4. *)
Definition undersized_bytes : list byte :=
  u32_bytes 1 ++ [x00; x00; x04; x00].

(** Eleven bytes of a twelve-byte message for object 99. *)
Definition truncated_bytes : list byte :=
  u32_bytes 99 ++ [x00; x00; x0c; x00] ++ [x01; x02; x03].

(** ** Requests, printed lines and descriptors *)

Definition refusal_line (remaining : Z) : IOEvent :=
  Printf "Appending a string exceeds the %u bytes remaining in a buffer."
    [AInt (u32 remaining)].

(** A message as it goes over the wire when its payload is a whole number
    of 32-bit words: the header and the payload. *)
Definition wire_bytes (msg : ParsedWaylandEvent) : list byte :=
  u32_bytes (u32 (object_id msg))
  ++ u32_bytes (u32 (Z.lor (u32 (Z.shiftl (payload_size msg + 8) 16))
                           (opcode msg)))
  ++ payload_bytes msg.

(** A request whose arguments are 32-bit words. *)
Definition request (oid op : Z) (args : list Z) : list byte :=
  wire_bytes {| object_id := oid; opcode := op;
                payload_size := zlen (u32_array args);
                payload := Some (u32_array args) |}.

Definition copy_error_line : IOEvent :=
  Printf "Error copying wayland interface name string." [].

Definition bind_request (registry name : Z) (s : list byte)
    (version new_id : Z) : list byte :=
  wire_bytes
    {| object_id := registry; opcode := 0;
       payload_size := 16 + RoundUp4 (zlen s + 1);
       payload :=
         Some (u32_bytes (u32 name)
               ++ (u32_bytes (zlen s + 1) ++ s
                   ++ repeat x00 (Z.to_nat (RoundUp4 (zlen s + 1) - zlen s)))
               ++ u32_bytes (u32 version) ++ u32_bytes (u32 new_id)) |}.

Definition bind_send_error_line : IOEvent :=
  Printf "Error sending registry bind message: %s" [AErrno].

Definition pong_error_line : IOEvent :=
  Printf "Error sending XDG WM pong: %s" [AErrno].
Definition ack_error_line : IOEvent :=
  Printf "Error sending xdg_surface.ack_configure: %s" [AErrno].

(** An environment in which every [send] transmits all its bytes. *)
Definition sends_all (env : Env) : Prop :=
  forall t data,
    zlen data < 18446744073709551616 ->
    u64 (send_result env t data) = zlen data.

Definition surface_id_line (id : Z) : IOEvent :=
  Printf "s->surface_id = %d" [AInt (s32 id)].
Definition xdg_surface_id_line (id : Z) : IOEvent :=
  Printf "s->xdg_surface_id = %d" [AInt (s32 id)].
Definition xdg_toplevel_id_line (id : Z) : IOEvent :=
  Printf "s->xdg_toplevel_id = %d" [AInt (s32 id)].

Definition pool_announce_line : IOEvent :=
  Printf "Message sent when creating shm pool:" [].
Definition sendmsg_error_line : IOEvent :=
  Printf "Error sending message with FD: %s" [AErrno].
Definition pool_error_line : IOEvent :=
  Printf "Error sending shm_pool.create message." [].

(** One pixel as [RenderFrame] stores it: blue, green, red, alpha. *)
Definition pixel : list byte := [xaa; x10; x55; xff].

(** A painted row: [w] pixels, then the [gap] bytes of the stride that no
    pixel covers, cleared. *)
Definition painted_row (w gap : nat) : list byte :=
  List.concat (repeat pixel w) ++ repeat x00 gap.

Definition painted (w gap h : nat) : list byte :=
  List.concat (repeat (painted_row w gap) h).

(** An environment in which [sendmsg] never fails. *)
Definition sendmsg_succeeds (env : Env) : Prop :=
  forall t data, 0 <= sendmsg_result env t data.

Definition signal_line : IOEvent :=
  Printf "Received signal %d. Exiting." [AInt SIGINT].
Definition recv_error_line : IOEvent :=
  Printf "Error receiving wayland message: %s" [AErrno].

(** A turn in which [recv] returns 0: the server has closed the
    connection. *)
Definition end_of_stream : LoopInput := quiet_turn (RecvData []).

(** The three globals the client binds. *)
Inductive global_role : Type := role_shm | role_wm_base | role_compositor.

Definition role_interface (r : global_role) : string :=
  match r with
  | role_shm => "wl_shm"
  | role_wm_base => "xdg_wm_base"
  | role_compositor => "wl_compositor"
  end.

Definition record_role (r : global_role)
  : Z -> ApplicationState -> ApplicationState :=
  match r with
  | role_shm => set_shm_id
  | role_wm_base => set_xdg_wm_base_id
  | role_compositor => set_compositor_id
  end.

Definition found_line (text : list byte) (name version : Z) : IOEvent :=
  Printf "Found interface %s: name %u, version %u"
    [AStr text; AInt name; AInt version].
Definition bound_line (id : Z) : IOEvent :=
  Printf "  -> Bound to ID %u" [AInt id].

(** What the registry handler reads from the payload of [e]: the numeric
    name, the pointer to the interface string and the version. *)
Definition announces (e : ParsedWaylandEvent) (name : Z)
    (interface_name : list byte) (version : Z) : Prop :=
  exists view off1 off2 off3,
    payload e = Some view /\
    ReadUint32 view 0 = Some (name, off1) /\
    ReadWaylandString view off1 = Some (interface_name, off2) /\
    ReadUint32 view off2 = Some (version, off3).

(** What [CleanupState] relies on is left alone: the two descriptors and the
    size of the mapping are as before, and no descriptor has been closed. *)
Definition same_descriptors (m m' : Machine) : Prop :=
  socket_fd (app m') = socket_fd (app m) /\
  shm_fd (app m') = shm_fd (app m) /\
  image_buffer_size (app m') = image_buffer_size (app m) /\
  closed (trace m') = closed (trace m).

Definition keeps_descriptors {A} (c : M A) : Prop :=
  forall m, same_descriptors m (snd (c m)).

(** The state [CleanupState] leaves behind. *)
Definition released : ApplicationState :=
  set_shm_fd (-1) (set_socket_fd (-1) zero_state).

(** The descriptors [CleanupState] closes in state [s], in order. *)
Definition cleanup_closes (s : ApplicationState) : list Z :=
  (if socket_fd s >=? 0 then [socket_fd s] else [])
  ++ (if shm_fd s >=? 0 then [shm_fd s] else []).

(** The descriptors the process opens, in the order it opens them: the
    socket, and the shared-memory object once the socket is connected. *)
Definition opened (env : Env) : list Z :=
  match getenv_XDG_RUNTIME_DIR env with
  | None => []
  | Some _ =>
      if socket_result env <? 0 then []
      else socket_result env
           :: (if (connect_result env =? 0) && (shm_open_result env >=? 0)
               then [shm_open_result env] else [])
  end.

(** [c], when it returns, has released the application state and closed the
    descriptors that were open when it started. *)
Definition cleans_up (c : M Z) : Prop :=
  forall m st m',
    c m = (Ok st, m') ->
    app m' = released /\
    closed (trace m') = closed (trace m) ++ cleanup_closes (app m).

(** [friendly_env] for a process started with its standard input closed:
    [socket] returns descriptor 0. *)
Definition stdin_closed_env : Env :=
  {| getenv_XDG_RUNTIME_DIR := getenv_XDG_RUNTIME_DIR friendly_env;
     getenv_WAYLAND_DISPLAY := getenv_WAYLAND_DISPLAY friendly_env;
     socket_result := 0;
     connect_result := connect_result friendly_env;
     time_now := time_now friendly_env;
     shm_open_result := shm_open_result friendly_env;
     shm_unlink_result := shm_unlink_result friendly_env;
     ftruncate_result := ftruncate_result friendly_env;
     mmap_succeeds := mmap_succeeds friendly_env;
     sigaction_result := sigaction_result friendly_env;
     send_result := send_result friendly_env;
     sendmsg_result := sendmsg_result friendly_env;
     stack_junk := stack_junk friendly_env |}.

Definition registry_error_line : IOEvent :=
  Printf "Error sending message: %s" [AErrno].
Definition error_event_line (oid code : Z) (text : list byte) : IOEvent :=
  Printf "Error detected on object ID %u, code %u: %s"
    [AInt oid; AInt code; AStr text].

(** An error event of the display: object 7, code 2, the message "bad"
    announced with a length of 400 bytes. *)
Definition display_error_event : ParsedWaylandEvent :=
  {| object_id := 1; opcode := 0; payload_size := 16;
     payload := Some (u32_bytes 7 ++ u32_bytes 2 ++ u32_bytes 400
                      ++ lit "bad" ++ x00 :: []) |}.

(** A ping (serial 9) from the shell base, and one with a payload of the
    wrong size. *)
Definition ping_event : ParsedWaylandEvent :=
  {| object_id := 5; opcode := 0; payload_size := 4;
     payload := Some (u32_bytes 9) |}.
Definition long_ping_event : ParsedWaylandEvent :=
  {| object_id := 5; opcode := 0; payload_size := 8;
     payload := Some (u32_bytes 9 ++ u32_bytes 0) |}.

(** The registry announces [wl_seat] (name 2, version 1). *)
Definition seat_global_event : ParsedWaylandEvent :=
  {| object_id := 2; opcode := 0; payload_size := 20;
     payload := Some (u32_bytes 2 ++ u32_bytes 8 ++ lit "wl_seat"
                      ++ [x00] ++ u32_bytes 1) |}.

(** The process of [attached_machine] with an image of two rows of two
    pixels mapped, and the same before the pool and the frame buffer were
    created. *)
Definition window_machine : Machine :=
  with_app
    (set_image_buffer (ImgAt (repeat x07 16))
       (set_image_buffer_size 16
          (set_stride 8 (set_height 2 (set_width 2 (app attached_machine))))))
    attached_machine.
Definition first_frame_machine : Machine :=
  with_next_id 8
    (with_app
       (set_frame_buffer_id 0 (set_shm_pool_id 0 (app window_machine)))
       window_machine).

Definition created_line : IOEvent := Printf "Created surface." [].

(** The process of [first_frame_machine] after it has acknowledged the
    configure event. *)
Definition acked_machine : Machine :=
  with_app (set_surface_state ACKED_CONFIGURE (app first_frame_machine))
    first_frame_machine.

(** * Properties *)

(** ** Bytes, words and memory *)

Lemma Z_of_byte_of_Z (z : Z) : Z_of_byte (byte_of_Z z) = z mod 256.
Proof.
  unfold Z_of_byte, byte_of_Z.
  assert (Hr : 0 <= z mod 256 < 256) by (apply Z.mod_pos_bound; lia).
  destruct (Byte.of_N (Z.to_N (z mod 256))) as [b|] eqn:E.
  - apply Byte.to_of_N in E. rewrite E. apply Z2N.id. lia.
  - apply Byte.of_N_None_iff in E. lia.
Qed.

Lemma bytes_u32_u32_bytes (v : Z) :
  0 <= v < 4294967296 -> bytes_u32 (u32_bytes v) = v.
Proof.
  intros Hv. unfold bytes_u32, u32_bytes.
  rewrite !Z_of_byte_of_Z, !Z.shiftr_div_pow2 by lia.
  change (2 ^ 8) with 256. change (2 ^ 16) with 65536.
  change (2 ^ 24) with 16777216.
  Z.div_mod_to_equations. lia.
Qed.

Lemma u32_bytes_length (v : Z) : List.length (u32_bytes v) = 4%nat.
Proof. reflexivity. Qed.

Lemma store_length (buf : list byte) (off : Z) (bs buf' : list byte) :
  store buf off bs = Some buf' -> List.length buf' = List.length buf.
Proof.
  unfold store, zlen. intros H.
  destruct ((0 <=? off) && (off + Z.of_nat (List.length bs)
                            <=? Z.of_nat (List.length buf))) eqn:E;
    [|discriminate].
  injection H as <-. apply andb_prop in E as [E1 E2].
  rewrite !length_app, length_firstn, length_skipn. lia.
Qed.

Lemma store_in_range (buf : list byte) (off : Z) (bs : list byte) :
  0 <= off -> off + zlen bs <= zlen buf ->
  store buf off bs
  = Some (firstn (Z.to_nat off) buf ++ bs
          ++ skipn (Z.to_nat off + List.length bs) buf).
Proof.
  intros H0 H1. unfold store.
  replace ((0 <=? off) && (off + zlen bs <=? zlen buf)) with true;
    [reflexivity|].
  symmetry. apply andb_true_intro. split; lia.
Qed.

(** Reading back what was just written. *)
Lemma load_store_same (buf : list byte) (off : Z) (bs buf' : list byte) :
  store buf off bs = Some buf' ->
  load buf' off (List.length bs) = Some bs.
Proof.
  intros H. pose proof (store_length _ _ _ _ H) as HL.
  unfold store, zlen in H. unfold load, zlen. rewrite HL.
  destruct ((0 <=? off) && (off + Z.of_nat (List.length bs)
                            <=? Z.of_nat (List.length buf))) eqn:E;
    [|discriminate].
  injection H as <-. f_equal. apply andb_prop in E as [E1 E2].
  apply Z.leb_le in E1, E2. clear HL.
  rewrite skipn_app.
  rewrite skipn_all2 by (rewrite length_firstn; lia).
  rewrite length_firstn.
  replace (Z.to_nat off - Nat.min (Z.to_nat off) (List.length buf))%nat
    with 0%nat by lia.
  cbn [skipn]. rewrite app_nil_l, firstn_app, firstn_all, Nat.sub_diag.
  cbn [firstn]. apply app_nil_r.
Qed.

(** A write does not disturb what lies before it. *)
Lemma load_store_before (buf : list byte) (off : Z) (bs buf' : list byte)
    (off0 : Z) (n : nat) :
  store buf off bs = Some buf' ->
  0 <= off0 -> off0 + Z.of_nat n <= off ->
  load buf' off0 n = load buf off0 n.
Proof.
  intros H H0 H1. pose proof (store_length _ _ _ _ H) as HL.
  unfold store, zlen in H. unfold load, zlen. rewrite HL.
  destruct ((0 <=? off) && (off + Z.of_nat (List.length bs)
                            <=? Z.of_nat (List.length buf))) eqn:E;
    [|discriminate].
  injection H as <-. apply andb_prop in E as [E1 E2].
  apply Z.leb_le in E1, E2.
  destruct ((0 <=? off0) && (off0 + Z.of_nat n
                             <=? Z.of_nat (List.length buf))) eqn:E';
    [|reflexivity].
  f_equal.
  rewrite <- (firstn_skipn (Z.to_nat off) buf) at 3.
  rewrite !skipn_app, !firstn_app.
  rewrite !length_skipn, !length_firstn.
  replace (n - (Nat.min (Z.to_nat off) (List.length buf) - Z.to_nat off0))%nat
    with 0%nat by (clear HL E'; lia).
  cbn [firstn]. reflexivity.
Qed.

(** The bytes seen through a pointer to the place of a write. *)
Lemma firstn_ptr_add_store (buf : list byte) (off : Z) (bs buf' : list byte) :
  store buf off bs = Some buf' ->
  firstn (List.length bs) (ptr_add buf' off) = bs.
Proof.
  intros H. apply load_store_same in H. unfold load in H.
  destruct ((0 <=? off) && (off + Z.of_nat (List.length bs) <=? zlen buf'));
    [|discriminate].
  now injection H.
Qed.

Lemma u32_range (z : Z) : 0 <= u32 z < 4294967296.
Proof. unfold u32. apply Z.mod_pos_bound. lia. Qed.

Lemma u32_id (z : Z) : 0 <= z < 4294967296 -> u32 z = z.
Proof. intros H. unfold u32. now apply Z.mod_small. Qed.

Lemma u64_id (z : Z) : 0 <= z < 18446744073709551616 -> u64 z = z.
Proof. intros H. unfold u64. now apply Z.mod_small. Qed.

Lemma u16_id (z : Z) : 0 <= z < 65536 -> u16 z = z.
Proof. intros H. unfold u16. now apply Z.mod_small. Qed.

Lemma RoundUp4_loop_range (fuel : nat) (v : Z) :
  0 <= v < 4294967296 -> 0 <= RoundUp4_loop fuel v < 4294967296.
Proof.
  revert v. induction fuel as [|fuel IH]; intros v Hv; cbn [RoundUp4_loop].
  - exact Hv.
  - destruct (Z.land v 3 =? 0); [exact Hv|]. apply IH, u32_range.
Qed.

Lemma RoundUp4_range (v : Z) : 0 <= RoundUp4 v < 4294967296.
Proof. apply RoundUp4_loop_range, u32_range. Qed.

(** ** The wire codec *)

(** The size word: opcode in the low half, total size in the high half. *)
Lemma header_word_opcode (a b : Z) :
  0 <= a -> 0 <= b < 65536 -> Z.land (Z.lor (Z.shiftl a 16) b) 65535 = b.
Proof.
  intros Ha Hb. change 65535 with (Z.ones 16).
  rewrite Z.land_ones by lia. rewrite <- Z.land_ones by lia.
  rewrite Z.land_lor_distr_l, !Z.land_ones by lia.
  rewrite Z.shiftl_mul_pow2 by lia. rewrite Z.mod_mul by lia.
  rewrite Z.lor_0_l. apply Z.mod_small. change (2 ^ 16) with 65536. lia.
Qed.

Lemma header_word_size (a b : Z) :
  0 <= a -> 0 <= b < 65536 -> Z.shiftr (Z.lor (Z.shiftl a 16) b) 16 = a.
Proof.
  intros Ha Hb. rewrite Z.shiftr_lor, Z.shiftr_shiftl_l by lia.
  rewrite Z.sub_diag, Z.shiftl_0_r.
  rewrite (Z.shiftr_div_pow2 b) by lia. rewrite Z.div_small.
  - apply Z.lor_0_r.
  - change (2 ^ 16) with 65536. lia.
Qed.

Lemma header_word_range (a b : Z) :
  0 <= a < 65536 -> 0 <= b < 65536 ->
  0 <= Z.lor (Z.shiftl a 16) b < 4294967296.
Proof.
  intros Ha Hb. split.
  - apply Z.lor_nonneg. split; [apply Z.shiftl_nonneg|]; lia.
  - pose proof (header_word_size a b ltac:(lia) Hb) as Hs.
    rewrite Z.shiftr_div_pow2 in Hs by lia. change (2 ^ 16) with 65536 in Hs.
    assert (0 <= Z.lor (Z.shiftl a 16) b).
    { apply Z.lor_nonneg. split; [apply Z.shiftl_nonneg|]; lia. }
    Z.div_mod_to_equations. lia.
Qed.

Lemma store_ok (buf : list byte) (off : Z) (bs : list byte) :
  0 <= off -> off + zlen bs <= zlen buf -> exists buf', store buf off bs = Some buf'.
Proof. intros H0 H1. rewrite store_in_range by assumption. eauto. Qed.

Lemma ReadUint32_stored (buf : list byte) (off v : Z) (buf' : list byte) :
  store buf off (u32_bytes (u32 v)) = Some buf' ->
  ReadUint32 buf' off = Some (u32 v, u64 (off + 4)).
Proof.
  intros H. unfold ReadUint32.
  change 4%nat with (List.length (u32_bytes (u32 v))).
  rewrite (load_store_same _ _ _ _ H).
  now rewrite bytes_u32_u32_bytes by apply u32_range.
Qed.

Lemma ReadUint32_store_after (buf : list byte) (off : Z) (bs buf' : list byte)
    (off0 : Z) :
  store buf off bs = Some buf' -> 0 <= off0 -> off0 + 4 <= off ->
  ReadUint32 buf' off0 = ReadUint32 buf off0.
Proof.
  intros H H0 H1. unfold ReadUint32.
  now rewrite (load_store_before _ _ _ _ off0 4 H) by lia.
Qed.

(** C5. Round trip of the message codec: for every well-formed message
    with a payload shorter than 2^16 - 8 bytes and every destination buffer
    with room for header and payload, [WriteWaylandMessage] at offset 0
    succeeds, and [ReadWaylandEvent] at offset 0 of the buffer it produced
    returns (without printing or exiting) a message with the same object
    identifier, opcode, payload size and payload bytes, and stops at the
    offset where the writer stopped. *)
Theorem message_round_trip (src : ParsedWaylandEvent) (buffer : list byte)
    (m : Machine) :
  well_formed_message src ->
  payload_size src < 65536 - 8 ->
  8 + payload_size src <= zlen buffer ->
  exists buffer' off dst,
    WriteWaylandMessage buffer 0 src = Some (buffer', off) /\
    ReadWaylandEvent buffer' 0 m = (Ok (dst, off), m) /\
    object_id dst = object_id src /\
    opcode dst = opcode src /\
    payload_size dst = payload_size src /\
    payload_bytes dst = payload_bytes src.
Proof.
  destruct src as [oid op ps p]. unfold well_formed_message, payload_bytes.
  cbn [object_id opcode payload_size payload].
  intros (Hoid & Hop & Hps & Hp) Hlt Hcap.
  set (word := Z.lor (u32 (Z.shiftl (ps + 8) 16)) op).
  assert (Hw : word = Z.lor (Z.shiftl (ps + 8) 16) op).
  { unfold word. rewrite u32_id; [reflexivity|].
    rewrite Z.shiftl_mul_pow2 by lia. change (2 ^ 16) with 65536. lia. }
  assert (Hwr : 0 <= word < 4294967296)
    by (rewrite Hw; apply header_word_range; lia).
  destruct (store_ok buffer 0 (u32_bytes (u32 oid))) as [b1 S1];
    [lia | unfold zlen at 1; rewrite u32_bytes_length; lia |].
  pose proof (store_length _ _ _ _ S1) as L1.
  destruct (store_ok b1 4 (u32_bytes (u32 word))) as [b2 S2];
    [lia | unfold zlen in *; rewrite u32_bytes_length, L1; lia |].
  pose proof (store_length _ _ _ _ S2) as L2.
  assert (R1 : forall b, ReadUint32 b 0 = ReadUint32 b2 0 ->
                         ReadUint32 b 0 = Some (oid, 4)).
  { intros b ->. rewrite (ReadUint32_store_after _ _ _ _ 0 S2) by lia.
    rewrite (ReadUint32_stored _ _ _ _ S1). now rewrite u32_id. }
  assert (R2 : ReadUint32 b2 4 = Some (word, 8)).
  { rewrite (ReadUint32_stored _ _ _ _ S2). now rewrite u32_id. }
  assert (Hop' : Z.land word 65535 = op)
    by (rewrite Hw; apply header_word_opcode; lia).
  assert (Hsz : Z.shiftr word 16 = ps + 8)
    by (rewrite Hw; apply header_word_size; lia).
  unfold WriteWaylandMessage, AppendUint32.
  cbn [object_id opcode payload_size payload]. fold word.
  rewrite S1. change (u64 (0 + 4)) with 4. rewrite S2.
  change (u64 (4 + 4)) with 8.
  destruct (ps >? 0) eqn:Epos.
  - apply Z.gtb_lt in Epos.
    destruct p as [view|]; [|lia].
    assert (Hload : load view 0 (Z.to_nat ps)
                    = Some (firstn (Z.to_nat ps) view)).
    { unfold load. cbn [skipn Z.to_nat].
      replace ((0 <=? 0) && (0 + Z.of_nat (Z.to_nat ps) <=? zlen view))
        with true; [reflexivity|].
      symmetry. apply andb_true_intro. split; apply Z.leb_le; lia. }
    rewrite Hload.
    assert (Hlen : List.length (firstn (Z.to_nat ps) view) = Z.to_nat ps).
    { rewrite length_firstn. unfold zlen in Hp. lia. }
    destruct (store_ok b2 8 (firstn (Z.to_nat ps) view)) as [b3 S3];
      [lia | unfold zlen in *; rewrite Hlen, L2, L1; lia |].
    rewrite S3.
    eexists b3, _, _. split; [reflexivity|].
    unfold ReadWaylandEvent, bind, mem, ret.
    rewrite (R1 b3)
      by (apply (ReadUint32_store_after _ _ _ _ 0 S3); lia).
    rewrite (ReadUint32_store_after _ _ _ _ 4 S3) by lia.
    rewrite R2, Hop', Hsz.
    replace (ps + 8 <? 8) with false by (symmetry; apply Z.ltb_ge; lia).
    replace (ps + 8 - 8) with ps by lia.
    rewrite u16_id by lia.
    replace (ps =? 0) with false by (symmetry; apply Z.eqb_neq; lia).
    split; [reflexivity|].
    cbn [object_id opcode payload_size payload].
    repeat split.
    rewrite <- Hlen at 1. apply (firstn_ptr_add_store _ _ _ _ S3).
  - rewrite Z.gtb_ltb in Epos. apply Z.ltb_ge in Epos.
    assert (ps = 0) by lia. subst ps.
    eexists b2, _, _. split; [reflexivity|].
    unfold ReadWaylandEvent, bind, mem, ret.
    rewrite (R1 b2) by reflexivity.
    rewrite R2, Hop', Hsz.
    change (0 + 8 <? 8) with false. cbv beta iota.
    change (u16 (0 + 8 - 8)) with 0. change (0 =? 0) with true.
    cbv beta iota. change (u64 (8 + RoundUp4 0)) with 8.
    split; [reflexivity|]. cbn [object_id opcode payload_size payload].
    repeat split. now destruct p.
Qed.

Lemma message_round_trip_witness :
  exists buffer' off dst,
    WriteWaylandMessage (repeat x00 16) 0 sample_message
    = Some (buffer', off) /\
    ReadWaylandEvent buffer' 0 boot = (Ok (dst, off), boot) /\
    object_id dst = object_id sample_message /\
    opcode dst = opcode sample_message /\
    payload_size dst = payload_size sample_message /\
    payload_bytes dst = payload_bytes sample_message.
Proof.
  apply (message_round_trip sample_message (repeat x00 16) boot).
  - unfold well_formed_message; cbn; lia.
  - cbn; lia.
  - cbn; lia.
Defined.

(** Two writes next to each other are one write of the concatenation. *)
Lemma store_store_adjacent (buf : list byte) (off : Z) (a b buf1 : list byte) :
  store buf off a = Some buf1 ->
  store buf1 (off + zlen a) b = store buf off (a ++ b).
Proof.
  intros H. pose proof (store_length _ _ _ _ H) as HL.
  unfold store in *. unfold zlen in *. rewrite HL, length_app.
  destruct ((0 <=? off) && (off + Z.of_nat (List.length a)
                            <=? Z.of_nat (List.length buf))) eqn:E;
    [|discriminate].
  apply andb_prop in E as [E1 E2]. apply Z.leb_le in E1, E2.
  injection H as <-. clear HL.
  replace (0 <=? off + Z.of_nat (List.length a)) with true
    by (symmetry; apply Z.leb_le; lia).
  replace (0 <=? off) with true by (symmetry; apply Z.leb_le; lia).
  cbn [andb].
  replace (off + Z.of_nat (List.length a + List.length b))
    with (off + Z.of_nat (List.length a) + Z.of_nat (List.length b)) by lia.
  destruct (off + Z.of_nat (List.length a) + Z.of_nat (List.length b)
            <=? Z.of_nat (List.length buf)) eqn:E3; [|reflexivity].
  apply Z.leb_le in E3. f_equal.
  replace (Z.to_nat (off + Z.of_nat (List.length a)))
    with (Z.to_nat off + List.length a)%nat by lia.
  assert (Hf : List.length (firstn (Z.to_nat off) buf) = Z.to_nat off)
    by (rewrite length_firstn; lia).
  set (X := skipn (Z.to_nat off + List.length a) buf).
  assert (F : firstn (Z.to_nat off + List.length a)
                (firstn (Z.to_nat off) buf ++ a ++ X)
              = firstn (Z.to_nat off) buf ++ a).
  { rewrite firstn_app, Hf. rewrite firstn_all2 by (rewrite Hf; lia).
    replace (Z.to_nat off + List.length a - Z.to_nat off)%nat
      with (List.length a) by lia.
    rewrite firstn_app, firstn_all, Nat.sub_diag. cbn [firstn].
    now rewrite app_nil_r. }
  assert (S : skipn (Z.to_nat off + List.length a + List.length b)
                (firstn (Z.to_nat off) buf ++ a ++ X)
              = skipn (Z.to_nat off + (List.length a + List.length b)) buf).
  { rewrite skipn_app, Hf. rewrite skipn_all2 by (rewrite Hf; lia).
    rewrite app_nil_l.
    replace (Z.to_nat off + List.length a + List.length b - Z.to_nat off)%nat
      with (List.length a + List.length b)%nat by lia.
    rewrite skipn_app. rewrite skipn_all2 by lia. rewrite app_nil_l.
    replace (List.length a + List.length b - List.length a)%nat
      with (List.length b) by lia.
    unfold X. rewrite skipn_skipn. f_equal. lia. }
  rewrite F, S. now rewrite <- !app_assoc.
Qed.

Lemma empty_store (buf : list byte) (off : Z) :
  0 <= off <= zlen buf -> store buf off [] = Some buf.
Proof.
  intros H. rewrite store_in_range by (cbn; lia). f_equal.
  cbn [app List.length]. rewrite Nat.add_0_r. apply firstn_skipn.
Qed.

(** C3 (amended). Encoding the empty string takes eight bytes, not four:
    for every buffer with eight bytes of room at the offset,
    [AppendWaylandString] returns 1, moves the offset forward by 8, and the
    buffer it leaves is the old one with the length field 1 (the string
    length plus the terminator) followed by four zero bytes (the terminator
    and three bytes of padding) written at the offset. *)
Theorem empty_string_encoding (buffer : list byte) (off cap : Z)
    (rest : list byte) (m : Machine) :
  0 <= off -> off + 8 <= zlen buffer ->
  off + 8 <= cap < 18446744073709551616 ->
  exists buffer',
    AppendWaylandString buffer off cap (x00 :: rest) m
    = (Ok (1, buffer', off + 8), m) /\
    store buffer off [x01; x00; x00; x00; x00; x00; x00; x00] = Some buffer'.
Proof.
  intros H0 Hb Hc.
  destruct (store_ok buffer off (u32_bytes (u32 (0 + 1)))) as [b1 S1];
    [lia | cbn; lia |].
  pose proof (store_length _ _ _ _ S1) as L1.
  destruct (store_ok b1 (off + 4) (repeat x00 4)) as [b3 S3];
    [lia | unfold zlen in *; cbn [repeat List.length]; lia |].
  exists b3. split.
  - unfold AppendWaylandString, bind, mem, ret, strlen. cbn [cstr Byte.eqb].
    change (Byte.eqb x00 x00) with true. cbv beta iota.
    change (zlen []) with 0.
    change (RoundUp4 (0 + 1)) with 4.
    change (u64 (4 - 0)) with 4. change (u64 (4 + 4)) with 8.
    rewrite (u64_id (cap - off)) by lia.
    replace (8 >? cap - off) with false
      by (symmetry; rewrite Z.gtb_ltb; apply Z.ltb_ge; lia).
    unfold AppendUint32. rewrite S1. rewrite (u64_id (off + 4)) by lia.
    change (Z.to_nat 0) with 0%nat. change (Z.to_nat 4) with 4%nat.
    cbn [firstn].
    rewrite empty_store by (unfold zlen in *; lia).
    rewrite Z.add_0_r, (u64_id (off + 4)) by lia.
    rewrite S3.
    rewrite u64_id by lia.
    replace (off + 4 + 4) with (off + 8) by lia. reflexivity.
  - rewrite <- S3.
    change (off + 4) with (off + zlen (u32_bytes (u32 (0 + 1)))).
    rewrite (store_store_adjacent _ _ _ _ _ S1). reflexivity.
Qed.

Lemma empty_string_encoding_witness :
  exists buffer',
    AppendWaylandString (repeat x01 16) 0 16 [x00] boot
    = (Ok (1, buffer', 0 + 8), boot) /\
    store (repeat x01 16) 0 [x01; x00; x00; x00; x00; x00; x00; x00]
    = Some buffer'.
Proof.
  apply (empty_string_encoding (repeat x01 16) 0 16 [] boot).
  - lia.
  - unfold zlen. cbn [repeat List.length]. lia.
  - lia.
Defined.

(** C3 as stated fails: the empty string (a terminator and nothing before
    it) is encoded in eight bytes with the length field 1. *)
Lemma empty_string_is_not_four_bytes :
  exists buffer' off',
    AppendWaylandString (repeat x01 16) 0 16 [x00] boot
    = (Ok (1, buffer', off'), boot) /\
    off' <> 4 /\
    load buffer' 0 4 <> Some (u32_bytes 0).
Proof.
  eexists _, _. split; [vm_compute; reflexivity|].
  split; [discriminate|]. vm_compute. discriminate.
Qed.

(** ** The identifier allocator *)

Lemma NextWaylandID_ok (m : Machine) :
  0 <= next_id m < MAX_CLIENT_ID ->
  NextWaylandID m = (Ok (next_id m + 1), with_next_id (next_id m + 1) m).
Proof.
  intros H. unfold NextWaylandID, MAX_CLIENT_ID in *.
  rewrite u32_id by lia.
  replace (next_id m + 1 >? 4278190079) with false; [reflexivity|].
  symmetry. rewrite Z.gtb_ltb. apply Z.ltb_ge. lia.
Qed.

Lemma NextWaylandID_exhausted (m : Machine) :
  next_id m = MAX_CLIENT_ID ->
  NextWaylandID m
  = (Exit 1,
     emit (Printf "Error: Allocated too many client-side wayland IDs." [])
          (with_next_id (MAX_CLIENT_ID + 1) m)).
Proof.
  intros H. unfold NextWaylandID. rewrite H. reflexivity.
Qed.

Lemma NextWaylandID_after_succ (n : N) (m : Machine) :
  NextWaylandID_after (N.succ n) m
  = (_ <- NextWaylandID ;; NextWaylandID_after n) m.
Proof. unfold NextWaylandID_after. now rewrite N.iter_succ. Qed.

Lemma NextWaylandID_after_ok (n : N) :
  forall m, 0 <= next_id m -> next_id m + Z.of_N n + 1 <= MAX_CLIENT_ID ->
  NextWaylandID_after n m
  = (Ok (next_id m + Z.of_N n + 1),
     with_next_id (next_id m + Z.of_N n + 1) m).
Proof.
  induction n as [|n IH] using N.peano_ind; intros m H0 H1.
  - unfold NextWaylandID_after. cbn [N.iter].
    rewrite NextWaylandID_ok by (cbn in H1; lia).
    now rewrite N2Z.inj_0, Z.add_0_r.
  - rewrite NextWaylandID_after_succ. unfold bind.
    rewrite NextWaylandID_ok by lia.
    rewrite IH by (cbn [next_id with_next_id]; lia).
    cbn [next_id with_next_id]. rewrite N2Z.inj_succ.
    replace (next_id m + 1 + Z.of_N n + 1)
      with (next_id m + Z.succ (Z.of_N n) + 1) by lia.
    reflexivity.
Qed.

Lemma NextWaylandID_after_exit (n : N) :
  forall m, 0 <= next_id m <= MAX_CLIENT_ID ->
  MAX_CLIENT_ID < next_id m + Z.of_N n + 1 ->
  fst (NextWaylandID_after n m) = Exit 1.
Proof.
  induction n as [|n IH] using N.peano_ind; intros m H0 H1.
  - unfold NextWaylandID_after. cbn [N.iter].
    rewrite NextWaylandID_exhausted by (cbn in H1; lia). reflexivity.
  - rewrite NextWaylandID_after_succ. unfold bind.
    destruct (Z.eq_dec (next_id m) MAX_CLIENT_ID) as [E|E].
    + rewrite NextWaylandID_exhausted by exact E. reflexivity.
    + rewrite NextWaylandID_ok by lia. apply IH.
      * cbn [next_id with_next_id]. lia.
      * cbn [next_id with_next_id]. rewrite N2Z.inj_succ in H1. lia.
Qed.

(** C4 (amended). Calls of the allocator in sequence, from the start of the
    process: call number n+1 returns n+2 as long as n+2 is at most
    0xfeffffff, so the values start at 2, grow by one with each call and
    never exceed 0xfeffffff (which itself is returned); from the call
    after that one on, the process exits with status 1 instead of wrapping
    around. *)
Theorem allocator_sequence (n : N) :
  fst (NextWaylandID_after n boot)
  = if Z.of_N n + 2 <=? MAX_CLIENT_ID then Ok (Z.of_N n + 2) else Exit 1.
Proof.
  destruct (Z.of_N n + 2 <=? MAX_CLIENT_ID) eqn:E.
  - apply Z.leb_le in E. rewrite NextWaylandID_after_ok.
    + cbn [fst next_id boot]. f_equal. lia.
    + cbn [next_id boot]. lia.
    + cbn [next_id boot]. lia.
  - apply Z.leb_gt in E. apply NextWaylandID_after_exit.
    + cbn [next_id boot]. unfold MAX_CLIENT_ID. lia.
    + cbn [next_id boot]. lia.
Qed.

(** C4 as stated fails: call number 4278190078 returns 0xfeffffff. *)
Lemma allocator_returns_ceiling :
  exists id,
    fst (NextWaylandID_after 4278190077 boot) = Ok id /\ id >= 4278190079.
Proof.
  exists 4278190079. split; [|lia].
  rewrite (NextWaylandID_after_ok 4278190077 boot).
  - reflexivity.
  - cbn [next_id boot]. lia.
  - cbn [next_id boot]. unfold MAX_CLIENT_ID. lia.
Qed.

(** ** What the calls do to the application state *)

Section Respects.

Variable R : ApplicationState -> ApplicationState -> Prop.
Hypothesis R_refl : forall s, R s s.
Hypothesis R_trans : forall a b c, R a b -> R b c -> R a c.

Lemma respects_unchanged {A} (c : M A) :
  (forall m, app (snd (c m)) = app m) -> respects R c.
Proof. intros H m. rewrite H. apply R_refl. Qed.

Lemma respects_ret {A} (a : A) : respects R (ret a).
Proof. now apply respects_unchanged. Qed.

Lemma respects_exit {A} (z : Z) : respects R (@exit A z).
Proof. now apply respects_unchanged. Qed.

Lemma respects_fault {A} : respects R (@fault A).
Proof. now apply respects_unchanged. Qed.

Lemma respects_get_app : respects R get_app.
Proof. now apply respects_unchanged. Qed.

Lemma respects_io (ev : IOEvent) : respects R (io ev).
Proof. now apply respects_unchanged. Qed.

Lemma respects_printf (fmt : string) (args : list arg) :
  respects R (printf fmt args).
Proof. apply respects_io. Qed.

Lemma respects_mem {A} (o : option A) : respects R (mem o).
Proof. destruct o; [apply respects_ret | apply respects_fault]. Qed.

Lemma respects_modify (f : ApplicationState -> ApplicationState) :
  (forall s, R s (f s)) -> respects R (modify_app f).
Proof. intros H m. apply H. Qed.

Lemma respects_bind {A B} (c : M A) (k : A -> M B) :
  respects R c -> (forall a, respects R (k a)) -> respects R (bind c k).
Proof.
  intros Hc Hk m. unfold bind. specialize (Hc m).
  destruct (c m) as [[a| | | |] m1]; cbn [snd] in *; try exact Hc.
  eapply R_trans; [exact Hc | apply Hk].
Qed.

Lemma respects_NextWaylandID : respects R NextWaylandID.
Proof.
  apply respects_unchanged. intros m. unfold NextWaylandID.
  now destruct (u32 (next_id m + 1) >? MAX_CLIENT_ID).
Qed.

Lemma respects_SignalHandler (n : Z) : respects R (SignalHandler n).
Proof. now apply respects_unchanged. Qed.

End Respects.

(** One step in the proof that a piece of the program respects a relation:
    take the program apart along its binds and branches. *)
Ltac respects_step :=
  lazymatch goal with
  | |- respects _ (bind _ _) =>
      apply respects_bind; [assumption | | intros ? ]
  | |- respects _ (ret _) => apply respects_ret; assumption
  | |- respects _ (exit _) => apply respects_exit; assumption
  | |- respects _ fault => apply respects_fault; assumption
  | |- respects _ get_app => apply respects_get_app; assumption
  | |- respects _ (io _) => apply respects_io; assumption
  | |- respects _ (printf _ _) => apply respects_printf; assumption
  | |- respects _ (mem _) => apply respects_mem; assumption
  | |- respects _ (deref _) => apply respects_mem; assumption
  | |- respects _ NextWaylandID => apply respects_NextWaylandID; assumption
  | |- respects _ (SignalHandler _) =>
      apply respects_SignalHandler; assumption
  | |- respects _ (if ?c then _ else _) => destruct c
  | |- respects _ (match ?x with _ => _ end) => destruct x
  | |- respects _ (let x := _ in _) => cbv zeta
  end.

Lemma same_tracked_refl (s : ApplicationState) : same_tracked s s.
Proof. now split. Qed.

Lemma same_tracked_trans (a b c : ApplicationState) :
  same_tracked a b -> same_tracked b c -> same_tracked a c.
Proof. intros [H1 H2] [H3 H4]. split; congruence. Qed.

Ltac frame_leaf :=
  first
    [ assumption
    | apply respects_unchanged;
      [exact same_tracked_refl | intros ?; reflexivity]
    | apply respects_modify; intros ?; split; reflexivity ].

Ltac frame_auto :=
  pose proof same_tracked_refl as Hrefl_;
  pose proof same_tracked_trans as Htrans_;
  repeat first [ respects_step | solve [eauto with frame] | frame_leaf ].

Create HintDb frame discriminated.

Section Frames.

Variable env : Env.

Lemma frame_AppendWaylandString (buffer : list byte) (off cap : Z)
    (str : list byte) : frame (AppendWaylandString buffer off cap str).
Proof. unfold AppendWaylandString. frame_auto. Qed.
#[local] Hint Resolve frame_AppendWaylandString : frame.

Lemma frame_ReadWaylandEvent (buffer : list byte) (off : Z) :
  frame (ReadWaylandEvent buffer off).
Proof. unfold ReadWaylandEvent. frame_auto. Qed.
#[local] Hint Resolve frame_ReadWaylandEvent : frame.

Lemma frame_send (fd : Z) (buffer : list byte) (n flags : Z) :
  frame (send env fd buffer n flags).
Proof. unfold send. frame_auto. Qed.
#[local] Hint Resolve frame_send : frame.

Lemma frame_write_and_send (cap : nat) (msg : ParsedWaylandEvent) (flags : Z) :
  frame (write_and_send env cap msg flags).
Proof. unfold write_and_send. frame_auto. Qed.
#[local] Hint Resolve frame_write_and_send : frame.

Lemma frame_read_u32_at (p : ptr) (off : Z) : frame (read_u32_at p off).
Proof. unfold read_u32_at. frame_auto. Qed.
#[local] Hint Resolve frame_read_u32_at : frame.

Lemma frame_recv (buffer : list byte) (got : RecvOutcome) :
  frame (recv buffer got).
Proof. unfold recv. frame_auto. Qed.
#[local] Hint Resolve frame_recv : frame.

Lemma frame_WaylandRegistryBind (name : Z) (interface : list byte)
    (version : Z) : frame (WaylandRegistryBind env name interface version).
Proof. unfold WaylandRegistryBind. frame_auto. Qed.
#[local] Hint Resolve frame_WaylandRegistryBind : frame.

Lemma frame_bind_if_named (label : string)
    (set : Z -> ApplicationState -> ApplicationState) (error_line : string)
    (name : Z) (interface_name text : list byte) (version : Z) :
  (forall v s, same_tracked s (set v s)) ->
  frame (bind_if_named env label set error_line name interface_name text
           version).
Proof.
  intros Hset. unfold bind_if_named. frame_auto.
  apply respects_modify. intros s. apply Hset.
Qed.

Lemma frame_PrintErrorEventInfo (e : ParsedWaylandEvent) :
  frame (PrintErrorEventInfo e).
Proof. unfold PrintErrorEventInfo. frame_auto. Qed.
#[local] Hint Resolve frame_PrintErrorEventInfo : frame.

Lemma frame_CreateWLSurface : frame (CreateWLSurface env).
Proof. unfold CreateWLSurface. frame_auto. Qed.
#[local] Hint Resolve frame_CreateWLSurface : frame.

Lemma frame_CreateXDGSurface : frame (CreateXDGSurface env).
Proof. unfold CreateXDGSurface. frame_auto. Qed.
#[local] Hint Resolve frame_CreateXDGSurface : frame.

Lemma frame_GetXDGTopLevel : frame (GetXDGTopLevel env).
Proof. unfold GetXDGTopLevel. frame_auto. Qed.
#[local] Hint Resolve frame_GetXDGTopLevel : frame.

Lemma frame_CreateSurface : frame (CreateSurface env).
Proof. unfold CreateSurface. frame_auto. Qed.

Lemma frame_SendMsgWithShmDescriptor (buffer : list byte) (size : Z) :
  frame (SendMsgWithShmDescriptor env buffer size).
Proof. unfold SendMsgWithShmDescriptor. frame_auto. Qed.
#[local] Hint Resolve frame_SendMsgWithShmDescriptor : frame.

Lemma frame_CreateShmPool : frame (CreateShmPool env).
Proof. unfold CreateShmPool. frame_auto. Qed.

Lemma frame_CreateFrameBuffer : frame (CreateFrameBuffer env).
Proof. unfold CreateFrameBuffer. frame_auto. Qed.

Lemma frame_AttachBuffer : frame (AttachBuffer env).
Proof. unfold AttachBuffer. frame_auto. Qed.

Lemma frame_CommitSurface : frame (CommitSurface env).
Proof. unfold CommitSurface. frame_auto. Qed.

Lemma frame_SendXDGPong (serial : Z) : frame (SendXDGPong env serial).
Proof. unfold SendXDGPong. frame_auto. Qed.

Lemma frame_AckXDGSurfaceConfigure (serial : Z) :
  frame (AckXDGSurfaceConfigure env serial).
Proof. unfold AckXDGSurfaceConfigure. frame_auto. Qed.

End Frames.

#[export] Hint Resolve frame_AppendWaylandString frame_ReadWaylandEvent
  frame_send frame_write_and_send frame_read_u32_at frame_recv
  frame_WaylandRegistryBind frame_PrintErrorEventInfo frame_CreateWLSurface
  frame_CreateXDGSurface frame_GetXDGTopLevel frame_CreateSurface
  frame_SendMsgWithShmDescriptor frame_CreateShmPool frame_CreateFrameBuffer
  frame_AttachBuffer frame_CommitSurface frame_SendXDGPong
  frame_AckXDGSurfaceConfigure : frame.

Section Tracked.

Variable env : Env.
Variable R : ApplicationState -> ApplicationState -> Prop.
Hypothesis R_frame : forall s s', same_tracked s s' -> R s s'.
Hypothesis R_trans : forall a b c, R a b -> R b c -> R a c.

Lemma R_refl_of_frame (s : ApplicationState) : R s s.
Proof. apply R_frame, same_tracked_refl. Qed.

Lemma frame_respects {A} (c : M A) : frame c -> respects R c.
Proof. intros H m. apply R_frame, H. Qed.

Hypothesis R_acked : forall s, R s (set_surface_state ACKED_CONFIGURE s).
Hypothesis R_attached : forall s, R s (set_surface_state SURFACE_ATTACHED s).
Hypothesis R_done : forall s, R s (set_binding_done 1 s).

Ltac tracked_auto :=
  pose proof R_refl_of_frame as Hrefl_;
  pose proof R_trans as Htrans_;
  repeat first
    [ assumption
    | respects_step
    | solve [apply frame_respects; auto 1 with frame nocore] ].

Lemma respects_HandleWaylandEvent (e : ParsedWaylandEvent) :
  respects R (HandleWaylandEvent env e).
Proof.
  unfold HandleWaylandEvent. tracked_auto.
  1-3: apply frame_respects, frame_bind_if_named; intros v s; now split.
  apply respects_modify, R_acked.
Qed.

Lemma respects_ProcessWaylandEvents_loop (fuel : nat) (buffer : list byte)
    (size : Z) :
  forall off, respects R (ProcessWaylandEvents_loop env fuel buffer size off).
Proof.
  induction fuel as [|fuel IH]; intros off; cbn [ProcessWaylandEvents_loop].
  - tracked_auto. now apply respects_unchanged.
  - pose proof respects_HandleWaylandEvent. tracked_auto; auto.
Qed.

Lemma respects_ProcessWaylandEvents (buffer : list byte) (size : Z) :
  respects R (ProcessWaylandEvents env buffer size).
Proof.
  unfold ProcessWaylandEvents. apply respects_ProcessWaylandEvents_loop.
Qed.

Lemma respects_RenderFrame : respects R (RenderFrame env).
Proof.
  unfold RenderFrame. tracked_auto.
  - apply respects_modify. intros s. apply R_frame. now split.
  - apply respects_modify, R_attached.
Qed.

Lemma respects_BindingDone : respects R BindingDone.
Proof.
  unfold BindingDone. tracked_auto. apply respects_modify, R_done.
Qed.

Lemma respects_EventLoop_loop (script : list LoopInput) :
  forall buffer, respects R (EventLoop_loop env script buffer).
Proof.
  induction script as [|turn rest IH]; intros buffer; cbn [EventLoop_loop].
  - apply respects_unchanged; [exact R_refl_of_frame|].
    intros m. now destruct (should_exit m =? 0).
  - pose proof respects_ProcessWaylandEvents.
    pose proof respects_BindingDone. pose proof respects_RenderFrame.
    tracked_auto; auto.
    all: now apply respects_unchanged; [exact R_refl_of_frame|].
Qed.

Lemma respects_run_op_other (op : Op) :
  is_BindingDone op = false -> respects R (run_op env op).
Proof.
  destruct op; cbn [is_BindingDone run_op]; intros H;
    try discriminate;
    auto using respects_HandleWaylandEvent, respects_ProcessWaylandEvents,
      respects_RenderFrame;
    apply frame_respects; auto with frame.
Qed.

Lemma respects_run_op (op : Op) : respects R (run_op env op).
Proof.
  destruct (is_BindingDone op) eqn:E.
  - destruct op; try discriminate. apply respects_BindingDone.
  - now apply respects_run_op_other.
Qed.

Lemma respects_run_ops (ops : list Op) : respects R (run_ops env ops).
Proof.
  induction ops as [|op ops IH]; cbn [run_ops].
  - apply respects_ret, R_refl_of_frame.
  - pose proof respects_run_op. pose proof R_refl_of_frame.
    repeat first [respects_step | solve [auto]].
Qed.

End Tracked.

(** ** Binding completion *)

Lemma BindingDone_spec (m : Machine) :
  BindingDone m
  = if negb (binding_done (app m) =? 0) then (Ok 1, m)
    else if roles_bound (app m)
         then (Ok 1, with_app (set_binding_done 1 (app m)) m)
         else (Ok 0, m).
Proof.
  unfold BindingDone, bind, get_app, roles_bound, modify_app, ret.
  destruct (negb (binding_done (app m) =? 0)); [reflexivity|].
  now destruct (negb (shm_id (app m) =? 0) && negb (compositor_id (app m) =? 0)
                && negb (xdg_wm_base_id (app m) =? 0)).
Qed.

Lemma run_op_keeps_binding_done (env : Env) (op : Op) (m : Machine) :
  is_BindingDone op = false ->
  binding_done (app (snd (run_op env op m))) = binding_done (app m).
Proof.
  intros H.
  apply (respects_run_op_other env keeps_binding_done); try assumption;
    unfold keeps_binding_done.
  - now intros s s' [? _].
  - intros a b c. congruence.
  - reflexivity.
  - reflexivity.
Qed.

(** The cache is set exactly when it was set before or some call of
    [BindingDone] in between answered 1. *)
Lemma run_ops_binding_done (env : Env) (ops : list Op) :
  forall m rs m',
    run_ops env ops m = (Ok rs, m') ->
    (binding_done (app m') =? 0)
    = (binding_done (app m) =? 0) && negb (answered_done ops rs).
Proof.
  induction ops as [|op ops IH]; intros m rs m' H.
  - cbn in H. injection H as <- <-. cbn [answered_done negb].
    now rewrite andb_true_r.
  - cbn [run_ops] in H. unfold bind in H.
    destruct (run_op env op m) as [[r| | | |] m1] eqn:E1; try discriminate.
    destruct (run_ops env ops m1) as [[rs1| | | |] m2] eqn:E2;
      try discriminate.
    unfold ret in H. injection H as <- <-.
    rewrite (IH _ _ _ E2). cbn [answered_done].
    destruct (is_BindingDone op) eqn:Eop.
    + destruct op; try discriminate. cbn [run_op] in E1.
      rewrite BindingDone_spec in E1. cbn [andb].
      destruct (binding_done (app m) =? 0) eqn:Ebd; cbn [negb] in E1.
      * destruct (roles_bound (app m)); injection E1 as <- <-.
        -- reflexivity.
        -- cbn [orb Z.eqb]. now rewrite Ebd.
      * injection E1 as <- <-. now rewrite Ebd.
    + pose proof (run_op_keeps_binding_done env op m Eop) as K.
      rewrite E1 in K. cbn [snd] in K. now rewrite K.
Qed.

(** Once the cache is set, [BindingDone] answers 1. *)
Lemma BindingDone_cached (m : Machine) :
  (binding_done (app m) =? 0) = false -> BindingDone m = (Ok 1, m).
Proof. intros H. rewrite BindingDone_spec. now rewrite H. Qed.

(** After [BindingDone] has answered 1 the cache is set. *)
Lemma BindingDone_sets_cache (m : Machine) :
  fst (BindingDone m) = Ok 1 ->
  (binding_done (app (snd (BindingDone m))) =? 0) = false.
Proof.
  rewrite BindingDone_spec.
  destruct (binding_done (app m) =? 0) eqn:E; cbn [negb fst snd].
  - destruct (roles_bound (app m)); cbn [fst snd]; [reflexivity|discriminate].
  - intros _. exact E.
Qed.

(** C7. Binding completion is monotone and first becomes true exactly when
    the three roles are bound.  Take any sequence of calls (events handled,
    batches processed, [BindingDone] itself, surface creation, commit,
    render) that starts where [binding_done] is still 0, as at the start of
    the process, and runs to its end.  [BindingDone] called afterwards
    returns 1 if some call of [BindingDone] in the sequence returned 1,
    whatever happened since; otherwise it returns 1 exactly when the
    identifiers of the shared-memory factory, the compositor and the shell
    base are all non-zero.  And once [BindingDone] has returned 1 there, it
    returns 1 again after every further sequence of calls. *)
Theorem binding_completion_monotone (env : Env) (ops : list Op)
    (m : Machine) (rs : list Z) (m' : Machine) :
  binding_done (app m) = 0 ->
  run_ops env ops m = (Ok rs, m') ->
  fst (BindingDone m')
  = Ok (bool_int (answered_done ops rs || roles_bound (app m'))) /\
  (fst (BindingDone m') = Ok 1 ->
   forall later rs' m'',
     run_ops env later (snd (BindingDone m')) = (Ok rs', m'') ->
     BindingDone m'' = (Ok 1, m'')).
Proof.
  intros H0 Hrun. split.
  - apply run_ops_binding_done in Hrun.
    rewrite H0 in Hrun. cbn [Z.eqb andb] in Hrun.
    rewrite BindingDone_spec, Hrun.
    destruct (answered_done ops rs); cbn [negb orb]; [reflexivity|].
    now destruct (roles_bound (app m')).
  - intros Hdone later rs' m'' Hlater.
    apply BindingDone_cached.
    rewrite (run_ops_binding_done _ _ _ _ _ Hlater).
    now rewrite (BindingDone_sets_cache _ Hdone).
Qed.

(** ** The surface state *)

Lemma surface_move_trans (a b c : SurfaceState) :
  surface_move a b -> surface_move b c -> surface_move a c.
Proof.
  unfold surface_move. destruct a, b, c; cbn [rank]; intuition (try lia; try discriminate).
Qed.

(** Decoding an event leaves the process as it was. *)
Lemma ReadWaylandEvent_pure (buffer : list byte) (off : Z) (m m' : Machine)
    (x : ParsedWaylandEvent * Z) :
  ReadWaylandEvent buffer off m = (Ok x, m') -> m' = m.
Proof.
  unfold ReadWaylandEvent, bind, mem, ret, fault.
  destruct (ReadUint32 buffer off) as [[oid off1]|]; [|discriminate].
  destruct (ReadUint32 buffer off1) as [[w off2]|]; [|discriminate].
  destruct (Z.shiftr w 16 <? 8); [discriminate|].
  intros H. apply (f_equal snd) in H. cbn [snd] in H. now symmetry.
Qed.

Ltac framed :=
  lazymatch goal with
  | |- surface_state (app (snd (?P ?m))) = surface_state (app ?m) =>
      let F := fresh "F" in
      assert (F : frame P); [ frame_auto | exact (proj2 (F m)) ]
  end.

Lemma HandleWaylandEvent_surface_state (env : Env) (e : ParsedWaylandEvent)
    (m : Machine) :
  surface_state (app (snd (HandleWaylandEvent env e m)))
  = if configure_acknowledged env e m then ACKED_CONFIGURE
    else surface_state (app m).
Proof.
  unfold configure_acknowledged, takes_surface_configure.
  unfold HandleWaylandEvent, bind at 1, get_app.
  destruct (is_registry_global (app m) e); cbn [negb andb].
  { framed. 1-3: apply frame_bind_if_named; intros v s; now split. }
  destruct (is_display_error e); cbn [negb andb]; [framed|].
  destruct (is_ping (app m) e); cbn [negb andb]; [framed|].
  destruct (is_surface_configure (app m) e); cbn [negb andb]; [|framed].
  destruct (payload_size e =? 4); cbn [negb andb]; [|reflexivity].
  unfold read_u32_at, deref.
  destruct (payload e) as [view|]; [|reflexivity].
  cbv beta iota delta [bind mem ret fault].
  destruct (ReadUint32 view 0) as [[serial o]|]; [|reflexivity].
  pose proof (frame_AckXDGSurfaceConfigure env serial m) as [_ F].
  destruct (AckXDGSurfaceConfigure env serial m) as [[r| | | |] m1];
    cbn [fst snd returned_nonzero] in *; try exact F.
  destruct (r =? 0); cbn [negb snd]; [exact F | reflexivity].
Qed.

Lemma sets_on_success_bind {A} (target : SurfaceState) (c : M A)
    (k : A -> M Z) :
  frame c -> (forall a, sets_on_success target (k a)) ->
  sets_on_success target (bind c k).
Proof.
  intros Hc Hk m. unfold bind. destruct (Hc m) as [_ F].
  destruct (c m) as [[a| | | |] m1]; cbn [fst snd returned_nonzero] in *;
    try exact F.
  rewrite (Hk a m1), F. reflexivity.
Qed.

Lemma sets_on_success_error (target : SurfaceState) (fmt : string)
    (args : list arg) :
  sets_on_success target (printf fmt args ;; ret 0).
Proof. intros m. reflexivity. Qed.

Lemma RenderFrame_surface_state (env : Env) :
  sets_on_success SURFACE_ATTACHED (RenderFrame env).
Proof.
  unfold RenderFrame.
  apply sets_on_success_bind; [frame_auto | intros s0].
  apply sets_on_success_bind; [frame_auto | intros r1].
  destruct (r1 =? 0); [apply sets_on_success_error|].
  apply sets_on_success_bind; [frame_auto | intros s1].
  apply sets_on_success_bind; [frame_auto | intros r2].
  destruct (r2 =? 0); [apply sets_on_success_error|].
  apply sets_on_success_bind; [frame_auto | intros s2].
  apply sets_on_success_bind; [frame_auto | intros img].
  apply sets_on_success_bind; [frame_auto | intros _].
  apply sets_on_success_bind; [frame_auto | intros r3].
  destruct (r3 =? 0); [apply sets_on_success_error|].
  apply sets_on_success_bind; [frame_auto | intros r4].
  destruct (r4 =? 0); [apply sets_on_success_error|].
  intros m. reflexivity.
Qed.

Lemma batch_move_trans (env : Env) (buffer : list byte) (a b c : Machine) :
  batch_move env buffer a b -> batch_move env buffer b c ->
  batch_move env buffer a c.
Proof.
  unfold batch_move. intros [H1|[H1 W1]] [H2|[H2 W2]].
  - left. congruence.
  - right. now split.
  - right. split; [congruence | exact W1].
  - right. now split.
Qed.

Lemma ProcessWaylandEvents_loop_surface_state (env : Env) (fuel : nat)
    (buffer : list byte) (size : Z) :
  forall off m,
    batch_move env buffer m
      (snd (ProcessWaylandEvents_loop env fuel buffer size off m)).
Proof.
  induction fuel as [|fuel IH]; intros off m; cbn [ProcessWaylandEvents_loop].
  - destruct (off <? size); left; reflexivity.
  - destruct (off <? size); [|left; reflexivity].
    unfold bind at 1.
    destruct (ReadWaylandEvent buffer off m) as [[[e off']| | | |] m1] eqn:ER;
      try (pose proof (frame_ReadWaylandEvent buffer off m) as [_ F];
           rewrite ER in F; left; exact F).
    pose proof (ReadWaylandEvent_pure _ _ _ _ _ ER) as ->.
    destruct (u64 (off' - 1) >? size); [left; reflexivity|].
    unfold bind at 1.
    assert (HH : batch_move env buffer m
                   (snd (HandleWaylandEvent env e m))).
    { unfold batch_move. rewrite HandleWaylandEvent_surface_state.
      destruct (configure_acknowledged env e m) eqn:EA; [right|now left].
      split; [reflexivity|]. now exists off, e, off', m. }
    destruct (HandleWaylandEvent env e m) as [[r| | | |] m2];
      cbn [snd] in HH; try exact HH.
    destruct (r =? 0); [exact HH|].
    eapply batch_move_trans; [exact HH | apply IH].
Qed.


(** ** The dispatcher *)

(** What [ReadWaylandEvent] does, by the header it finds. *)
Lemma ReadWaylandEvent_header (buffer : list byte) (off oid op size : Z)
    (m : Machine) :
  header_at buffer off = Some (oid, op, size) ->
  ReadWaylandEvent buffer off m
  = if size <? 8 then (Exit 1, emit (invalid_size_line size) m)
    else
      let psize := u16 (size - 8) in
      let body := u64 (u64 (off + 4) + 4) in
      (Ok ({| object_id := oid; opcode := op; payload_size := psize;
              payload := if psize =? 0 then None
                         else Some (ptr_add buffer body) |},
           u64 (body + RoundUp4 psize)), m).
Proof.
  unfold header_at, ReadWaylandEvent, bind, mem, ret. intros H.
  destruct (ReadUint32 buffer off) as [[oid' off1]|] eqn:E1; [|discriminate].
  assert (off1 = u64 (off + 4)).
  { unfold ReadUint32 in E1. destruct (load buffer off 4); [|discriminate].
    now injection E1. }
  subst off1.
  destruct (ReadUint32 buffer (u64 (off + 4))) as [[w off2]|] eqn:E2;
    [|discriminate].
  assert (off2 = u64 (u64 (off + 4) + 4)).
  { unfold ReadUint32 in E2.
    destruct (load buffer (u64 (off + 4)) 4); [|discriminate].
    now injection E2. }
  subst off2. injection H as -> <- <-.
  now destruct (Z.shiftr w 16 <? 8).
Qed.

(** One turn of the loop of [ProcessWaylandEvents] when there are bytes
    left. *)
Lemma ProcessWaylandEvents_loop_turn (env : Env) (fuel : nat)
    (buffer : list byte) (size off : Z) :
  off < size ->
  ProcessWaylandEvents_loop env (S fuel) buffer size off
  = ('(event, off') <- ReadWaylandEvent buffer off ;;
     if u64 (off' - 1) >? size then
       printf ("A message with a body of %d bytes overflowed the buffer "
               ++ "containing %d bytes.")
         [AInt (payload_size event); AInt (s32 size)] ;;
       ret 0
     else
       r <- HandleWaylandEvent env event ;;
       if r =? 0 then
         printf "Error handling Wayland op %u on object %u."
           [AInt (opcode event); AInt (object_id event)] ;;
         ret 0
       else ProcessWaylandEvents_loop env fuel buffer size off').
Proof.
  intros H. cbn [ProcessWaylandEvents_loop].
  replace (off <? size) with true by (symmetry; apply Z.ltb_lt; exact H).
  reflexivity.
Qed.

Lemma ProcessWaylandEvents_loop_end (env : Env) (fuel : nat)
    (buffer : list byte) (size off : Z) :
  size <= off ->
  ProcessWaylandEvents_loop env fuel buffer size off = ret 1.
Proof.
  intros H. destruct fuel; cbn [ProcessWaylandEvents_loop];
    replace (off <? size) with false by (symmetry; apply Z.ltb_ge; exact H);
    reflexivity.
Qed.

Lemma ProcessWaylandEvents_start (env : Env) (buffer : list byte) (size : Z) :
  0 < size ->
  exists fuel,
    ProcessWaylandEvents env buffer size
    = ProcessWaylandEvents_loop env (S fuel) buffer size 0.
Proof.
  intros H. exists (Nat.pred (Z.to_nat size)). unfold ProcessWaylandEvents.
  f_equal. lia.
Qed.

(** A quiet turn of the event loop up to the call of
    [ProcessWaylandEvents]. *)
Lemma EventLoop_loop_quiet_data (env : Env) (rest : list LoopInput)
    (recv_buffer data buf : list byte) (n : Z) (m : Machine) :
  should_exit m = 0 ->
  recv_into recv_buffer data = (buf, n) ->
  0 <= n ->
  forall r m',
    ProcessWaylandEvents env buf (u32 n)
      (emit (Recv (socket_fd (app m)) (RecvData data)) m) = (r, m') ->
    match r with
    | Ok 0 =>
        EventLoop_loop env (quiet_turn (RecvData data) :: rest) recv_buffer m
        = (Ok 0, emit batch_error_line m')
    | Ok _ => True
    | Exit z =>
        EventLoop_loop env (quiet_turn (RecvData data) :: rest) recv_buffer m
        = (Exit z, m')
    | Fault =>
        EventLoop_loop env (quiet_turn (RecvData data) :: rest) recv_buffer m
        = (Fault, m')
    | _ => True
    end.
Proof.
  intros Hexit Hrecv Hn r m' HP.
  cbn [EventLoop_loop quiet_turn sigint_before_test sigint_in_recv
       recv_outcome].
  unfold recv. rewrite Hrecv.
  cbv beta iota delta [bind ret get_app io]. rewrite Hexit.
  change (0 =? 0) with true. cbv beta iota delta [negb].
  replace (n <? 0) with false by (symmetry; apply Z.ltb_ge; exact Hn).
  rewrite HP.
  destruct r as [z| | | |]; try reflexivity; try exact I.
  destruct z; try exact I. reflexivity.
Qed.

Lemma ReadWaylandEvent_offset (buffer : list byte) (off : Z) (m m' : Machine)
    (e : ParsedWaylandEvent) (off' : Z) :
  ReadWaylandEvent buffer off m = (Ok (e, off'), m') ->
  0 <= off < 4294967296 ->
  off' = off + 8 + RoundUp4 (payload_size e) /\ off + 8 <= off'.
Proof.
  unfold ReadWaylandEvent, bind, mem, ret, fault. intros H Hoff.
  destruct (ReadUint32 buffer off) as [[oid off1]|] eqn:E1; [|discriminate].
  destruct (ReadUint32 buffer off1) as [[w off2]|] eqn:E2; [|discriminate].
  destruct (Z.shiftr w 16 <? 8); [discriminate|].
  set (psize := u16 (Z.shiftr w 16 - 8)) in *.
  set (o := u64 (off2 + RoundUp4 psize)) in *.
  assert (He : payload_size e = psize /\ off' = o).
  { apply (f_equal fst) in H. cbn [fst] in H.
    assert (Hp : forall a b, Ok a = Ok b :> result (ParsedWaylandEvent * Z)
                             -> a = b) by (intros a b [=]; assumption).
    apply Hp in H. split.
    - exact (eq_sym (f_equal (fun x => payload_size (fst x)) H)).
    - exact (eq_sym (f_equal snd H)). }
  destruct He as [-> ->]. clear H. subst o.
  unfold ReadUint32 in E1, E2.
  destruct (load buffer off 4); [|discriminate]. injection E1 as _ <-.
  destruct (load buffer (u64 (off + 4)) 4); [|discriminate].
  injection E2 as _ <-.
  pose proof (RoundUp4_range psize) as Hr.
  rewrite (u64_id (off + 4)) by lia. rewrite (u64_id (off + 4 + 4)) by lia.
  rewrite u64_id by lia. lia.
Qed.

(** C6. A header that declares a total size below 8 is fatal: whatever the
    rest of the buffer holds, [ReadWaylandEvent] prints the size and exits
    the process with status 1; so does the loop of [ProcessWaylandEvents]
    when it reaches such a header, and so does the event loop when the
    bytes it received start with one.  Nothing of the application state
    changes, nothing is sent and no handler runs: the process state at the
    exit is the state before the read plus the printed line. *)
Theorem undersized_header_is_fatal (env : Env) (buffer : list byte)
    (off oid op size : Z) :
  header_at buffer off = Some (oid, op, size) ->
  size < 8 ->
  (forall m,
     ReadWaylandEvent buffer off m
     = (Exit 1, emit (invalid_size_line size) m)) /\
  (forall m fuel buffer_size,
     off < buffer_size ->
     ProcessWaylandEvents_loop env (S fuel) buffer buffer_size off m
     = (Exit 1, emit (invalid_size_line size) m)) /\
  (forall m rest recv_buffer data n,
     off = 0 ->
     should_exit m = 0 ->
     recv_into recv_buffer data = (buffer, n) ->
     0 < n < 4294967296 ->
     EventLoop_loop env (quiet_turn (RecvData data) :: rest) recv_buffer m
     = (Exit 1,
        emit (invalid_size_line size)
          (emit (Recv (socket_fd (app m)) (RecvData data)) m))).
Proof.
  intros Hh Hs.
  assert (HR : forall m, ReadWaylandEvent buffer off m
                         = (Exit 1, emit (invalid_size_line size) m)).
  { intros m. rewrite (ReadWaylandEvent_header _ _ _ _ _ _ Hh).
    now replace (size <? 8) with true by (symmetry; apply Z.ltb_lt; exact Hs). }
  assert (HL : forall m fuel buffer_size,
             off < buffer_size ->
             ProcessWaylandEvents_loop env (S fuel) buffer buffer_size off m
             = (Exit 1, emit (invalid_size_line size) m)).
  { intros m fuel bs Hlt. rewrite ProcessWaylandEvents_loop_turn by exact Hlt.
    unfold bind. now rewrite HR. }
  split; [exact HR|]. split; [exact HL|].
  intros m rest recv_buffer data n -> Hexit Hrecv Hn.
  destruct (ProcessWaylandEvents_start env buffer (u32 n)) as [fuel Hf];
    [rewrite u32_id; lia|].
  apply (EventLoop_loop_quiet_data env rest recv_buffer data buffer n m
           Hexit Hrecv ltac:(lia) (Exit 1)).
  rewrite Hf. apply HL. rewrite u32_id; lia.
Qed.

(** C8. An event that no handler takes is fatal for its batch and for the
    run.  [HandleWaylandEvent] prints the unsupported line and returns 0
    without touching the state.  When the loop of [ProcessWaylandEvents]
    decodes such an event (and the size check lets it through), it prints
    its own error line and returns 0 at once, whatever follows in the
    buffer.  And whenever [ProcessWaylandEvents] returns 0, the event loop
    prints its error line and returns 0 without taking another turn. *)
Theorem unhandled_event_is_fatal (env : Env) (e : ParsedWaylandEvent)
    (m : Machine) :
  known_handler (app m) e = false ->
  HandleWaylandEvent env e m = (Ok 0, emit (unsupported_line e) m) /\
  (forall fuel buffer buffer_size off off',
     off < buffer_size ->
     ReadWaylandEvent buffer off m = (Ok (e, off'), m) ->
     u64 (off' - 1) <= buffer_size ->
     ProcessWaylandEvents_loop env (S fuel) buffer buffer_size off m
     = (Ok 0, emit (handling_error_line e) (emit (unsupported_line e) m))) /\
  (forall m0 rest recv_buffer data buf n off',
     should_exit m0 = 0 ->
     recv_into recv_buffer data = (buf, n) ->
     0 < n < 4294967296 ->
     m = emit (Recv (socket_fd (app m0)) (RecvData data)) m0 ->
     ReadWaylandEvent buf 0 m = (Ok (e, off'), m) ->
     u64 (off' - 1) <= n ->
     EventLoop_loop env (quiet_turn (RecvData data) :: rest) recv_buffer m0
     = (Ok 0,
        emit batch_error_line
          (emit (handling_error_line e) (emit (unsupported_line e) m)))).
Proof.
  intros Hk.
  assert (HH : HandleWaylandEvent env e m = (Ok 0, emit (unsupported_line e) m)).
  { unfold known_handler in Hk.
    repeat (apply orb_false_elim in Hk; destruct Hk as [Hk ?]).
    unfold HandleWaylandEvent, bind at 1, get_app.
    now repeat match goal with H : _ = false |- _ => rewrite H; clear H end. }
  assert (HL : forall fuel buffer buffer_size off off',
     off < buffer_size ->
     ReadWaylandEvent buffer off m = (Ok (e, off'), m) ->
     u64 (off' - 1) <= buffer_size ->
     ProcessWaylandEvents_loop env (S fuel) buffer buffer_size off m
     = (Ok 0, emit (handling_error_line e) (emit (unsupported_line e) m))).
  { intros fuel buffer bs off off' Hlt HR Hg.
    rewrite ProcessWaylandEvents_loop_turn by exact Hlt.
    unfold bind at 1. rewrite HR.
    replace (u64 (off' - 1) >? bs) with false
      by (symmetry; rewrite Z.gtb_ltb; apply Z.ltb_ge; exact Hg).
    unfold bind at 1. rewrite HH. reflexivity. }
  split; [exact HH|]. split; [exact HL|].
  intros m0 rest recv_buffer data buf n off' Hexit Hrecv Hn Hm HR Hg.
  destruct (ProcessWaylandEvents_start env buf (u32 n)) as [fuel Hf];
    [rewrite u32_id; lia|].
  apply (EventLoop_loop_quiet_data env rest recv_buffer data buf n m0
           Hexit Hrecv ltac:(lia) (Ok 0)).
  rewrite Hf, <- Hm. apply (HL fuel buf (u32 n) 0 off'); rewrite ?u32_id; try lia.
  exact HR.
Qed.

(** C10. The size check of [ProcessWaylandEvents] compares [offset - 1]
    with the batch length, so it lets a message through whose end lies one
    byte past the bytes received.  For a message decoded at [off] that ends
    at [off']: the loop refuses it (prints the overflow line and returns 0)
    when [off'] is at least [size + 2]; it dispatches it to
    [HandleWaylandEvent] when [off'] is at most [size + 1]; and when
    [off' = size + 1] the message is handled as a complete one and is the
    last of the batch. *)
Theorem overflow_guard_slack (env : Env) (buffer : list byte)
    (size off : Z) (m : Machine) (e : ParsedWaylandEvent) (off' : Z) :
  0 <= off < size ->
  size < 4294967296 ->
  ReadWaylandEvent buffer off m = (Ok (e, off'), m) ->
  (size + 2 <= off' ->
   forall fuel,
     ProcessWaylandEvents_loop env (S fuel) buffer size off m
     = (Ok 0, emit (overflow_line e size) m)) /\
  (off' <= size + 1 ->
   forall fuel,
     ProcessWaylandEvents_loop env (S fuel) buffer size off m
     = (r <- HandleWaylandEvent env e ;;
        if r =? 0 then io (handling_error_line e) ;; ret 0
        else ProcessWaylandEvents_loop env fuel buffer size off') m) /\
  (off' = size + 1 ->
   forall fuel,
     ProcessWaylandEvents_loop env (S fuel) buffer size off m
     = (r <- HandleWaylandEvent env e ;;
        if r =? 0 then io (handling_error_line e) ;; ret 0
        else ret 1) m).
Proof.
  intros Hoff Hsize HR.
  destruct (ReadWaylandEvent_offset _ _ _ _ _ _ HR ltac:(lia)) as [Ho Hge].
  pose proof (RoundUp4_range (payload_size e)) as Hr.
  assert (Hu : u64 (off' - 1) = off' - 1) by (apply u64_id; lia).
  assert (Hdispatch : off' <= size + 1 ->
    forall fuel,
      ProcessWaylandEvents_loop env (S fuel) buffer size off m
      = (r <- HandleWaylandEvent env e ;;
         if r =? 0 then io (handling_error_line e) ;; ret 0
         else ProcessWaylandEvents_loop env fuel buffer size off') m).
  { intros Hle fuel.
    rewrite ProcessWaylandEvents_loop_turn by lia.
    unfold bind at 1. rewrite HR, Hu.
    replace (off' - 1 >? size) with false
      by (symmetry; rewrite Z.gtb_ltb; apply Z.ltb_ge; lia).
    reflexivity. }
  split; [|split].
  - intros Hfar fuel.
    rewrite ProcessWaylandEvents_loop_turn by lia.
    unfold bind at 1. rewrite HR, Hu.
    replace (off' - 1 >? size) with true
      by (symmetry; rewrite Z.gtb_ltb; apply Z.ltb_lt; lia).
    reflexivity.
  - exact Hdispatch.
  - intros Heq fuel. rewrite Hdispatch by lia.
    now rewrite ProcessWaylandEvents_loop_end by lia.
Qed.

(** ** The configure handler of the top-level object *)

(** [ReadWaylandEvent] gives a message without payload the NULL pointer. *)
Lemma ReadWaylandEvent_no_payload (buffer : list byte) (off : Z)
    (m m' : Machine) (e : ParsedWaylandEvent) (off' : Z) :
  ReadWaylandEvent buffer off m = (Ok (e, off'), m') ->
  payload_size e = 0 -> payload e = None.
Proof.
  unfold ReadWaylandEvent, bind, mem, ret, fault. intros H.
  destruct (ReadUint32 buffer off) as [[oid off1]|]; [|discriminate].
  destruct (ReadUint32 buffer off1) as [[w off2]|]; [|discriminate].
  destruct (Z.shiftr w 16 <? 8); [discriminate|].
  set (psize := u16 (Z.shiftr w 16 - 8)) in *.
  assert (He : e = {| object_id := oid; opcode := Z.land w 65535;
                      payload_size := psize;
                      payload := if psize =? 0 then None
                                 else Some (ptr_add buffer off2) |}).
  { apply (f_equal fst) in H. cbn [fst] in H.
    assert (Hp : forall a b, Ok a = Ok b :> result (ParsedWaylandEvent * Z)
                             -> a = b) by (intros a b [=]; assumption).
    apply Hp in H. exact (eq_sym (f_equal fst H)). }
  rewrite He. cbn [payload_size payload]. now intros ->.
Qed.

(** C9: the configure handler of the top-level object dereferences a NULL
    pointer.  For an event that reaches this handler, whatever its payload
    size: the handler never returns 0; when the payload is shorter than 8
    bytes it prints a line and goes on to the read all the same.  When the
    payload pointer is NULL, as it is for a payload of size 0, the read goes
    through NULL.  When eight bytes lie behind the pointer the handler
    prints the two values found there and returns 1, also when the payload
    is shorter than 8 bytes and the bytes are older contents of the receive
    buffer.  A message decoded with a payload of size 0 carries the NULL
    pointer, so the batch that holds such a configure event ends in the
    fault after the line about the size has been printed. *)
Theorem toplevel_configure_reads_eight_bytes (env : Env)
    (e : ParsedWaylandEvent) (m : Machine) :
  reaches_toplevel_configure (app m) e = true ->
  let m1 := if payload_size e <? 8 then emit (short_toplevel_line e) m
            else m in
  fst (HandleWaylandEvent env e m) <> Ok 0 /\
  (payload e = None -> HandleWaylandEvent env e m = (Fault, m1)) /\
  (forall view,
     payload e = Some view -> 8 <= zlen view ->
     HandleWaylandEvent env e m
     = (Ok 1,
        emit (toplevel_size_line (bytes_u32 (firstn 4 view))
                (bytes_u32 (firstn 4 (skipn 4 view)))) m1)) /\
  (forall fuel buffer size off off',
     off < size ->
     ReadWaylandEvent buffer off m = (Ok (e, off'), m) ->
     u64 (off' - 1) <= size ->
     payload_size e = 0 ->
     ProcessWaylandEvents_loop env (S fuel) buffer size off m
     = (Fault, emit (short_toplevel_line e) m)).
Proof.
  unfold reaches_toplevel_configure. intros H. cbv zeta.
  repeat (apply andb_prop in H; destruct H as [H ?]).
  repeat match goal with
         | H : negb _ = true |- _ => apply negb_true_iff in H
         end.
  assert (HH : HandleWaylandEvent env e m
               = let m1 := if payload_size e <? 8
                           then emit (short_toplevel_line e) m else m in
                 match payload e with
                 | None => (Fault, m1)
                 | Some view =>
                     match ReadUint32 view 0, ReadUint32 view 4 with
                     | Some (w, _), Some (h, _) =>
                         (Ok 1, emit (toplevel_size_line w h) m1)
                     | _, _ => (Fault, m1)
                     end
                 end).
  { unfold HandleWaylandEvent, bind at 1, get_app.
    repeat match goal with
           | H : _ = false |- _ => rewrite H; clear H
           | H : _ = true |- _ => rewrite H; clear H
           end.
    cbv zeta. unfold read_u32_at, deref.
    destruct (payload_size e <? 8); destruct (payload e) as [view|];
      try reflexivity;
      cbv beta iota delta [bind ret mem printf io fault];
      destruct (ReadUint32 view 0) as [[w o1]|];
      destruct (ReadUint32 view 4) as [[h o2]|]; reflexivity. }
  cbv zeta in HH.
  assert (HN : payload e = None ->
               HandleWaylandEvent env e m
               = (Fault, if payload_size e <? 8
                         then emit (short_toplevel_line e) m else m))
    by (intros E; rewrite HH, E; reflexivity).
  split; [|split; [exact HN|split]].
  - rewrite HH. destruct (payload e) as [view|]; [|discriminate].
    destruct (ReadUint32 view 0) as [[w o1]|]; [|discriminate].
    destruct (ReadUint32 view 4) as [[h o2]|]; discriminate.
  - intros view E Hlen. rewrite HH, E.
    assert (R0 : ReadUint32 view 0
                 = Some (bytes_u32 (firstn 4 view), u64 (0 + 4))).
    { unfold ReadUint32, load. cbn [skipn Z.to_nat].
      replace ((0 <=? 0) && (0 + Z.of_nat 4 <=? zlen view)) with true
        by (symmetry; apply andb_true_intro; split; apply Z.leb_le; lia).
      reflexivity. }
    assert (R4 : ReadUint32 view 4
                 = Some (bytes_u32 (firstn 4 (skipn 4 view)), u64 (4 + 4))).
    { unfold ReadUint32, load.
      replace ((0 <=? 4) && (4 + Z.of_nat 4 <=? zlen view)) with true
        by (symmetry; apply andb_true_intro; split; apply Z.leb_le; lia).
      reflexivity. }
    rewrite R0, R4. reflexivity.
  - intros fuel buffer size off off' Hlt HR Hg Hps.
    pose proof (ReadWaylandEvent_no_payload _ _ _ _ _ _ HR Hps) as HP.
    rewrite ProcessWaylandEvents_loop_turn by exact Hlt.
    unfold bind at 1. rewrite HR.
    replace (u64 (off' - 1) >? size) with false
      by (symmetry; rewrite Z.gtb_ltb; apply Z.ltb_ge; exact Hg).
    unfold bind at 1. rewrite (HN HP), Hps. reflexivity.
Qed.

(** ** The loop bounds of the embedding are large enough *)

Lemma fueled_bind {A B} (c : M A) (k : A -> M B) :
  fueled c -> (forall a, fueled (k a)) -> fueled (bind c k).
Proof.
  intros Hc Hk m. unfold bind. specialize (Hc m).
  destruct (c m) as [[a| | | |] m1]; cbn [fst] in *;
    try discriminate; [apply Hk | congruence].
Qed.

Lemma fueled_ret {A} (a : A) : fueled (ret a).
Proof. intros m. discriminate. Qed.

Lemma fueled_exit {A} (z : Z) : fueled (@exit A z).
Proof. intros m. discriminate. Qed.

Lemma fueled_fault {A} : fueled (@fault A).
Proof. intros m. discriminate. Qed.

Lemma fueled_mem {A} (o : option A) : fueled (mem o).
Proof. destruct o; intros m; discriminate. Qed.

Lemma fueled_NextWaylandID : fueled NextWaylandID.
Proof.
  intros m. unfold NextWaylandID.
  destruct (u32 (next_id m + 1) >? MAX_CLIENT_ID); discriminate.
Qed.

Ltac fueled_step :=
  lazymatch goal with
  | |- fueled (bind _ _) => apply fueled_bind; [ | intros ? ]
  | |- fueled (ret _) => apply fueled_ret
  | |- fueled (exit _) => apply fueled_exit
  | |- fueled fault => apply fueled_fault
  | |- fueled (mem _) => apply fueled_mem
  | |- fueled (deref _) => apply fueled_mem
  | |- fueled NextWaylandID => apply fueled_NextWaylandID
  | |- fueled (if ?c then _ else _) => destruct c
  | |- fueled (match ?x with _ => _ end) => destruct x
  | |- fueled (let x := _ in _) => cbv zeta
  end.

Create HintDb fueled discriminated.

Ltac fueled_auto :=
  repeat first
    [ assumption
    | fueled_step
    | solve [auto 1 with fueled nocore]
    | solve [intros ?; discriminate] ].

Section Fueled.

Variable env : Env.

Lemma fueled_AppendWaylandString (buffer : list byte) (off cap : Z)
    (str : list byte) : fueled (AppendWaylandString buffer off cap str).
Proof. unfold AppendWaylandString. fueled_auto. Qed.
#[local] Hint Resolve fueled_AppendWaylandString : fueled.

Lemma fueled_ReadWaylandEvent (buffer : list byte) (off : Z) :
  fueled (ReadWaylandEvent buffer off).
Proof. unfold ReadWaylandEvent. fueled_auto. Qed.

Lemma fueled_write_and_send (cap : nat) (msg : ParsedWaylandEvent)
    (flags : Z) : fueled (write_and_send env cap msg flags).
Proof. unfold write_and_send, send. fueled_auto. Qed.
#[local] Hint Resolve fueled_write_and_send : fueled.

Lemma fueled_read_u32_at (p : ptr) (off : Z) : fueled (read_u32_at p off).
Proof. unfold read_u32_at. fueled_auto. Qed.
#[local] Hint Resolve fueled_read_u32_at : fueled.

Lemma fueled_WaylandRegistryBind (name : Z) (interface : list byte)
    (version : Z) : fueled (WaylandRegistryBind env name interface version).
Proof. unfold WaylandRegistryBind. fueled_auto. Qed.
#[local] Hint Resolve fueled_WaylandRegistryBind : fueled.

Lemma fueled_bind_if_named (label : string)
    (set : Z -> ApplicationState -> ApplicationState) (error_line : string)
    (name : Z) (interface_name text : list byte) (version : Z) :
  fueled (bind_if_named env label set error_line name interface_name text
            version).
Proof. unfold bind_if_named. fueled_auto. Qed.
#[local] Hint Resolve fueled_bind_if_named : fueled.

Lemma fueled_PrintErrorEventInfo (e : ParsedWaylandEvent) :
  fueled (PrintErrorEventInfo e).
Proof. unfold PrintErrorEventInfo. fueled_auto. Qed.
#[local] Hint Resolve fueled_PrintErrorEventInfo : fueled.

Lemma fueled_SendXDGPong (serial : Z) : fueled (SendXDGPong env serial).
Proof. unfold SendXDGPong. fueled_auto. Qed.
#[local] Hint Resolve fueled_SendXDGPong : fueled.

Lemma fueled_AckXDGSurfaceConfigure (serial : Z) :
  fueled (AckXDGSurfaceConfigure env serial).
Proof. unfold AckXDGSurfaceConfigure. fueled_auto. Qed.
#[local] Hint Resolve fueled_AckXDGSurfaceConfigure : fueled.

Lemma fueled_HandleWaylandEvent (e : ParsedWaylandEvent) :
  fueled (HandleWaylandEvent env e).
Proof. unfold HandleWaylandEvent. fueled_auto. Qed.

(** The loop of [ProcessWaylandEvents] ends within its bound: every turn
    moves the offset by at least 8. *)
Lemma ProcessWaylandEvents_loop_fueled (fuel : nat) (buffer : list byte)
    (size : Z) :
  size < 4294967296 ->
  forall off m,
    0 <= off -> size - off <= Z.of_nat fuel ->
    fst (ProcessWaylandEvents_loop env fuel buffer size off m) <> OutOfFuel.
Proof.
  intros Hsize. induction fuel as [|fuel IH]; intros off m H0 Hf.
  - rewrite ProcessWaylandEvents_loop_end by lia. discriminate.
  - destruct (Z.lt_ge_cases off size) as [Hlt|Hge];
      [|rewrite ProcessWaylandEvents_loop_end by lia; discriminate].
    rewrite ProcessWaylandEvents_loop_turn by exact Hlt.
    unfold bind at 1.
    pose proof (fueled_ReadWaylandEvent buffer off m) as HR.
    destruct (ReadWaylandEvent buffer off m) as [[[e off']| | | |] m1] eqn:ER;
      cbn [fst] in *; try discriminate; [|congruence].
    destruct (ReadWaylandEvent_offset _ _ _ _ _ _ ER ltac:(lia)) as [_ Hge].
    destruct (u64 (off' - 1) >? size); [discriminate|].
    unfold bind at 1.
    pose proof (fueled_HandleWaylandEvent e m1) as HH.
    destruct (HandleWaylandEvent env e m1) as [[r| | | |] m2];
      cbn [fst] in *; try discriminate; [|congruence].
    destruct (r =? 0); [discriminate|]. apply IH; lia.
Qed.

Lemma fueled_ProcessWaylandEvents (buffer : list byte) (size : Z) :
  size < 4294967296 -> fueled (ProcessWaylandEvents env buffer size).
Proof.
  intros Hsize m. unfold ProcessWaylandEvents.
  apply ProcessWaylandEvents_loop_fueled; lia.
Qed.

End Fueled.

Section FueledRun.

Variable env : Env.

Lemma fueled_CreateSurface : fueled (CreateSurface env).
Proof.
  unfold CreateSurface, CreateWLSurface, CreateXDGSurface, GetXDGTopLevel.
  pose proof (fueled_write_and_send env). fueled_auto.
Qed.

Lemma fueled_CommitSurface : fueled (CommitSurface env).
Proof.
  unfold CommitSurface. pose proof (fueled_write_and_send env). fueled_auto.
Qed.

Lemma fueled_RenderFrame : fueled (RenderFrame env).
Proof.
  unfold RenderFrame, CreateShmPool, SendMsgWithShmDescriptor,
    CreateFrameBuffer, AttachBuffer.
  pose proof (fueled_write_and_send env). pose proof fueled_CommitSurface.
  fueled_auto.
Qed.

Lemma fueled_BindingDone : fueled BindingDone.
Proof. unfold BindingDone. fueled_auto. Qed.

Lemma u32_lt (z : Z) : u32 z < 4294967296.
Proof. apply u32_range. Qed.

(** The event loop never runs out of the fuel of the loop inside it. *)
Lemma fueled_EventLoop_loop (script : list LoopInput) :
  forall buffer, fueled (EventLoop_loop env script buffer).
Proof.
  induction script as [|turn rest IH]; intros buffer; cbn [EventLoop_loop].
  - intros m. now destruct (should_exit m =? 0).
  - pose proof fueled_CreateSurface. pose proof fueled_CommitSurface.
    pose proof fueled_RenderFrame. pose proof fueled_BindingDone.
    unfold recv, SignalHandler.
    fueled_auto; try (apply fueled_ProcessWaylandEvents, u32_lt); auto.
Qed.

Lemma fueled_main (script : list LoopInput) : fueled (main env script).
Proof.
  unfold main, GetWaylandConnection, OpenSharedMemoryObject,
    GetWaylandDisplayRegistry, CleanupState, EventLoop.
  pose proof (fueled_write_and_send env). pose proof fueled_EventLoop_loop.
  fueled_auto.
Qed.

End FueledRun.

(** ** The properties at sample inputs *)


Lemma undersized_header_is_fatal_witness :
  ReadWaylandEvent (fst (recv_into (repeat x00 16) undersized_bytes)) 0 boot
  = (Exit 1, emit (invalid_size_line 4) boot) /\
  ProcessWaylandEvents_loop friendly_env 1
    (fst (recv_into (repeat x00 16) undersized_bytes)) 8 0 boot
  = (Exit 1, emit (invalid_size_line 4) boot) /\
  EventLoop_loop friendly_env [quiet_turn (RecvData undersized_bytes)]
    (repeat x00 16) boot
  = (Exit 1,
     emit (invalid_size_line 4)
       (emit (Recv (socket_fd (app boot)) (RecvData undersized_bytes)) boot)).
Proof.
  destruct (undersized_header_is_fatal friendly_env
              (fst (recv_into (repeat x00 16) undersized_bytes)) 0 1 0 4)
    as (H1 & H2 & H3); [reflexivity | lia |].
  split; [apply H1|]. split; [apply H2; lia|].
  apply (H3 boot [] (repeat x00 16) undersized_bytes 8);
    [reflexivity | reflexivity | reflexivity | lia].
Defined.

Lemma binding_completion_monotone_witness :
  run_ops deaf_env [OpBindingDone] bound_machine
  = (Ok [1], snd (run_ops deaf_env [OpBindingDone] bound_machine)) /\
  fst (BindingDone (snd (run_ops deaf_env [OpBindingDone] bound_machine)))
  = Ok 1 /\
  roles_bound
    (app (snd (run_ops deaf_env [OpHandle shm_global_event]
                 (snd (run_ops deaf_env [OpBindingDone] bound_machine)))))
  = false /\
  fst (BindingDone
         (snd (run_ops deaf_env [OpHandle shm_global_event]
                 (snd (run_ops deaf_env [OpBindingDone] bound_machine)))))
  = Ok 1.
Proof.
  assert (H : run_ops deaf_env [OpBindingDone] bound_machine
              = (Ok [1], snd (run_ops deaf_env [OpBindingDone] bound_machine)))
    by (vm_compute; reflexivity).
  destruct (binding_completion_monotone deaf_env [OpBindingDone]
              bound_machine [1] _ eq_refl H) as [H1 H2].
  split; [exact H|]. split; [exact H1|]. split; [vm_compute; reflexivity|].
  rewrite (H2 H1 [OpHandle shm_global_event] [0]
             (snd (run_ops deaf_env [OpHandle shm_global_event]
                     (snd (run_ops deaf_env [OpBindingDone] bound_machine)))));
    [reflexivity | vm_compute; reflexivity].
Defined.

Lemma unhandled_event_is_fatal_witness :
  HandleWaylandEvent friendly_env stray_event attached_machine
  = (Ok 0, emit (unsupported_line stray_event) attached_machine) /\
  ProcessWaylandEvents_loop friendly_env 1
    (stray_bytes ++ stray_bytes) 16 0 attached_machine
  = (Ok 0,
     emit (handling_error_line stray_event)
       (emit (unsupported_line stray_event) attached_machine)).
Proof.
  destruct (unhandled_event_is_fatal friendly_env stray_event
              attached_machine) as (H1 & H2 & _); [reflexivity|].
  split; [exact H1|].
  apply (H2 0%nat (stray_bytes ++ stray_bytes) 16 0 8);
    [lia | vm_compute; reflexivity | vm_compute; discriminate].
Defined.

Lemma toplevel_configure_reads_eight_bytes_witness :
  HandleWaylandEvent friendly_env empty_toplevel_configure attached_machine
  = (Fault, emit (short_toplevel_line empty_toplevel_configure)
              attached_machine) /\
  HandleWaylandEvent friendly_env short_toplevel_configure attached_machine
  = (Ok 1,
     emit (toplevel_size_line 640 0)
       (emit (short_toplevel_line short_toplevel_configure)
          attached_machine)) /\
  ProcessWaylandEvents_loop friendly_env 1
    (fst (recv_into (repeat x00 16) empty_toplevel_bytes)) 8 0
    attached_machine
  = (Fault, emit (short_toplevel_line empty_toplevel_configure)
              attached_machine) /\
  fst (EventLoop_loop friendly_env
         [quiet_turn (RecvData empty_toplevel_bytes)] (repeat x00 4096)
         attached_machine) = Fault.
Proof.
  destruct (toplevel_configure_reads_eight_bytes friendly_env
              empty_toplevel_configure attached_machine eq_refl)
    as (_ & H1 & _ & H4).
  destruct (toplevel_configure_reads_eight_bytes friendly_env
              short_toplevel_configure attached_machine eq_refl)
    as (_ & _ & H3 & _).
  split; [exact (H1 eq_refl)|].
  split; [apply (H3 (u32_bytes 640 ++ repeat x00 12) eq_refl);
          vm_compute; discriminate|].
  split; [|vm_compute; reflexivity].
  apply (H4 0%nat (fst (recv_into (repeat x00 16) empty_toplevel_bytes))
           8 0 8);
    [lia | vm_compute; reflexivity | vm_compute; discriminate | reflexivity].
Defined.

Lemma overflow_guard_slack_witness :
  ProcessWaylandEvents_loop friendly_env 1
    (fst (recv_into (repeat x00 16) truncated_bytes)) 11 0 boot
  = (r <- HandleWaylandEvent friendly_env
            {| object_id := 99; opcode := 0; payload_size := 4;
               payload := Some [x01; x02; x03; x00; x00; x00; x00; x00] |} ;;
     if r =? 0 then
       io (handling_error_line
             {| object_id := 99; opcode := 0; payload_size := 4;
                payload := Some [x01; x02; x03; x00; x00; x00; x00; x00] |}) ;;
       ret 0
     else ret 1) boot.
Proof.
  destruct (overflow_guard_slack friendly_env
              (fst (recv_into (repeat x00 16) truncated_bytes)) 11 0 boot
              {| object_id := 99; opcode := 0; payload_size := 4;
                 payload := Some [x01; x02; x03; x00; x00; x00; x00; x00] |}
              12) as (_ & _ & H);
    [lia | lia | vm_compute; reflexivity |].
  apply H. reflexivity.
Defined.

(** ** The exit status *)

Section EmitsOnly.

Variable P : IOEvent -> Prop.

Lemma emits_only_silent {A} (c : M A) :
  (forall m, trace (snd (c m)) = trace m) -> emits_only P c.
Proof. intros H m ev Hin. rewrite H in Hin. now left. Qed.

Lemma emits_only_io (ev : IOEvent) : P ev -> emits_only P (io ev).
Proof.
  intros HP m ev' Hin. cbn in Hin. apply in_app_or in Hin.
  destruct Hin as [Hin|[<-|[]]]; [now left | now right].
Qed.

Lemma emits_only_bind {A B} (c : M A) (k : A -> M B) :
  emits_only P c -> (forall a, emits_only P (k a)) -> emits_only P (bind c k).
Proof.
  intros Hc Hk m ev. unfold bind. specialize (Hc m ev).
  destruct (c m) as [[a| | | |] m1]; cbn [snd] in *; try exact Hc.
  intros Hin. destruct (Hk a m1 ev Hin) as [H|H]; [auto | now right].
Qed.

End EmitsOnly.

Lemma returns_0_bind {A} (c : M A) (k : A -> M Z) :
  (forall a, returns_0 (k a)) -> returns_0 (bind c k).
Proof.
  intros Hk m st m'. unfold bind.
  destruct (c m) as [[a| | | |] m1]; try discriminate. apply Hk.
Qed.

Lemma returns_0_ret : returns_0 (ret 0).
Proof. intros m st m' [= <- _]. reflexivity. Qed.

Lemma once_running_of_returns_0 (c : M Z) :
  returns_0 c -> returns_0_once_running c.
Proof. intros H m st m' _ Hc _. exact (H _ _ _ Hc). Qed.

Lemma once_running_ret (z : Z) : returns_0_once_running (ret z).
Proof. intros m st m' Hno [= _ <-] Hin. contradiction. Qed.

Lemma once_running_bind {A} (c : M A) (k : A -> M Z) :
  emits_only (fun ev => ev <> running_line) c ->
  (forall a, returns_0_once_running (k a)) ->
  returns_0_once_running (bind c k).
Proof.
  intros Hc Hk m st m' Hno. unfold bind. specialize (Hc m running_line).
  destruct (c m) as [[a| | | |] m1]; try discriminate.
  cbn [snd] in Hc. apply Hk. intros Hin.
  destruct (Hc Hin) as [H|H]; [contradiction | now apply H].
Qed.

Ltac quiet_step :=
  lazymatch goal with
  | |- emits_only _ (bind _ _) => apply emits_only_bind; [ | intros ? ]
  | |- emits_only _ (printf _ _) => apply emits_only_io; discriminate
  | |- emits_only _ (io _) => apply emits_only_io; discriminate
  | |- emits_only _ (if ?c then _ else _) => destruct c
  | |- emits_only _ (match ?x with _ => _ end) => destruct x
  | |- emits_only _ (let x := _ in _) => cbv zeta
  | |- emits_only _ _ =>
      apply emits_only_silent; intros ?; reflexivity
  end.

Section MainStatus.

Variable env : Env.

Lemma quiet_NextWaylandID : quiet NextWaylandID.
Proof.
  intros m ev. unfold NextWaylandID.
  destruct (u32 (next_id m + 1) >? MAX_CLIENT_ID); cbn; [|now left].
  intros Hin. apply in_app_or in Hin.
  destruct Hin as [Hin|[<-|[]]]; [now left | right; discriminate].
Qed.

Lemma quiet_write_and_send (cap : nat) (msg : ParsedWaylandEvent) (flags : Z) :
  quiet (write_and_send env cap msg flags).
Proof.
  unfold write_and_send, send. repeat quiet_step.
  - destruct (WriteWaylandMessage (local_array env cap) 0 msg);
      repeat quiet_step.
  - destruct (load l 0 (Z.to_nat z)); repeat quiet_step.
  - intros m ev Hin. cbn in Hin. apply in_app_or in Hin.
    destruct Hin as [Hin|[<-|[]]]; [now left | right; discriminate].
Qed.

Lemma quiet_GetWaylandConnection : quiet (GetWaylandConnection env).
Proof. unfold GetWaylandConnection. repeat quiet_step. Qed.

Lemma quiet_OpenSharedMemoryObject : quiet (OpenSharedMemoryObject env).
Proof. unfold OpenSharedMemoryObject. repeat quiet_step. Qed.

Lemma quiet_GetWaylandDisplayRegistry : quiet (GetWaylandDisplayRegistry env).
Proof.
  unfold GetWaylandDisplayRegistry.
  apply emits_only_bind; [apply quiet_NextWaylandID | intros id].
  cbv zeta.
  apply emits_only_bind; [apply quiet_write_and_send | intros ok].
  repeat quiet_step.
Qed.

Lemma quiet_CleanupState : quiet (CleanupState).
Proof. unfold CleanupState. repeat quiet_step. Qed.

Ltac status_step :=
  lazymatch goal with
  | |- returns_0_once_running (ret _) => apply once_running_ret
  | |- returns_0_once_running (if ?c then _ else _) => destruct c
  | |- returns_0_once_running (bind _ _) =>
      apply once_running_bind; [ | intros ? ]
  end.

(** Once [main] has announced the event loop, the only value it returns is
    0, whatever [EventLoop] returned. *)
Lemma main_returns_0_once_running (script : list LoopInput) :
  returns_0_once_running (main env script).
Proof.
  unfold main.
  pose proof quiet_GetWaylandConnection. pose proof quiet_OpenSharedMemoryObject.
  pose proof quiet_GetWaylandDisplayRegistry. pose proof quiet_CleanupState.
  repeat first
    [ assumption
    | apply once_running_of_returns_0;
      repeat (apply returns_0_bind; intros ?); apply returns_0_ret
    | status_step
    | quiet_step ].
Qed.

End MainStatus.

(** C1 fails in the code.  Once [main] has announced the event loop, the
    only value it ever returns is 0, in every environment and for every
    course of the loop.  In particular, with every system call succeeding
    up to the event loop: when [recv] fails in the first turn, and likewise
    when the first batch holds an event that no handler takes, [EventLoop]
    returns 0, [main] prints that the loop exited with an error, closes
    both descriptors and returns 0, so the exit status is 0.  A failure
    during the setup (here of the first [send]) gives status 1 after the
    same teardown. *)
Theorem loop_error_exits_with_status_0 :
  (forall env script, returns_0_once_running (main env script)) /\
  (let r := main friendly_env [quiet_turn RecvError] boot in
   exit_status (fst r) = Some 0 /\
   printed (trace (snd r))
   = ["Connecting to display path: %s"; "Running. Press Ctrl+C to exit.";
      "Error receiving wayland message: %s";
      "The event loop exited with an error."]%string /\
   closed (trace (snd r)) = [3; 4]) /\
  (let r := main friendly_env [quiet_turn (RecvData stray_bytes)] boot in
   exit_status (fst r) = Some 0 /\
   printed (trace (snd r))
   = ["Connecting to display path: %s"; "Running. Press Ctrl+C to exit.";
      "Handling opcode %d on object %u is not supported!";
      "Error handling Wayland op %u on object %u.";
      "Error handling wayland messages.";
      "The event loop exited with an error."]%string /\
   closed (trace (snd r)) = [3; 4]) /\
  (let r := main deaf_env [] boot in
   exit_status (fst r) = Some 1 /\ closed (trace (snd r)) = [3; 4]).
Proof.
  split; [exact main_returns_0_once_running|].
  repeat split; vm_compute; reflexivity.
Qed.

(** * Further properties *)

(** ** Rounding up *)

Lemma land3_mod4 (z : Z) : 0 <= z -> Z.land z 3 = z mod 4.
Proof. intros H. change 3 with (Z.ones 2). now rewrite Z.land_ones by lia. Qed.

Lemma u32_mod4 (z : Z) : u32 z mod 4 = z mod 4.
Proof. unfold u32. Z.div_mod_to_equations. lia. Qed.

Lemma RoundUp4_loop_stop (fuel : nat) (v : Z) :
  0 <= v -> v mod 4 = 0 -> RoundUp4_loop fuel v = v.
Proof.
  intros H0 H. destruct fuel; cbn [RoundUp4_loop]; [reflexivity|].
  rewrite land3_mod4, H by exact H0. reflexivity.
Qed.

Lemma RoundUp4_loop_go (fuel : nat) (v : Z) :
  0 <= v -> v mod 4 <> 0 ->
  RoundUp4_loop (S fuel) v = RoundUp4_loop fuel (u32 (v + 1)).
Proof.
  intros H0 H. cbn [RoundUp4_loop]. rewrite land3_mod4 by exact H0.
  destruct (v mod 4 =? 0) eqn:E; [apply Z.eqb_eq in E; contradiction|].
  reflexivity.
Qed.

(** The value of [RoundUp4]: the next multiple of 4, taken modulo 2^32. *)
Lemma RoundUp4_closed (v : Z) :
  RoundUp4 v = u32 (u32 v + (- u32 v) mod 4).
Proof.
  unfold RoundUp4. pose proof (u32_range v) as Hw.
  set (w := u32 v) in *.
  assert (Hr : w mod 4 = 0 \/ w mod 4 = 1 \/ w mod 4 = 2 \/ w mod 4 = 3)
    by (Z.div_mod_to_equations; lia).
  assert (Hu : forall z, 0 <= z < 4294967296 -> u32 z = z)
    by (intros; now apply u32_id).
  destruct Hr as [Hr|[Hr|[Hr|Hr]]].
  - rewrite RoundUp4_loop_stop by lia.
    replace ((- w) mod 4) with 0 by (Z.div_mod_to_equations; lia).
    now rewrite Z.add_0_r, Hu.
  - replace ((- w) mod 4) with 3 by (Z.div_mod_to_equations; lia).
    rewrite RoundUp4_loop_go by lia.
    assert (w + 3 <= 4294967296) by (Z.div_mod_to_equations; lia).
    rewrite (Hu (w + 1)) by lia.
    rewrite RoundUp4_loop_go
      by (try lia; Z.div_mod_to_equations; lia).
    rewrite (Hu (w + 1 + 1)) by lia.
    rewrite RoundUp4_loop_go
      by (try lia; Z.div_mod_to_equations; lia).
    cbn [RoundUp4_loop]. f_equal. lia.
  - replace ((- w) mod 4) with 2 by (Z.div_mod_to_equations; lia).
    rewrite RoundUp4_loop_go by lia.
    assert (w + 2 <= 4294967296) by (Z.div_mod_to_equations; lia).
    rewrite (Hu (w + 1)) by lia.
    rewrite RoundUp4_loop_go
      by (try lia; Z.div_mod_to_equations; lia).
    rewrite RoundUp4_loop_stop.
    + f_equal. lia.
    + apply u32_range.
    + rewrite u32_mod4. Z.div_mod_to_equations. lia.
  - replace ((- w) mod 4) with 1 by (Z.div_mod_to_equations; lia).
    rewrite RoundUp4_loop_go by lia.
    rewrite RoundUp4_loop_stop.
    + reflexivity.
    + apply u32_range.
    + rewrite u32_mod4. Z.div_mod_to_equations. lia.
Qed.

Lemma RoundUp4_small (v : Z) :
  0 <= v <= 4294967292 -> RoundUp4 v = v + (- v) mod 4.
Proof.
  intros H. rewrite RoundUp4_closed, (u32_id v) by lia.
  apply u32_id. Z.div_mod_to_equations. lia.
Qed.

Lemma RoundUp4_bounds (v : Z) :
  0 <= v <= 4294967292 -> v <= RoundUp4 v <= v + 3.
Proof.
  intros H. rewrite (RoundUp4_small v H). Z.div_mod_to_equations. lia.
Qed.

Lemma RoundUp4_mod4 (v : Z) :
  0 <= v <= 4294967292 -> RoundUp4 v mod 4 = 0.
Proof.
  intros H. rewrite (RoundUp4_small v H). Z.div_mod_to_equations. lia.
Qed.

(** X1. The padding law: for every count that can be rounded without
    leaving 32 bits, [RoundUp4] gives a multiple of 4 that is at least the
    count and at most 3 more, and rounding twice is rounding once. *)
Theorem RoundUp4_padding_law (v : Z) :
  0 <= v <= 4294967292 ->
  RoundUp4 v mod 4 = 0 /\
  v <= RoundUp4 v <= v + 3 /\
  RoundUp4 (RoundUp4 v) = RoundUp4 v.
Proof.
  intros H. rewrite (RoundUp4_small v H).
  assert (Hm : (v + (- v) mod 4) mod 4 = 0) by (Z.div_mod_to_equations; lia).
  assert (Hb : v <= v + (- v) mod 4 <= v + 3) by (Z.div_mod_to_equations; lia).
  split; [exact Hm|]. split; [exact Hb|].
  rewrite RoundUp4_small by (Z.div_mod_to_equations; lia).
  Z.div_mod_to_equations. lia.
Qed.

Lemma RoundUp4_padding_law_witness :
  RoundUp4 5 mod 4 = 0 /\ 5 <= RoundUp4 5 <= 5 + 3 /\
  RoundUp4 (RoundUp4 5) = RoundUp4 5.
Proof. apply (RoundUp4_padding_law 5). lia. Defined.

(** X2. The three largest 32-bit counts have no multiple of 4 above them:
    the increment wraps around and [RoundUp4] gives 0. *)
Theorem RoundUp4_wraps_to_zero (v : Z) :
  4294967292 < v < 4294967296 -> RoundUp4 v = 0.
Proof.
  intros H. rewrite RoundUp4_closed, (u32_id v) by lia. unfold u32.
  Z.div_mod_to_equations. lia.
Qed.

Lemma RoundUp4_wraps_to_zero_witness : RoundUp4 4294967295 = 0.
Proof. apply (RoundUp4_wraps_to_zero 4294967295). lia. Defined.

Lemma store_at_start (buf bs : list byte) :
  zlen bs <= zlen buf ->
  store buf 0 bs = Some (bs ++ skipn (List.length bs) buf).
Proof.
  intros H. rewrite store_in_range by (unfold zlen in *; lia). reflexivity.
Qed.

Lemma load_prefix (view : list byte) (n : Z) :
  0 <= n <= zlen view ->
  load view 0 (Z.to_nat n) = Some (firstn (Z.to_nat n) view).
Proof.
  intros H. unfold load. change (Z.to_nat 0) with 0%nat. cbn [skipn].
  replace ((0 <=? 0) && (0 + Z.of_nat (Z.to_nat n) <=? zlen view)) with true;
    [reflexivity|].
  symmetry. apply andb_true_intro. split; apply Z.leb_le; lia.
Qed.

(** The buffer [WriteWaylandMessage] leaves when it writes at offset 0. *)
Lemma WriteWaylandMessage_at_start (buffer : list byte)
    (src : ParsedWaylandEvent) :
  well_formed_message src ->
  8 + payload_size src <= zlen buffer ->
  WriteWaylandMessage buffer 0 src
  = Some (u32_bytes (u32 (object_id src))
          ++ u32_bytes (u32 (Z.lor (u32 (Z.shiftl (payload_size src + 8) 16))
                                   (opcode src)))
          ++ payload_bytes src
          ++ skipn (Z.to_nat (8 + payload_size src)) buffer,
          if payload_size src >? 0
          then u64 (8 + RoundUp4 (payload_size src)) else 8).
Proof.
  destruct src as [oid op ps p]. unfold well_formed_message, payload_bytes.
  cbn [object_id opcode payload_size payload].
  intros (Hoid & Hop & Hps & Hp) Hcap.
  set (word := Z.lor (u32 (Z.shiftl (ps + 8) 16)) op).
  set (h1 := u32_bytes (u32 oid)). set (h2 := u32_bytes (u32 word)).
  assert (L1 : zlen h1 = 4) by reflexivity.
  assert (L2 : zlen h2 = 4) by reflexivity.
  assert (S1 : store buffer 0 h1 = Some (h1 ++ skipn 4 buffer))
    by (apply store_at_start; lia).
  assert (S2 : store (h1 ++ skipn 4 buffer) 4 h2
               = Some ((h1 ++ h2) ++ skipn 8 buffer)).
  { pose proof (store_store_adjacent _ _ _ h2 _ S1) as A.
    change (0 + zlen h1) with 4 in A. rewrite A.
    apply store_at_start. unfold zlen in *. rewrite length_app. lia. }
  unfold WriteWaylandMessage, AppendUint32.
  cbn [object_id opcode payload_size payload]. fold word. fold h1. fold h2.
  rewrite S1. change (u64 (0 + 4)) with 4. rewrite S2.
  change (u64 (4 + 4)) with 8.
  destruct (ps >? 0) eqn:Epos.
  - apply Z.gtb_lt in Epos. destruct p as [view|]; [|lia].
    rewrite load_prefix by lia.
    set (body := firstn (Z.to_nat ps) view).
    assert (Lb : zlen body = ps).
    { unfold body, zlen in *. rewrite length_firstn. lia. }
    assert (S3 : store ((h1 ++ h2) ++ skipn 8 buffer) 8 body
                 = Some (((h1 ++ h2) ++ body)
                         ++ skipn (Z.to_nat (8 + ps)) buffer)).
    { assert (S12 : store buffer 0 (h1 ++ h2)
                    = Some ((h1 ++ h2) ++ skipn 8 buffer)).
      { apply store_at_start. unfold zlen in *. rewrite length_app. lia. }
      pose proof (store_store_adjacent _ _ _ body _ S12) as A.
      change (0 + zlen (h1 ++ h2)) with 8 in A. rewrite A.
      rewrite store_at_start
        by (unfold zlen in *; rewrite !length_app in *; lia).
      do 3 f_equal. unfold zlen in *. rewrite !length_app. lia. }
    rewrite S3. now rewrite <- !app_assoc.
  - rewrite Z.gtb_ltb in Epos. apply Z.ltb_ge in Epos.
    assert (ps = 0) by lia. subst ps.
    assert (Hb : match p with Some view => firstn (Z.to_nat 0) view
                         | None => [] end = []) by now destruct p.
    rewrite Hb. now rewrite <- !app_assoc.
Qed.

(** X3. The bytes [WriteWaylandMessage] produces at the start of a buffer:
    the object identifier, the size word, then the payload, each where the
    wire format puts it.  Nothing else is written: the bytes after the
    payload, the padding included, keep what the buffer held before. *)
Theorem WriteWaylandMessage_bytes (buffer : list byte)
    (src : ParsedWaylandEvent) :
  well_formed_message src ->
  8 + payload_size src <= zlen buffer ->
  WriteWaylandMessage buffer 0 src
  = Some (u32_bytes (u32 (object_id src))
          ++ u32_bytes (u32 (Z.lor (u32 (Z.shiftl (payload_size src + 8) 16))
                                   (opcode src)))
          ++ payload_bytes src
          ++ skipn (Z.to_nat (8 + payload_size src)) buffer,
          if payload_size src >? 0
          then u64 (8 + RoundUp4 (payload_size src)) else 8).
Proof. exact (WriteWaylandMessage_at_start buffer src). Qed.

Lemma WriteWaylandMessage_bytes_witness :
  WriteWaylandMessage (repeat xcc 16) 0 sample_message
  = Some ([x03; x00; x00; x00; x01; x00; x0d; x00;
           x01; x02; x03; x04; x05; xcc; xcc; xcc], 16).
Proof.
  rewrite (WriteWaylandMessage_bytes (repeat xcc 16) sample_message).
  - reflexivity.
  - unfold well_formed_message; cbn; lia.
  - cbn; lia.
Defined.

(** ** Strings on the wire *)

Lemma cstr_inv (str s : list byte) :
  cstr str = Some s ->
  Forall (fun b => b <> x00) s /\ exists rest, str = s ++ x00 :: rest.
Proof.
  revert s. induction str as [|b str IH]; intros s H; cbn [cstr] in H.
  - discriminate.
  - destruct (Byte.eqb b x00) eqn:E.
    + injection H as <-. apply Byte.byte_dec_bl in E. subst b.
      split; [constructor | now exists str].
    + destruct (cstr str) as [s'|]; [|discriminate]. injection H as <-.
      destruct (IH s' eq_refl) as [HF [rest ->]].
      split; [|now exists rest].
      constructor; [|exact HF]. intros ->. cbn in E. discriminate.
Qed.

Lemma cstr_app_nul (s rest : list byte) :
  Forall (fun b => b <> x00) s -> cstr (s ++ x00 :: rest) = Some s.
Proof.
  induction 1 as [|b s Hb HF IH].
  - reflexivity.
  - change (cstr ((b :: s) ++ x00 :: rest))
      with (if Byte.eqb b x00 then Some []
            else match cstr (s ++ x00 :: rest) with
                 | Some s0 => Some (b :: s0)
                 | None => None
                 end).
    destruct (Byte.eqb b x00) eqn:E.
    + apply Byte.byte_dec_bl in E. contradiction.
    + now rewrite IH.
Qed.

(** What a pointer to the place of a write sees afterwards. *)
Lemma ptr_add_store (buf : list byte) (off : Z) (bs buf' : list byte) :
  store buf off bs = Some buf' ->
  ptr_add buf' off = bs ++ skipn (Z.to_nat off + List.length bs) buf.
Proof.
  unfold store, ptr_add, zlen. intros H.
  destruct ((0 <=? off) && (off + Z.of_nat (List.length bs)
                            <=? Z.of_nat (List.length buf))) eqn:E;
    [|discriminate].
  apply andb_prop in E as [E1 E2]. apply Z.leb_le in E1, E2.
  injection H as <-.
  assert (Hf : List.length (firstn (Z.to_nat off) buf) = Z.to_nat off)
    by (rewrite length_firstn; lia).
  rewrite skipn_app, Hf, Nat.sub_diag.
  rewrite skipn_all2 by (rewrite Hf; lia). reflexivity.
Qed.

Lemma ptr_add_store_app (buf : list byte) (off : Z) (a b buf' : list byte) :
  store buf off (a ++ b) = Some buf' ->
  0 <= off ->
  load buf' off (List.length a) = Some a /\
  ptr_add buf' (off + zlen a)
  = b ++ skipn (Z.to_nat off + List.length (a ++ b)) buf.
Proof.
  intros H H0. pose proof (ptr_add_store _ _ _ _ H) as HP.
  pose proof (store_length _ _ _ _ H) as HL.
  unfold store in H.
  destruct ((0 <=? off) && (off + zlen (a ++ b) <=? zlen buf)) eqn:E;
    [|discriminate].
  apply andb_prop in E as [E1 E2]. apply Z.leb_le in E1, E2. clear H.
  unfold ptr_add in *. unfold zlen in *. rewrite length_app in E2. split.
  - unfold load, zlen. rewrite HL.
    replace ((0 <=? off) && (off + Z.of_nat (List.length a)
                             <=? Z.of_nat (List.length buf))) with true
      by (symmetry; apply andb_true_intro; split; apply Z.leb_le; lia).
    rewrite HP, <- app_assoc, firstn_app, firstn_all, Nat.sub_diag.
    cbn [firstn]. now rewrite app_nil_r.
  - replace (Z.to_nat (off + Z.of_nat (List.length a)))
      with (List.length a + Z.to_nat off)%nat by lia.
    rewrite <- skipn_skipn, HP, <- app_assoc, skipn_app, skipn_all,
      Nat.sub_diag.
    reflexivity.
Qed.

(** [AppendWaylandString] when its capacity check lets the string through
    and the array has the room: one write of the length field, the bytes of
    the string and the zero bytes after it. *)
Lemma AppendWaylandString_writes (buffer : list byte) (off cap : Z)
    (str s : list byte) (m : Machine) :
  cstr str = Some s ->
  zlen s + 1 <= 4294967292 ->
  0 <= off ->
  off + 4 + RoundUp4 (zlen s + 1) <= zlen buffer ->
  zlen buffer < 18446744073709551616 ->
  RoundUp4 (zlen s + 1) + 4 <= u64 (cap - off) ->
  exists buffer',
    AppendWaylandString buffer off cap str m
    = (Ok (1, buffer', off + 4 + RoundUp4 (zlen s + 1)), m) /\
    store buffer off
      (u32_bytes (zlen s + 1)
       ++ s ++ repeat x00 (Z.to_nat (RoundUp4 (zlen s + 1) - zlen s)))
    = Some buffer'.
Proof.
  intros Hc Hlen H0 Hb Hbig Hcap.
  assert (HP := RoundUp4_bounds (zlen s + 1)
                  ltac:(unfold zlen in *; lia)).
  set (P := RoundUp4 (zlen s + 1)) in *.
  assert (Hs0 : 0 <= zlen s) by (unfold zlen; lia).
  destruct (cstr_inv _ _ Hc) as [HF [rest ->]].
  assert (Hfirst : firstn (Z.to_nat (zlen s)) (s ++ x00 :: rest) = s).
  { unfold zlen. rewrite Nat2Z.id, firstn_app, firstn_all, Nat.sub_diag.
    cbn [firstn]. apply app_nil_r. }
  set (L := u32_bytes (zlen s + 1)).
  set (Zs := repeat x00 (Z.to_nat (P - zlen s))).
  assert (LL : zlen L = 4) by reflexivity.
  assert (LZ : zlen Zs = P - zlen s)
    by (unfold Zs, zlen; rewrite repeat_length; unfold zlen in *; lia).
  destruct (store_ok buffer off (L ++ s ++ Zs)) as [b3 S3];
    [lia | unfold zlen in *; rewrite !length_app; lia |].
  exists b3. split; [|exact S3].
  destruct (store_ok buffer off L) as [b1 S1]; [lia | lia |].
  pose proof (store_store_adjacent _ _ _ s _ S1) as A1.
  destruct (store_ok buffer off (L ++ s)) as [b2 S2];
    [lia | unfold zlen in *; rewrite !length_app; lia |].
  pose proof (store_store_adjacent _ _ _ Zs _ S2) as A2.
  rewrite <- app_assoc in A2. rewrite S3 in A2. rewrite S2 in A1.
  unfold AppendWaylandString, bind, mem, ret, strlen. rewrite Hc.
  fold P. rewrite (u64_id (P - zlen s)) by lia.
  rewrite (u64_id (P + 4)) by lia.
  replace (P + 4 >? u64 (cap - off)) with false
    by (symmetry; rewrite Z.gtb_ltb; apply Z.ltb_ge; lia).
  unfold AppendUint32. rewrite (u32_id (zlen s + 1)) by lia. fold L.
  rewrite S1. rewrite (u64_id (off + 4)) by lia.
  rewrite Hfirst. rewrite LL in A1. rewrite A1.
  rewrite (u64_id (off + 4 + zlen s)) by lia.
  replace (off + zlen (L ++ s)) with (off + 4 + zlen s) in A2
    by (unfold zlen in *; rewrite length_app; lia).
  fold Zs. rewrite A2. rewrite u64_id by lia.
  replace (off + 4 + zlen s + (P - zlen s)) with (off + 4 + P) by lia.
  reflexivity.
Qed.

Lemma AppendWaylandString_fits (buffer : list byte) (off cap : Z)
    (str s : list byte) (m : Machine) :
  cstr str = Some s ->
  zlen s + 1 <= 4294967292 ->
  0 <= off ->
  off + 4 + RoundUp4 (zlen s + 1) <= zlen buffer ->
  off + 4 + RoundUp4 (zlen s + 1) <= cap < 18446744073709551616 ->
  zlen buffer < 18446744073709551616 ->
  exists buffer',
    AppendWaylandString buffer off cap str m
    = (Ok (1, buffer', off + 4 + RoundUp4 (zlen s + 1)), m) /\
    store buffer off
      (u32_bytes (zlen s + 1)
       ++ s ++ repeat x00 (Z.to_nat (RoundUp4 (zlen s + 1) - zlen s)))
    = Some buffer'.
Proof.
  intros Hc Hlen H0 Hb Hcap Hbig.
  pose proof (RoundUp4_range (zlen s + 1)) as HR.
  apply AppendWaylandString_writes; try assumption.
  rewrite u64_id by lia. lia.
Qed.

(** X4. Round trip of a string: when [AppendWaylandString] has room for the
    C string [s], it returns 1, and [ReadWaylandString] on the buffer it
    leaves, at the offset where the string was written, returns a pointer
    to the same C string and the offset where the writer stopped. *)
Theorem string_round_trip (buffer : list byte) (off cap : Z)
    (str s : list byte) (m : Machine) :
  cstr str = Some s ->
  zlen s + 1 <= 4294967292 ->
  0 <= off ->
  off + 4 + RoundUp4 (zlen s + 1) <= zlen buffer ->
  off + 4 + RoundUp4 (zlen s + 1) <= cap < 18446744073709551616 ->
  zlen buffer < 18446744073709551616 ->
  exists buffer' view,
    AppendWaylandString buffer off cap str m
    = (Ok (1, buffer', off + 4 + RoundUp4 (zlen s + 1)), m) /\
    ReadWaylandString buffer' off
    = Some (view, off + 4 + RoundUp4 (zlen s + 1)) /\
    cstr view = Some s.
Proof.
  intros Hc Hlen H0 Hb Hcap Hbig.
  destruct (AppendWaylandString_fits buffer off cap str s m
              Hc Hlen H0 Hb Hcap Hbig) as [b3 [HA S3]].
  assert (HP := RoundUp4_bounds (zlen s + 1)
                  ltac:(unfold zlen in *; lia)).
  set (P := RoundUp4 (zlen s + 1)) in *.
  destruct (cstr_inv _ _ Hc) as [HF _].
  destruct (ptr_add_store_app _ _ _ _ _ S3 H0) as [HL HV].
  change (zlen (u32_bytes (zlen s + 1))) with 4 in HV.
  exists b3, (ptr_add b3 (off + 4)). split; [exact HA|]. split.
  - unfold ReadWaylandString, ReadUint32.
    change (List.length (u32_bytes (zlen s + 1))) with 4%nat in HL.
    rewrite HL. rewrite bytes_u32_u32_bytes by (unfold zlen in *; lia).
    replace (zlen s + 1 =? 0) with false
      by (symmetry; apply Z.eqb_neq; unfold zlen; lia).
    rewrite (u64_id (off + 4)) by (unfold zlen in *; lia).
    fold P. rewrite u64_id by (unfold zlen in *; lia). reflexivity.
  - rewrite HV.
    assert (Hk : exists k, Z.to_nat (P - zlen s) = S k)
      by (exists (Nat.pred (Z.to_nat (P - zlen s))); unfold zlen in *; lia).
    destruct Hk as [k ->]. cbn [repeat]. rewrite <- app_assoc. cbn [app].
    now apply cstr_app_nul.
Qed.

Lemma string_round_trip_witness :
  exists buffer' view,
    AppendWaylandString (repeat xcc 16) 4 16 (lit "wl_shm" ++ [x00]) boot
    = (Ok (1, buffer', 4 + 4 + RoundUp4 (zlen (lit "wl_shm") + 1)), boot) /\
    ReadWaylandString buffer' 4
    = Some (view, 4 + 4 + RoundUp4 (zlen (lit "wl_shm") + 1)) /\
    cstr view = Some (lit "wl_shm").
Proof.
  apply (string_round_trip (repeat xcc 16) 4 16 (lit "wl_shm" ++ [x00])
           (lit "wl_shm") boot).
  - reflexivity.
  - cbn; lia.
  - lia.
  - vm_compute; discriminate.
  - split; vm_compute; [discriminate | reflexivity].
  - vm_compute; reflexivity.
Defined.

Lemma AppendWaylandString_no_room (buffer : list byte) (off cap : Z)
    (str s : list byte) (m : Machine) :
  cstr str = Some s ->
  zlen s + 1 <= 4294967292 ->
  0 <= off <= cap ->
  cap < 18446744073709551616 ->
  cap - off < RoundUp4 (zlen s + 1) + 4 ->
  AppendWaylandString buffer off cap str m
  = (Ok (0, buffer, off), emit (refusal_line (cap - off)) m).
Proof.
  intros Hc Hlen H0 Hcap Hroom.
  assert (HP := RoundUp4_bounds (zlen s + 1)
                  ltac:(unfold zlen in *; lia)).
  unfold AppendWaylandString, bind, mem, ret, strlen. rewrite Hc.
  set (P := RoundUp4 (zlen s + 1)) in *.
  rewrite (u64_id (cap - off)) by lia. rewrite (u64_id (P + 4)) by lia.
  replace (P + 4 >? cap - off) with true
    by (symmetry; rewrite Z.gtb_ltb; apply Z.ltb_lt; lia).
  reflexivity.
Qed.

(** X5. When the string with its length field does not fit between the
    offset and the capacity, [AppendWaylandString] prints the room that is
    left and returns 0; it writes nothing and leaves the offset where it
    was. *)
Theorem AppendWaylandString_refuses (buffer : list byte) (off cap : Z)
    (str s : list byte) (m : Machine) :
  cstr str = Some s ->
  zlen s + 1 <= 4294967292 ->
  0 <= off <= cap ->
  cap < 18446744073709551616 ->
  cap - off < RoundUp4 (zlen s + 1) + 4 ->
  AppendWaylandString buffer off cap str m
  = (Ok (0, buffer, off), emit (refusal_line (cap - off)) m).
Proof. exact (AppendWaylandString_no_room buffer off cap str s m). Qed.

Lemma AppendWaylandString_refuses_witness :
  AppendWaylandString (repeat xcc 16) 4 12 (lit "wl_shm" ++ [x00]) boot
  = (Ok (0, repeat xcc 16, 4), emit (refusal_line (12 - 4)) boot).
Proof.
  apply (AppendWaylandString_refuses (repeat xcc 16) 4 12
           (lit "wl_shm" ++ [x00]) (lit "wl_shm") boot).
  - reflexivity.
  - cbn; lia.
  - lia.
  - lia.
  - vm_compute; reflexivity.
Defined.

(** X6. The capacity check subtracts the offset from the capacity as
    unsigned numbers.  With the offset already past the capacity the
    difference wraps around to a huge value, nothing is refused, and the
    string is written beyond the stated capacity wherever the array itself
    still has room. *)
Theorem AppendWaylandString_past_capacity (buffer : list byte) (off cap : Z)
    (str s : list byte) (m : Machine) :
  cstr str = Some s ->
  zlen s + 1 <= 4294967292 ->
  0 <= cap < off ->
  off + 4 + RoundUp4 (zlen s + 1) <= zlen buffer ->
  zlen buffer < 9223372036854775808 ->
  exists buffer',
    AppendWaylandString buffer off cap str m
    = (Ok (1, buffer', off + 4 + RoundUp4 (zlen s + 1)), m) /\
    store buffer off
      (u32_bytes (zlen s + 1)
       ++ s ++ repeat x00 (Z.to_nat (RoundUp4 (zlen s + 1) - zlen s)))
    = Some buffer'.
Proof.
  intros Hc Hlen Hcap Hb Hbig.
  assert (HP := RoundUp4_bounds (zlen s + 1)
                  ltac:(unfold zlen in *; lia)).
  pose proof (RoundUp4_range (zlen s + 1)) as HR.
  apply AppendWaylandString_writes; try assumption; try lia.
  unfold u64.
  replace ((cap - off) mod 18446744073709551616)
    with (cap - off + 18446744073709551616).
  - lia.
  - apply Z.mod_unique with (q := -1); lia.
Qed.

Lemma AppendWaylandString_past_capacity_witness :
  exists buffer',
    AppendWaylandString (repeat xcc 16) 4 2 (lit "wl_shm" ++ [x00]) boot
    = (Ok (1, buffer', 4 + 4 + RoundUp4 (zlen (lit "wl_shm") + 1)), boot) /\
    store (repeat xcc 16) 4
      (u32_bytes (zlen (lit "wl_shm") + 1)
       ++ lit "wl_shm"
       ++ repeat x00 (Z.to_nat (RoundUp4 (zlen (lit "wl_shm") + 1)
                                - zlen (lit "wl_shm"))))
    = Some buffer'.
Proof.
  apply (AppendWaylandString_past_capacity (repeat xcc 16) 4 2
           (lit "wl_shm" ++ [x00]) (lit "wl_shm") boot).
  - reflexivity.
  - cbn; lia.
  - lia.
  - vm_compute; discriminate.
  - vm_compute; reflexivity.
Defined.

(** ** Running the monad *)

Lemma bind_Ok {A B} (c : M A) (k : A -> M B) (m m1 : Machine) (a : A) :
  c m = (Ok a, m1) -> bind c k m = k a m1.
Proof. intros H. unfold bind. now rewrite H. Qed.

Lemma bind_mem_Some {A B} (o : option A) (k : A -> M B) (m : Machine)
    (a : A) :
  o = Some a -> bind (mem o) k m = k a m.
Proof. now intros ->. Qed.

Lemma bind_mem_None {A B} (o : option A) (k : A -> M B) (m : Machine) :
  o = None -> bind (mem o) k m = (Fault, m).
Proof. now intros ->. Qed.

Lemma bind_get_app {B} (k : ApplicationState -> M B) (m : Machine) :
  bind get_app k m = k (app m) m.
Proof. reflexivity. Qed.

Lemma bind_io {B} (ev : IOEvent) (k : unit -> M B) (m : Machine) :
  bind (io ev) k m = k tt (emit ev m).
Proof. reflexivity. Qed.

Lemma bind_ret {A B} (a : A) (k : A -> M B) (m : Machine) :
  bind (ret a) k m = k a m.
Proof. reflexivity. Qed.

Lemma bind_Fault {A B} (c : M A) (k : A -> M B) (m m1 : Machine) :
  c m = (Fault, m1) -> bind c k m = (Fault, m1).
Proof. intros H. unfold bind. now rewrite H. Qed.

Lemma returned {A} (x : result A * Machine) (a : A) :
  fst x = Ok a -> x = (Ok a, snd x).
Proof. destruct x as [r m]. cbn. now intros ->. Qed.

Lemma store_outside (buf : list byte) (off : Z) (bs : list byte) :
  zlen buf < off + zlen bs -> store buf off bs = None.
Proof.
  intros H. unfold store.
  replace (off + zlen bs <=? zlen buf) with false
    by (symmetry; apply Z.leb_gt; exact H).
  now rewrite andb_false_r.
Qed.

Lemma AppendUint32_inside (buf : list byte) (off v : Z) :
  0 <= off -> off + 4 <= zlen buf -> off + 4 < 18446744073709551616 ->
  exists buf',
    AppendUint32 buf off v = Some (buf', off + 4) /\
    store buf off (u32_bytes (u32 v)) = Some buf'.
Proof.
  intros H0 H1 H2. unfold AppendUint32.
  destruct (store_ok buf off (u32_bytes (u32 v))) as [b S]; [lia | exact H1 |].
  exists b. rewrite S, u64_id by lia. now split.
Qed.

Lemma AppendUint32_outside (buf : list byte) (off v : Z) :
  zlen buf < off + 4 -> AppendUint32 buf off v = None.
Proof.
  intros H. unfold AppendUint32. now rewrite store_outside by exact H.
Qed.

Lemma local_array_length (env : Env) (n : nat) :
  zlen (local_array env n) = Z.of_nat n.
Proof. unfold zlen, local_array. now rewrite repeat_length. Qed.

(** ** Sending a request *)

Lemma payload_bytes_length (msg : ParsedWaylandEvent) :
  well_formed_message msg -> zlen (payload_bytes msg) = payload_size msg.
Proof.
  unfold well_formed_message, payload_bytes, zlen.
  intros (_ & _ & Hps & Hp). destruct (payload msg) as [view|].
  - rewrite length_firstn. unfold zlen in Hp. lia.
  - cbn. lia.
Qed.

Lemma wire_bytes_length (msg : ParsedWaylandEvent) :
  well_formed_message msg -> zlen (wire_bytes msg) = 8 + payload_size msg.
Proof.
  intros H. pose proof (payload_bytes_length msg H) as HL.
  unfold wire_bytes, zlen in *. rewrite !length_app, !u32_bytes_length. lia.
Qed.

Lemma RoundUp4_aligned (v : Z) :
  0 <= v <= 4294967292 -> v mod 4 = 0 -> RoundUp4 v = v.
Proof.
  intros H Hm. rewrite RoundUp4_small by exact H.
  Z.div_mod_to_equations. lia.
Qed.

(** [WriteWaylandMessage] into a fresh local array, for a message whose
    payload is a whole number of words and fits: the offset it returns and
    the bytes that are then sent from the array. *)
Lemma WriteWaylandMessage_aligned (env : Env) (cap : nat)
    (msg : ParsedWaylandEvent) :
  well_formed_message msg ->
  payload_size msg mod 4 = 0 ->
  8 + payload_size msg <= Z.of_nat cap ->
  Z.of_nat cap < 4294967296 ->
  exists buffer,
    WriteWaylandMessage (local_array env cap) 0 msg
    = Some (buffer, 8 + payload_size msg) /\
    load buffer 0 (Z.to_nat (8 + payload_size msg)) = Some (wire_bytes msg).
Proof.
  intros Hwf Hal Hcap Hbig.
  pose proof (wire_bytes_length msg Hwf) as HL.
  pose proof (payload_bytes_length msg Hwf) as HPL.
  assert (Hps : 0 <= payload_size msg) by (destruct Hwf as (_ & _ & ? & _); lia).
  rewrite (WriteWaylandMessage_at_start (local_array env cap) msg Hwf
             ltac:(rewrite local_array_length; lia)).
  eexists. split.
  - f_equal. f_equal.
    destruct (payload_size msg >? 0) eqn:E.
    + rewrite RoundUp4_aligned by lia. rewrite u64_id; lia.
    + rewrite Z.gtb_ltb in E. apply Z.ltb_ge in E. lia.
  - rewrite load_prefix.
    + f_equal.
      replace (Z.to_nat (8 + payload_size msg))
        with (List.length (wire_bytes msg)) by (unfold zlen in HL; lia).
      unfold wire_bytes. rewrite !app_assoc.
      rewrite firstn_app, firstn_all, Nat.sub_diag. cbn [firstn].
      now rewrite app_nil_r.
    + unfold zlen in *. rewrite !length_app, !u32_bytes_length. lia.
Qed.

(** What [write_and_send] does with such a message. *)
Lemma write_and_send_aligned (env : Env) (cap : nat)
    (msg : ParsedWaylandEvent) (flags : Z) (m : Machine) :
  well_formed_message msg ->
  payload_size msg mod 4 = 0 ->
  8 + payload_size msg <= Z.of_nat cap ->
  Z.of_nat cap < 4294967296 ->
  write_and_send env cap msg flags m
  = (Ok (u64 (send_result env (trace m) (wire_bytes msg))
         =? zlen (wire_bytes msg)),
     emit (Send (socket_fd (app m)) (wire_bytes msg) flags) m).
Proof.
  intros Hwf Hal Hcap Hbig.
  destruct (WriteWaylandMessage_aligned env cap msg Hwf Hal Hcap Hbig)
    as [buffer [HW HLd]].
  unfold write_and_send. rewrite bind_get_app.
  rewrite (bind_mem_Some _ _ _ _ HW). cbv beta iota.
  unfold send.
  rewrite (bind_Ok _ _ _ _ _ (bind_mem_Some _ _ _ _ HLd)).
  cbv beta iota. unfold ret.
  rewrite (wire_bytes_length msg Hwf). reflexivity.
Qed.

(** ** Binding a global *)

Section Bind.

Variable env : Env.

(** X7. An interface name of 240 bytes or more is refused: [WaylandRegistryBind]
    returns 0 and sends nothing, but the identifier it allocated first is
    used up. *)
Theorem WaylandRegistryBind_name_too_long (name : Z) (interface s : list byte)
    (version : Z) (m : Machine) :
  cstr interface = Some s ->
  240 <= zlen s <= 4294967291 ->
  0 <= next_id m < MAX_CLIENT_ID ->
  WaylandRegistryBind env name interface version m
  = (Ok 0,
     emit copy_error_line
       (emit (refusal_line 244) (with_next_id (next_id m + 1) m))).
Proof.
  intros Hc Hlen Hid. unfold WaylandRegistryBind.
  rewrite (bind_Ok _ _ _ _ _ (NextWaylandID_ok m Hid)).
  destruct (AppendUint32_inside (local_array env 248) 0 name)
    as [p1 [A1 S1]]; [lia | rewrite local_array_length; lia | lia |].
  rewrite (bind_mem_Some _ _ _ _ A1). cbv beta iota.
  assert (HP := RoundUp4_bounds (zlen s + 1) ltac:(lia)).
  rewrite (bind_Ok _ _ _ _ _
             (AppendWaylandString_no_room p1 (0 + 4) 248 interface s _
                Hc ltac:(lia) ltac:(lia) ltac:(lia) ltac:(lia))).
  reflexivity.
Qed.

(** X8. An interface name of 232 to 239 bytes passes the capacity check of
    [AppendWaylandString] but leaves fewer than 8 bytes of the 248-byte
    payload array for the version and the new identifier:
    [WaylandRegistryBind] then writes past the end of the array. *)
Theorem WaylandRegistryBind_overruns_payload (name : Z)
    (interface s : list byte) (version : Z) (m : Machine) :
  cstr interface = Some s ->
  232 <= zlen s <= 239 ->
  0 <= next_id m < MAX_CLIENT_ID ->
  WaylandRegistryBind env name interface version m
  = (Fault, with_next_id (next_id m + 1) m).
Proof.
  intros Hc Hlen Hid. unfold WaylandRegistryBind.
  rewrite (bind_Ok _ _ _ _ _ (NextWaylandID_ok m Hid)).
  destruct (AppendUint32_inside (local_array env 248) 0 name)
    as [p1 [A1 S1]]; [lia | rewrite local_array_length; lia | lia |].
  pose proof (store_length _ _ _ _ S1) as L1.
  assert (Lp1 : zlen p1 = 248)
    by (unfold zlen in *; rewrite L1; apply local_array_length).
  rewrite (bind_mem_Some _ _ _ _ A1). cbv beta iota.
  assert (HP := RoundUp4_bounds (zlen s + 1) ltac:(lia)).
  assert (HM := RoundUp4_mod4 (zlen s + 1) ltac:(lia)).
  set (P := RoundUp4 (zlen s + 1)) in *.
  assert (HP' : P = 236 \/ P = 240) by (Z.div_mod_to_equations; lia).
  destruct (AppendWaylandString_fits p1 (0 + 4) 248 interface s
              (with_next_id (next_id m + 1) m) Hc)
    as [p2 [A2 S2]]; try (fold P; lia).
  fold P in A2. rewrite (bind_Ok _ _ _ _ _ A2). cbv beta iota.
  change (1 =? 0) with false. cbv iota.
  pose proof (store_length _ _ _ _ S2) as L2.
  assert (Lp2 : zlen p2 = 248) by (unfold zlen in *; lia).
  destruct HP' as [HP'|HP'].
  - destruct (AppendUint32_inside p2 (0 + 4 + 4 + P) version)
      as [p3 [A3 S3]]; [lia | lia | lia |].
    pose proof (store_length _ _ _ _ S3) as L3.
    rewrite (bind_mem_Some _ _ _ _ A3). cbv beta iota.
    apply bind_mem_None, AppendUint32_outside. unfold zlen in *. lia.
  - apply bind_mem_None, AppendUint32_outside. lia.
Qed.

End Bind.

Lemma store_chain (buf : list byte) (off : Z) (a c b1 b2 : list byte)
    (off' : Z) :
  store buf off a = Some b1 ->
  store b1 off' c = Some b2 ->
  off' = off + zlen a ->
  store buf off (a ++ c) = Some b2.
Proof.
  intros S1 S2 ->. now rewrite <- (store_store_adjacent _ _ _ _ _ S1).
Qed.

Lemma Some_eq {A} (a b : A) : Some a = Some b -> a = b.
Proof. now intros [=]. Qed.

Lemma wire_bytes_ext (m1 m2 : ParsedWaylandEvent) :
  object_id m1 = object_id m2 -> opcode m1 = opcode m2 ->
  payload_size m1 = payload_size m2 -> payload_bytes m1 = payload_bytes m2 ->
  wire_bytes m1 = wire_bytes m2.
Proof. unfold wire_bytes. now intros -> -> -> ->. Qed.

Section BindSends.

Variable env : Env.

Lemma WaylandRegistryBind_request (name : Z) (interface s : list byte)
    (version : Z) (m : Machine) :
  cstr interface = Some s ->
  zlen s <= 231 ->
  0 <= next_id m < MAX_CLIENT_ID ->
  0 <= registry_id (app m) < 4294967296 ->
  WaylandRegistryBind env name interface version m
  = let data := bind_request (registry_id (app m)) name s version
                  (next_id m + 1) in
    let m' := emit (Send (socket_fd (app m)) data 0)
                (with_next_id (next_id m + 1) m) in
    if u64 (send_result env (trace m) data) =? zlen data
    then (Ok (next_id m + 1), m')
    else (Ok 0, emit bind_send_error_line m').
Proof.
  intros Hc Hlen Hid Hreg. cbv zeta. unfold WaylandRegistryBind.
  assert (Hs0 : 0 <= zlen s) by (unfold zlen; lia).
  rewrite (bind_Ok _ _ _ _ _ (NextWaylandID_ok m Hid)).
  set (m1 := with_next_id (next_id m + 1) m).
  destruct (AppendUint32_inside (local_array env 248) 0 name)
    as [p1 [A1 S1]]; [lia | rewrite local_array_length; lia | lia |].
  pose proof (store_length _ _ _ _ S1) as L1.
  assert (Lj : zlen (local_array env 248) = 248)
    by apply local_array_length.
  assert (Lp1 : zlen p1 = 248) by (unfold zlen in *; lia).
  rewrite (bind_mem_Some _ _ _ _ A1). cbv beta iota.
  assert (HP := RoundUp4_bounds (zlen s + 1) ltac:(lia)).
  assert (HM := RoundUp4_mod4 (zlen s + 1) ltac:(lia)).
  set (P := RoundUp4 (zlen s + 1)) in *.
  assert (HP' : P <= 232) by (Z.div_mod_to_equations; lia).
  destruct (AppendWaylandString_fits p1 (0 + 4) 248 interface s m1 Hc)
    as [p2 [A2 S2]]; try (fold P; lia).
  fold P in A2, S2. rewrite (bind_Ok _ _ _ _ _ A2). cbv beta iota.
  change (1 =? 0) with false. cbv iota.
  pose proof (store_length _ _ _ _ S2) as L2.
  assert (Lp2 : zlen p2 = 248) by (unfold zlen in *; lia).
  destruct (AppendUint32_inside p2 (0 + 4 + 4 + P) version)
    as [p3 [A3 S3]]; [lia | lia | lia |].
  pose proof (store_length _ _ _ _ S3) as L3.
  assert (Lp3 : zlen p3 = 248) by (unfold zlen in *; lia).
  rewrite (bind_mem_Some _ _ _ _ A3). cbv beta iota.
  destruct (AppendUint32_inside p3 (0 + 4 + 4 + P + 4) (next_id m + 1))
    as [p4 [A4 S4]]; [lia | lia | lia |].
  rewrite (bind_mem_Some _ _ _ _ A4). cbv beta iota.
  rewrite bind_get_app.
  set (N := u32_bytes (u32 name)) in *.
  set (STR := u32_bytes (zlen s + 1) ++ s
              ++ repeat x00 (Z.to_nat (P - zlen s))) in *.
  set (V := u32_bytes (u32 version)) in *.
  set (I := u32_bytes (u32 (next_id m + 1))) in *.
  assert (LSTR : zlen STR = 4 + P).
  { unfold STR, zlen. rewrite !length_app, repeat_length, u32_bytes_length.
    unfold zlen in *. lia. }
  assert (LN : zlen N = 4) by reflexivity.
  assert (LV : zlen V = 4) by reflexivity.
  assert (LI : zlen I = 4) by reflexivity.
  assert (S12 : store (local_array env 248) 0 (N ++ STR) = Some p2)
    by (apply (store_chain _ _ _ _ _ _ _ S1 S2); reflexivity).
  assert (S123 : store (local_array env 248) 0 ((N ++ STR) ++ V) = Some p3).
  { apply (store_chain _ _ _ _ _ _ _ S12 S3).
    unfold zlen in *. rewrite length_app. lia. }
  assert (S1234 : store (local_array env 248) 0 (((N ++ STR) ++ V) ++ I)
                  = Some p4).
  { apply (store_chain _ _ _ _ _ _ _ S123 S4).
    unfold zlen in *. rewrite !length_app. lia. }
  assert (Lall : zlen (((N ++ STR) ++ V) ++ I) = 16 + P)
    by (unfold zlen in *; rewrite !length_app; lia).
  rewrite store_at_start in S1234 by lia.
  apply Some_eq in S1234. rename S1234 into Hp4.
  rewrite (u16_id (0 + 4 + 4 + P + 4 + 4)) by lia.
  set (msg := {| object_id := registry_id (app m1);
                 opcode := WAYLAND_REGISTRY_BIND_OPCODE;
                 payload_size := 0 + 4 + 4 + P + 4 + 4;
                 payload := Some p4 |}).
  assert (Hpb : payload_bytes msg = ((N ++ STR) ++ V) ++ I).
  { unfold payload_bytes, msg. cbn [payload payload_size]. rewrite <- Hp4.
    replace (Z.to_nat (0 + 4 + 4 + P + 4 + 4))
      with (List.length (((N ++ STR) ++ V) ++ I))
      by (unfold zlen in Lall; lia).
    rewrite firstn_app, firstn_all, Nat.sub_diag. cbn [firstn].
    apply app_nil_r. }
  assert (Hwf : well_formed_message msg).
  { unfold well_formed_message, msg.
    cbn [object_id opcode payload_size payload].
    unfold WAYLAND_REGISTRY_BIND_OPCODE.
    pose proof (store_length _ _ _ _ S4). unfold zlen in *.
    repeat split; try lia; apply Hreg. }
  assert (Hw : wire_bytes msg
               = bind_request (registry_id (app m)) name s version
                   (next_id m + 1)).
  { unfold bind_request. apply wire_bytes_ext; try reflexivity.
    - cbn [payload_size msg]. fold P. lia.
    - rewrite Hpb. unfold payload_bytes.
      cbn [payload payload_size]. fold P. fold N. fold STR. fold V. fold I.
      replace (Z.to_nat (16 + P))
        with (List.length (N ++ STR ++ V ++ I))
        by (unfold zlen in *; rewrite !length_app; lia).
      rewrite firstn_all. now rewrite <- !app_assoc. }
  rewrite (bind_Ok _ _ _ _ _
             (write_and_send_aligned env 256 msg 0 m1 Hwf
                ltac:(cbn [payload_size msg]; Z.div_mod_to_equations; lia)
                ltac:(cbn [payload_size msg]; lia) ltac:(lia))).
  rewrite Hw. cbv beta iota.
  change (trace m1) with (trace m). change (app m1) with (app m).
  destruct (u64 (send_result env (trace m)
                   (bind_request (registry_id (app m)) name s version
                      (next_id m + 1)))
            =? zlen (bind_request (registry_id (app m)) name s version
                       (next_id m + 1))); reflexivity.
Qed.

(** X9. For an interface name of at most 231 bytes [WaylandRegistryBind]
    allocates the next identifier and sends one bind request to the
    registry: the numeric name, the interface string with its length and
    padding, the version and the new identifier.  It returns the new
    identifier when [send] reports all bytes sent, and 0 after printing an
    error otherwise; the identifier is used up in both cases. *)
Theorem WaylandRegistryBind_sends (name : Z) (interface s : list byte)
    (version : Z) (m : Machine) :
  cstr interface = Some s ->
  zlen s <= 231 ->
  0 <= next_id m < MAX_CLIENT_ID ->
  0 <= registry_id (app m) < 4294967296 ->
  WaylandRegistryBind env name interface version m
  = let data := bind_request (registry_id (app m)) name s version
                  (next_id m + 1) in
    let m' := emit (Send (socket_fd (app m)) data 0)
                (with_next_id (next_id m + 1) m) in
    if u64 (send_result env (trace m) data) =? zlen data
    then (Ok (next_id m + 1), m')
    else (Ok 0, emit bind_send_error_line m').
Proof. exact (WaylandRegistryBind_request name interface s version m). Qed.

End BindSends.

(** ** Requests with word arguments *)

Lemma u32_array_length (args : list Z) :
  zlen (u32_array args) = 4 * Z.of_nat (List.length args).
Proof.
  unfold zlen, u32_array. induction args as [|a args IH]; [reflexivity|].
  cbn [flat_map]. rewrite length_app, u32_bytes_length.
  change (List.length (a :: args)) with (S (List.length args)). lia.
Qed.

Lemma request_message (oid op : Z) (args : list Z) :
  0 <= oid < 4294967296 ->
  0 <= op < 65536 ->
  let msg := {| object_id := oid; opcode := op;
                payload_size := 4 * Z.of_nat (List.length args);
                payload := Some (u32_array args) |} in
  well_formed_message msg /\ wire_bytes msg = request oid op args.
Proof.
  intros Hoid Hop msg. split.
  - unfold well_formed_message, msg.
    cbn [object_id opcode payload_size payload].
    rewrite u32_array_length. lia.
  - unfold request. apply wire_bytes_ext; try reflexivity.
    + cbn [payload_size msg]. now rewrite u32_array_length.
    + unfold payload_bytes. cbn [payload payload_size msg].
      now rewrite u32_array_length.
Qed.

(** What [write_and_send] does with a request whose payload is an array of
    words. *)
Lemma write_and_send_request (env : Env) (cap : nat) (oid op : Z)
    (args : list Z) (flags : Z) (m : Machine) :
  0 <= oid < 4294967296 ->
  0 <= op < 65536 ->
  8 + 4 * Z.of_nat (List.length args) <= Z.of_nat cap ->
  Z.of_nat cap < 4294967296 ->
  write_and_send env cap
    {| object_id := oid; opcode := op;
       payload_size := 4 * Z.of_nat (List.length args);
       payload := Some (u32_array args) |} flags m
  = (Ok (u64 (send_result env (trace m) (request oid op args))
         =? 8 + 4 * Z.of_nat (List.length args)),
     emit (Send (socket_fd (app m)) (request oid op args) flags) m).
Proof.
  intros Hoid Hop Hcap Hbig.
  destruct (request_message oid op args Hoid Hop) as [Hwf Hreq].
  rewrite (write_and_send_aligned env cap _ flags m Hwf);
    cbn [payload_size]; try lia.
  - rewrite (wire_bytes_length _ Hwf), Hreq. reflexivity.
  - Z.div_mod_to_equations. lia.
Qed.

Section Replies.

Variable env : Env.

Lemma SendXDGPong_spec (serial : Z) (m : Machine) :
  0 <= xdg_wm_base_id (app m) < 4294967296 ->
  SendXDGPong env serial m
  = let data := request (xdg_wm_base_id (app m)) 3 [serial] in
    let m' := emit (Send (socket_fd (app m)) data 0) m in
    if u64 (send_result env (trace m) data) =? 12 then (Ok 1, m')
    else (Ok 0, emit pong_error_line m').
Proof.
  intros H. unfold SendXDGPong. rewrite bind_get_app. cbv zeta.
  rewrite (bind_Ok _ _ _ _ _
             (write_and_send_request env 128 (xdg_wm_base_id (app m)) 3
                [serial] 0 m H ltac:(lia) ltac:(cbn; lia) ltac:(cbn; lia))).
  change (8 + 4 * Z.of_nat (List.length [serial])) with 12.
  now destruct (u64 (send_result env (trace m)
                       (request (xdg_wm_base_id (app m)) 3 [serial])) =? 12).
Qed.

Lemma AckXDGSurfaceConfigure_spec (serial : Z) (m : Machine) :
  0 <= xdg_surface_id (app m) < 4294967296 ->
  AckXDGSurfaceConfigure env serial m
  = let data := request (xdg_surface_id (app m)) 4 [serial] in
    let m' := emit (Send (socket_fd (app m)) data 0) m in
    if u64 (send_result env (trace m) data) =? 12 then (Ok 1, m')
    else (Ok 0, emit ack_error_line m').
Proof.
  intros H. unfold AckXDGSurfaceConfigure. rewrite bind_get_app. cbv zeta.
  rewrite (bind_Ok _ _ _ _ _
             (write_and_send_request env 64 (xdg_surface_id (app m)) 4
                [serial] 0 m H ltac:(lia) ltac:(cbn; lia) ltac:(cbn; lia))).
  change (8 + 4 * Z.of_nat (List.length [serial])) with 12.
  now destruct (u64 (send_result env (trace m)
                       (request (xdg_surface_id (app m)) 4 [serial])) =? 12).
Qed.

Lemma read_u32_at_start (view : list byte) (m : Machine) :
  4 <= zlen view ->
  read_u32_at (Some view) 0 m = (Ok (bytes_u32 (firstn 4 view)), m).
Proof.
  intros H. unfold read_u32_at, deref, ReadUint32.
  rewrite (bind_mem_Some _ _ _ _ eq_refl).
  change 4%nat with (Z.to_nat 4). rewrite load_prefix by lia.
  reflexivity.
Qed.

(** X10. A ping from the shell base with a four-byte payload is answered
    with one pong request (opcode 3) for the same object that carries the
    serial of the ping.  The handler returns 1 when [send] reports the 12
    bytes sent and 0 after an error line otherwise; the application state
    is not touched. *)
Theorem ping_is_answered (e : ParsedWaylandEvent) (view : list byte)
    (m : Machine) :
  is_registry_global (app m) e = false ->
  is_display_error e = false ->
  is_ping (app m) e = true ->
  payload_size e = 4 ->
  payload e = Some view ->
  4 <= zlen view ->
  0 <= xdg_wm_base_id (app m) < 4294967296 ->
  HandleWaylandEvent env e m
  = let data := request (xdg_wm_base_id (app m)) 3
                  [bytes_u32 (firstn 4 view)] in
    let m' := emit (Send (socket_fd (app m)) data 0) m in
    if u64 (send_result env (trace m) data) =? 12 then (Ok 1, m')
    else (Ok 0, emit pong_error_line m').
Proof.
  intros G1 G2 G3 Hps Hp Hv Hid.
  unfold HandleWaylandEvent. rewrite bind_get_app, G1, G2, G3, Hps, Hp.
  change (negb (4 =? 4)) with false. cbv iota.
  rewrite (bind_Ok _ _ _ _ _ (read_u32_at_start view m Hv)).
  now apply SendXDGPong_spec.
Qed.

(** X11. A configure event for the shell surface with a four-byte payload
    is acknowledged with one ack_configure request (opcode 4) for the same
    object that carries the serial of the event.  When [send] reports the
    12 bytes sent the surface state becomes [ACKED_CONFIGURE] and the
    handler returns 1; otherwise it returns 0 after an error line and the
    surface state stays as it was. *)
Theorem configure_is_acknowledged (e : ParsedWaylandEvent) (view : list byte)
    (m : Machine) :
  is_registry_global (app m) e = false ->
  is_display_error e = false ->
  is_ping (app m) e = false ->
  is_surface_configure (app m) e = true ->
  payload_size e = 4 ->
  payload e = Some view ->
  4 <= zlen view ->
  0 <= xdg_surface_id (app m) < 4294967296 ->
  HandleWaylandEvent env e m
  = let data := request (xdg_surface_id (app m)) 4
                  [bytes_u32 (firstn 4 view)] in
    let m' := emit (Send (socket_fd (app m)) data 0) m in
    if u64 (send_result env (trace m) data) =? 12
    then (Ok 1, with_app (set_surface_state ACKED_CONFIGURE (app m)) m')
    else (Ok 0, emit ack_error_line m').
Proof.
  intros G1 G2 G3 G4 Hps Hp Hv Hid.
  unfold HandleWaylandEvent. rewrite bind_get_app, G1, G2, G3, G4, Hps, Hp.
  change (negb (4 =? 4)) with false. cbv iota.
  rewrite (bind_Ok _ _ _ _ _ (read_u32_at_start view m Hv)).
  unfold bind at 1. rewrite (AckXDGSurfaceConfigure_spec _ m Hid). cbv zeta.
  now destruct (u64 (send_result env (trace m)
                       (request (xdg_surface_id (app m)) 4
                          [bytes_u32 (firstn 4 view)])) =? 12).
Qed.

(** X12. The three handlers that expect one 32-bit argument check the
    payload size before they read: a ping, a shell-surface configure or a
    pixel-format event with any other payload size makes
    [HandleWaylandEvent] print a line and return 0, without a read, a
    request or a change of state. *)
Theorem one_word_events_are_size_checked (e : ParsedWaylandEvent)
    (m : Machine) :
  is_registry_global (app m) e = false ->
  is_display_error e = false ->
  is_ping (app m) e || is_surface_configure (app m) e
  || (negb (is_toplevel_configure (app m) e) && is_shm_format (app m) e)
  = true ->
  payload_size e <> 4 ->
  exists fmt,
    HandleWaylandEvent env e m
    = (Ok 0, emit (Printf fmt [AInt (payload_size e)]) m).
Proof.
  intros G1 G2 G Hps.
  unfold HandleWaylandEvent. rewrite bind_get_app, G1, G2.
  replace (negb (payload_size e =? 4)) with true
    by (symmetry; apply negb_true_iff, Z.eqb_neq; exact Hps).
  destruct (is_ping (app m) e); [eexists; reflexivity|].
  destruct (is_surface_configure (app m) e); [eexists; reflexivity|].
  destruct (is_toplevel_configure (app m) e); [discriminate|].
  cbn [orb negb andb] in G. rewrite G. eexists; reflexivity.
Qed.

End Replies.

(** ** Creating the surface and the buffers *)

Lemma request_length (oid op : Z) (args : list Z) :
  zlen (request oid op args) = 8 + 4 * Z.of_nat (List.length args).
Proof.
  unfold request, wire_bytes, payload_bytes.
  cbn [object_id opcode payload_size payload].
  pose proof (u32_array_length args) as H. unfold zlen in *.
  rewrite !length_app, !u32_bytes_length, Nat2Z.id, firstn_all. lia.
Qed.

Section Surface.

Variable env : Env.
Hypothesis Hsend : sends_all env.

Lemma write_and_send_request_ok (cap : nat) (oid op : Z) (args : list Z)
    (flags : Z) (m : Machine) :
  0 <= oid < 4294967296 ->
  0 <= op < 65536 ->
  8 + 4 * Z.of_nat (List.length args) <= Z.of_nat cap ->
  Z.of_nat cap < 4294967296 ->
  write_and_send env cap
    {| object_id := oid; opcode := op;
       payload_size := 4 * Z.of_nat (List.length args);
       payload := Some (u32_array args) |} flags m
  = (Ok true, emit (Send (socket_fd (app m)) (request oid op args) flags) m).
Proof.
  intros H1 H2 H3 H4. rewrite write_and_send_request by assumption.
  rewrite Hsend by (rewrite request_length; lia).
  rewrite request_length. now rewrite Z.eqb_refl.
Qed.

Lemma bind_modify_app {B} (f : ApplicationState -> ApplicationState)
    (k : unit -> M B) (m : Machine) :
  bind (modify_app f) k m = k tt (with_app (f (app m)) m).
Proof. reflexivity. Qed.

Lemma CreateWLSurface_ok (m : Machine) :
  0 <= next_id m < MAX_CLIENT_ID ->
  0 <= compositor_id (app m) < 4294967296 ->
  CreateWLSurface env m
  = (Ok 1,
     emit (surface_id_line (next_id m + 1))
       (emit (Send (socket_fd (app m))
                (request (compositor_id (app m)) 0 [next_id m + 1]) 0)
          (with_app (set_surface_id (next_id m + 1) (app m))
             (with_next_id (next_id m + 1) m)))).
Proof.
  intros Hid Hc. unfold CreateWLSurface.
  rewrite (bind_Ok _ _ _ _ _ (NextWaylandID_ok m Hid)).
  rewrite bind_modify_app, bind_get_app. cbv zeta.
  cbn [app with_app with_next_id surface_id set_surface_id compositor_id].
  rewrite (bind_Ok _ _ _ _ _
    (write_and_send_request_ok 64 (compositor_id (app m)) 0
       [next_id m + 1] 0 _ Hc ltac:(lia) ltac:(cbn; lia) ltac:(cbn; lia))).
  reflexivity.
Qed.

Lemma CreateXDGSurface_ok (m : Machine) :
  0 <= next_id m < MAX_CLIENT_ID ->
  0 <= xdg_wm_base_id (app m) < 4294967296 ->
  CreateXDGSurface env m
  = (Ok 1,
     emit (xdg_surface_id_line (next_id m + 1))
       (emit (Send (socket_fd (app m))
                (request (xdg_wm_base_id (app m)) 2
                   [next_id m + 1; surface_id (app m)]) 0)
          (with_app (set_xdg_surface_id (next_id m + 1) (app m))
             (with_next_id (next_id m + 1) m)))).
Proof.
  intros Hid Hc. unfold CreateXDGSurface.
  rewrite (bind_Ok _ _ _ _ _ (NextWaylandID_ok m Hid)).
  rewrite bind_modify_app, bind_get_app. cbv zeta.
  cbn [app with_app with_next_id surface_id xdg_surface_id
       set_xdg_surface_id xdg_wm_base_id].
  rewrite (bind_Ok _ _ _ _ _
    (write_and_send_request_ok 64 (xdg_wm_base_id (app m)) 2
       [next_id m + 1; surface_id (app m)] 0 _ Hc ltac:(lia)
       ltac:(cbn; lia) ltac:(cbn; lia))).
  reflexivity.
Qed.

Lemma GetXDGTopLevel_ok (m : Machine) :
  0 <= next_id m < MAX_CLIENT_ID ->
  0 <= xdg_surface_id (app m) < 4294967296 ->
  GetXDGTopLevel env m
  = (Ok 1,
     emit (xdg_toplevel_id_line (next_id m + 1))
       (emit (Send (socket_fd (app m))
                (request (xdg_surface_id (app m)) 1 [next_id m + 1]) 0)
          (with_app (set_xdg_toplevel_id (next_id m + 1) (app m))
             (with_next_id (next_id m + 1) m)))).
Proof.
  intros Hid Hc. unfold GetXDGTopLevel.
  rewrite (bind_Ok _ _ _ _ _ (NextWaylandID_ok m Hid)).
  rewrite bind_modify_app, bind_get_app. cbv zeta.
  cbn [app with_app with_next_id xdg_surface_id xdg_toplevel_id
       set_xdg_toplevel_id].
  rewrite (bind_Ok _ _ _ _ _
    (write_and_send_request_ok 64 (xdg_surface_id (app m)) 1
       [next_id m + 1] 0 _ Hc ltac:(lia) ltac:(cbn; lia) ltac:(cbn; lia))).
  reflexivity.
Qed.

Lemma CreateSurface_ok (m : Machine) :
  0 <= next_id m ->
  next_id m + 3 <= MAX_CLIENT_ID ->
  0 <= compositor_id (app m) < 4294967296 ->
  0 <= xdg_wm_base_id (app m) < 4294967296 ->
  let n := next_id m in
  let fd := socket_fd (app m) in
  exists m',
    CreateSurface env m = (Ok 1, m') /\
    app m' = set_xdg_toplevel_id (n + 3)
               (set_xdg_surface_id (n + 2)
                  (set_surface_id (n + 1) (app m))) /\
    next_id m' = n + 3 /\
    trace m'
    = trace m
      ++ [Send fd (request (compositor_id (app m)) 0 [n + 1]) 0;
          surface_id_line (n + 1);
          Send fd (request (xdg_wm_base_id (app m)) 2 [n + 2; n + 1]) 0;
          xdg_surface_id_line (n + 2);
          Send fd (request (n + 2) 1 [n + 3]) 0;
          xdg_toplevel_id_line (n + 3)].
Proof.
  intros H0 Hmax Hc Hw. cbv zeta. unfold MAX_CLIENT_ID in *.
  unfold CreateSurface.
  rewrite (bind_Ok _ _ _ _ _
             (CreateWLSurface_ok m ltac:(unfold MAX_CLIENT_ID; lia) Hc)).
  change (1 =? 0) with false. cbv iota.
  erewrite bind_Ok;
    [|apply CreateXDGSurface_ok;
      cbn [app next_id emit with_app with_next_id xdg_wm_base_id
           set_surface_id]; unfold MAX_CLIENT_ID; lia].
  change (1 =? 0) with false. cbv iota.
  erewrite bind_Ok;
    [|apply GetXDGTopLevel_ok;
      cbn [app next_id emit with_app with_next_id xdg_surface_id
           set_xdg_surface_id]; unfold MAX_CLIENT_ID; lia].
  change (1 =? 0) with false. cbv iota.
  eexists. split; [reflexivity|].
  cbn [app emit with_app with_next_id next_id trace socket_fd surface_id
       xdg_surface_id set_surface_id set_xdg_surface_id set_xdg_toplevel_id].
  replace (next_id m + 1 + 1 + 1) with (next_id m + 3) by lia.
  replace (next_id m + 1 + 1) with (next_id m + 2) by lia.
  repeat split. now rewrite <- !app_assoc.
Qed.

(** X13. When every [send] goes through, [CreateSurface] takes the next
    three identifiers in order for the surface, the shell surface and the
    top-level object, and sends three requests in this order: create_surface
    to the compositor, get_xdg_surface (with the new surface) to the shell
    base, and get_toplevel to the new shell surface. *)
Theorem CreateSurface_sequence (m : Machine) :
  0 <= next_id m ->
  next_id m + 3 <= MAX_CLIENT_ID ->
  0 <= compositor_id (app m) < 4294967296 ->
  0 <= xdg_wm_base_id (app m) < 4294967296 ->
  let n := next_id m in
  let fd := socket_fd (app m) in
  exists m',
    CreateSurface env m = (Ok 1, m') /\
    app m' = set_xdg_toplevel_id (n + 3)
               (set_xdg_surface_id (n + 2)
                  (set_surface_id (n + 1) (app m))) /\
    next_id m' = n + 3 /\
    trace m'
    = trace m
      ++ [Send fd (request (compositor_id (app m)) 0 [n + 1]) 0;
          surface_id_line (n + 1);
          Send fd (request (xdg_wm_base_id (app m)) 2 [n + 2; n + 1]) 0;
          xdg_surface_id_line (n + 2);
          Send fd (request (n + 2) 1 [n + 3]) 0;
          xdg_toplevel_id_line (n + 3)].
Proof. exact (CreateSurface_ok m). Qed.

End Surface.

(** ** The shared-memory pool and the frame *)

Section Pool.

Variable env : Env.

Lemma CreateShmPool_passes_pool (m : Machine) :
  0 <= next_id m < MAX_CLIENT_ID ->
  0 <= shm_id (app m) < 4294967296 ->
  CreateShmPool env m
  = let pool := next_id m + 1 in
    let data := request (shm_id (app m)) 0
                  [pool; image_buffer_size (app m)] in
    let m1 := emit (HexDump data)
                (emit pool_announce_line (with_next_id pool m)) in
    let m2 := emit (SendMsg (socket_fd (app m)) data (shm_fd (app m))) m1 in
    if sendmsg_result env (trace m1) data <? 0
    then (Ok 0, emit pool_error_line (emit sendmsg_error_line m2))
    else (Ok 1, with_app (set_shm_pool_id pool (app m)) m2).
Proof.
  intros Hid Hs. cbv zeta. unfold CreateShmPool.
  rewrite (bind_Ok _ _ _ _ _ (NextWaylandID_ok m Hid)).
  rewrite bind_get_app. cbv zeta.
  cbn [app with_next_id].
  destruct (request_message (shm_id (app m)) 0
              [next_id m + 1; image_buffer_size (app m)] Hs ltac:(lia))
    as [Hwf Hreq].
  destruct (WriteWaylandMessage_aligned env 256 _ Hwf eq_refl
              ltac:(cbn; lia) ltac:(cbn; lia)) as [buffer [HW HLd]].
  rewrite Hreq in HLd.
  change (4 * Z.of_nat (List.length [next_id m + 1;
                                     image_buffer_size (app m)])) with 8
    in HW.
  cbn [payload_size] in HW, HLd. change (8 + 8) with 16 in HW, HLd.
  rewrite (bind_mem_Some _ _ _ _ HW). cbv beta iota.
  unfold SendMsgWithShmDescriptor at 1.
  unfold bind at 1. rewrite bind_get_app.
  cbn [app with_next_id].
  rewrite (bind_mem_Some _ _ _ _ HLd).
  unfold printf. rewrite !bind_io.
  unfold bind at 1.
  cbn [trace emit with_next_id app].
  destruct (sendmsg_result env _ _ <? 0); reflexivity.
Qed.

(** X14. [CreateShmPool] takes the next identifier for the pool and makes
    one [sendmsg] call: the create_pool request for the shared-memory
    factory (new identifier and buffer size), with the descriptor of the
    shared memory as ancillary data.  It records the pool and returns 1 for
    every non-negative result of [sendmsg], however few bytes that result
    reports; only a negative result makes it return 0, and then no pool is
    recorded. *)
Theorem CreateShmPool_passes_descriptor (m : Machine) :
  0 <= next_id m < MAX_CLIENT_ID ->
  0 <= shm_id (app m) < 4294967296 ->
  CreateShmPool env m
  = let pool := next_id m + 1 in
    let data := request (shm_id (app m)) 0
                  [pool; image_buffer_size (app m)] in
    let m1 := emit (HexDump data)
                (emit pool_announce_line (with_next_id pool m)) in
    let m2 := emit (SendMsg (socket_fd (app m)) data (shm_fd (app m))) m1 in
    if sendmsg_result env (trace m1) data <? 0
    then (Ok 0, emit pool_error_line (emit sendmsg_error_line m2))
    else (Ok 1, with_app (set_shm_pool_id pool (app m)) m2).
Proof. exact (CreateShmPool_passes_pool m). Qed.

End Pool.

(** ** Painting the frame *)

Lemma store_middle (pre old new post : list byte) :
  List.length old = List.length new ->
  store (pre ++ old ++ post) (zlen pre) new = Some (pre ++ new ++ post).
Proof.
  intros HL. rewrite store_in_range.
  - f_equal. unfold zlen. rewrite Nat2Z.id.
    rewrite firstn_app, firstn_all, Nat.sub_diag. cbn [firstn].
    rewrite app_nil_r. f_equal. f_equal.
    rewrite <- HL, app_assoc, <- length_app.
    rewrite skipn_app, skipn_all, Nat.sub_diag. reflexivity.
  - unfold zlen. lia.
  - unfold zlen. rewrite !length_app. lia.
Qed.

Lemma fill_row_step (n : nat) (x row_offset : Z) (img : list byte) :
  0 <= x -> 0 <= row_offset ->
  row_offset + 4 * x + 4 <= 4294967296 ->
  fill_row (S n) x row_offset img
  = match store img (row_offset + 4 * x) pixel with
    | Some img' => fill_row n (x + 1) row_offset img'
    | None => None
    end.
Proof.
  intros Hx Hr Hb. cbn [fill_row]. cbv zeta.
  rewrite (u32_id (x * 4)) by lia.
  rewrite (u32_id (row_offset + x * 4)) by lia.
  replace (row_offset + x * 4) with (row_offset + 4 * x) by lia.
  set (p := row_offset + 4 * x) in *.
  rewrite !u32_id by lia.
  destruct (store img p [xaa]) as [i1|] eqn:S1.
  - pose proof (store_store_adjacent img p [xaa] [x10] i1 S1) as A1.
    change (zlen [xaa]) with 1 in A1. rewrite A1.
    change ([xaa] ++ [x10]) with [xaa; x10].
    destruct (store img p [xaa; x10]) as [i2|] eqn:S2.
    + pose proof (store_store_adjacent img p [xaa; x10] [x55] i2 S2) as A2.
      change (zlen [xaa; x10]) with 2 in A2.
      rewrite A2. change ([xaa; x10] ++ [x55]) with [xaa; x10; x55].
      destruct (store img p [xaa; x10; x55]) as [i3|] eqn:S3.
      * pose proof (store_store_adjacent img p [xaa; x10; x55] [xff] i3 S3)
          as A3.
        change (zlen [xaa; x10; x55]) with 3 in A3.
        rewrite A3. reflexivity.
      * unfold store in S3 |- *.
        destruct ((0 <=? p) && (p + zlen [xaa; x10; x55] <=? zlen img)) eqn:E;
          [discriminate|].
        replace ((0 <=? p) && (p + zlen pixel <=? zlen img)) with false;
          [reflexivity|].
        symmetry. apply andb_false_iff. apply andb_false_iff in E.
        destruct E as [E|E]; [now left|right].
        apply Z.leb_gt in E. apply Z.leb_gt.
        change (zlen [xaa; x10; x55]) with 3 in E.
        change (zlen pixel) with 4. lia.
    + unfold store in S2 |- *.
      destruct ((0 <=? p) && (p + zlen [xaa; x10] <=? zlen img)) eqn:E;
        [discriminate|].
      replace ((0 <=? p) && (p + zlen pixel <=? zlen img)) with false;
        [reflexivity|].
      symmetry. apply andb_false_iff. apply andb_false_iff in E.
      destruct E as [E|E]; [now left|right].
      apply Z.leb_gt in E. apply Z.leb_gt.
      change (zlen [xaa; x10]) with 2 in E.
      change (zlen pixel) with 4. lia.
  - unfold store in S1 |- *.
    destruct ((0 <=? p) && (p + zlen [xaa] <=? zlen img)) eqn:E;
      [discriminate|].
    replace ((0 <=? p) && (p + zlen pixel <=? zlen img)) with false;
      [reflexivity|].
    symmetry. apply andb_false_iff. apply andb_false_iff in E.
    destruct E as [E|E]; [now left|right].
    apply Z.leb_gt in E. apply Z.leb_gt.
    change (zlen [xaa]) with 1 in E.
    change (zlen pixel) with 4. lia.
Qed.

Lemma fill_row_spec (n : nat) :
  forall (x row_offset : Z) (pre mid post : list byte),
    0 <= x -> 0 <= row_offset ->
    zlen pre = row_offset + 4 * x ->
    List.length mid = (4 * n)%nat ->
    zlen pre + 4 * Z.of_nat n <= 4294967296 ->
    fill_row n x row_offset (pre ++ mid ++ post)
    = Some (pre ++ List.concat (repeat pixel n) ++ post).
Proof.
  induction n as [|n IH]; intros x ro pre mid post Hx Hr Hpre Hmid Hb.
  - destruct mid; [reflexivity|discriminate].
  - destruct mid as [|a [|b [|c [|d mid]]]];
      try (exfalso; cbn [List.length] in Hmid; lia).
    rewrite fill_row_step by lia. rewrite <- Hpre.
    change (a :: b :: c :: d :: mid) with ([a; b; c; d] ++ mid).
    rewrite <- (app_assoc [a; b; c; d]).
    rewrite (store_middle pre [a; b; c; d] pixel (mid ++ post) eq_refl).
    rewrite (app_assoc pre pixel).
    rewrite (IH (x + 1) ro (pre ++ pixel) mid post).
    + rewrite <- app_assoc. reflexivity.
    + lia.
    + exact Hr.
    + unfold zlen in *. rewrite length_app. cbn [List.length pixel]. lia.
    + cbn [List.length] in Hmid. lia.
    + unfold zlen in *. rewrite length_app. cbn [List.length pixel]. lia.
Qed.

Lemma fill_rows_spec (w gap : nat) (n : nat) :
  forall (row_offset : Z) (pre post : list byte),
    zlen pre = row_offset ->
    row_offset + Z.of_nat (4 * w + gap) * Z.of_nat n < 4294967296 ->
    fill_rows n (Z.of_nat w) (Z.of_nat (4 * w + gap)) row_offset
      (pre ++ repeat x00 ((4 * w + gap) * n) ++ post)
    = Some (pre ++ painted w gap n ++ post).
Proof.
  induction n as [|n IH]; intros ro pre post Hpre Hb.
  - rewrite Nat.mul_0_r. reflexivity.
  - cbn [fill_rows]. rewrite Nat2Z.id.
    replace ((4 * w + gap) * S n)%nat
      with (4 * w + (gap + (4 * w + gap) * n))%nat by lia.
    rewrite !repeat_app, <- !app_assoc.
    assert (Hro : 0 <= ro) by (unfold zlen in Hpre; lia).
    rewrite (fill_row_spec w 0 ro pre (repeat x00 (4 * w)));
      [| lia | exact Hro | lia | apply repeat_length | nia].
    unfold painted. cbn [repeat List.concat]. fold (painted w gap n).
    unfold painted_row at 1.
    rewrite (u32_id (ro + Z.of_nat (4 * w + gap))) by nia.
    pose proof (IH (ro + Z.of_nat (4 * w + gap))
                  (pre ++ List.concat (repeat pixel w) ++ repeat x00 gap) post)
      as IH'.
    rewrite <- !app_assoc in IH'. rewrite <- !app_assoc.
    apply IH'.
    + unfold zlen in *. rewrite !length_app, !repeat_length.
      assert (L : List.length (List.concat (repeat pixel w)) = (4 * w)%nat).
      { clear. induction w as [|w IHw]; [reflexivity|].
        cbn [repeat List.concat]. rewrite length_app, IHw.
        cbn [List.length pixel]. lia. }
      rewrite L. lia.
    + nia.
Qed.

(** X15. The fill of [RenderFrame] on a buffer that holds the image: when
    the stride covers a row of four-byte pixels, the rows fit the size given
    to [memset], that size fits the mapped buffer and the 32-bit offsets,
    every pixel of every row becomes aa 10 55 ff (blue, green, red, alpha),
    the bytes of a row beyond its pixels and the bytes behind the last row
    up to the size are zero, and the buffer behind the size is untouched. *)
Theorem paint_fills_every_pixel (s : ApplicationState) (img : list byte) :
  image_buffer s = ImgAt img ->
  0 <= width s -> 0 <= height s ->
  4 * width s <= stride s ->
  stride s * height s <= image_buffer_size s ->
  image_buffer_size s <= zlen img ->
  image_buffer_size s < 4294967296 ->
  paint s
  = Some (painted (Z.to_nat (width s)) (Z.to_nat (stride s - 4 * width s))
            (Z.to_nat (height s))
          ++ repeat x00 (Z.to_nat (image_buffer_size s
                                   - stride s * height s))
          ++ skipn (Z.to_nat (image_buffer_size s)) img).
Proof.
  intros Himg Hw Hh Hs Hrows Hfit Hbig. unfold paint. rewrite Himg.
  rewrite store_at_start
    by (unfold zlen in *; rewrite repeat_length; lia).
  rewrite repeat_length.
  set (w := Z.to_nat (width s)). set (h := Z.to_nat (height s)).
  set (gap := Z.to_nat (stride s - 4 * width s)).
  set (tail := Z.to_nat (image_buffer_size s - stride s * height s)).
  assert (Ew : width s = Z.of_nat w) by (unfold w; lia).
  assert (Eh : height s = Z.of_nat h) by (unfold h; lia).
  assert (Es : stride s = Z.of_nat (4 * w + gap)) by (unfold w, gap; lia).
  replace (Z.to_nat (image_buffer_size s))
    with ((4 * w + gap) * h + tail)%nat at 1 by (unfold tail; nia).
  rewrite repeat_app, <- app_assoc.
  rewrite Ew at 1. rewrite Es at 1.
  apply (fill_rows_spec w gap h 0 []
           (repeat x00 tail ++ skipn (Z.to_nat (image_buffer_size s)) img)).
  - reflexivity.
  - nia.
Qed.

Lemma paint_fills_every_pixel_witness :
  paint (set_image_buffer (ImgAt (repeat x07 10))
           (set_width 1 (set_height 2 (set_stride 4
              (set_image_buffer_size 9 zero_state)))))
  = Some (pixel ++ pixel ++ [x00; x07]).
Proof.
  apply (paint_fills_every_pixel
           (set_image_buffer (ImgAt (repeat x07 10))
              (set_width 1 (set_height 2 (set_stride 4
                 (set_image_buffer_size 9 zero_state)))))
           (repeat x07 10)); cbn; try reflexivity; lia.
Defined.

(** ** Rendering a frame *)

Section Frame.

Variable env : Env.
Hypothesis Hsend : sends_all env.

Lemma CreateFrameBuffer_ok (m : Machine) :
  0 <= next_id m < MAX_CLIENT_ID ->
  0 <= shm_pool_id (app m) < 4294967296 ->
  CreateFrameBuffer env m
  = (Ok 1,
     with_app (set_frame_buffer_id (next_id m + 1) (app m))
       (emit (Send (socket_fd (app m))
                (request (shm_pool_id (app m)) 0
                   [next_id m + 1; 0; width (app m); height (app m);
                    stride (app m); 0]) 0)
          (with_next_id (next_id m + 1) m))).
Proof.
  intros Hid Hp. unfold CreateFrameBuffer.
  rewrite (bind_Ok _ _ _ _ _ (NextWaylandID_ok m Hid)).
  rewrite bind_get_app. cbv zeta. cbn [app with_next_id].
  rewrite (bind_Ok _ _ _ _ _
    (write_and_send_request_ok env Hsend 256 (shm_pool_id (app m)) 0
       [next_id m + 1; 0; width (app m); height (app m); stride (app m); 0]
       0 _ Hp ltac:(lia) ltac:(cbn; lia) ltac:(cbn; lia))).
  reflexivity.
Qed.

Lemma AttachBuffer_ok (m : Machine) :
  0 <= surface_id (app m) < 4294967296 ->
  AttachBuffer env m
  = (Ok 1,
     emit (Send (socket_fd (app m))
             (request (surface_id (app m)) 1
                [frame_buffer_id (app m); 0; 0]) 0) m).
Proof.
  intros Hs. unfold AttachBuffer. rewrite bind_get_app. cbv zeta.
  rewrite (bind_Ok _ _ _ _ _
    (write_and_send_request_ok env Hsend 128 (surface_id (app m)) 1
       [frame_buffer_id (app m); 0; 0]
       0 _ Hs ltac:(lia) ltac:(cbn; lia) ltac:(cbn; lia))).
  reflexivity.
Qed.

Lemma CommitSurface_ok (m : Machine) :
  0 <= surface_id (app m) < 4294967296 ->
  CommitSurface env m
  = (Ok 1,
     emit (Send (socket_fd (app m)) (request (surface_id (app m)) 6 []) 0) m).
Proof.
  intros Hs. unfold CommitSurface. rewrite bind_get_app. cbv zeta.
  set (msg := {| object_id := surface_id (app m); opcode := 6;
                 payload_size := 0; payload := None |}).
  assert (Hwf : well_formed_message msg)
    by (unfold well_formed_message, msg; cbn; lia).
  assert (Hreq : wire_bytes msg = request (surface_id (app m)) 6 [])
    by reflexivity.
  rewrite (bind_Ok _ _ _ _ _
    (write_and_send_aligned env 64 msg 0 m Hwf eq_refl
       ltac:(cbn; lia) ltac:(cbn; lia))).
  rewrite Hreq, Hsend by (rewrite request_length; cbn; lia).
  rewrite Z.eqb_refl. reflexivity.
Qed.

(** X16. A later frame: when the pool and the frame buffer already exist
    and the image can be painted, [RenderFrame] allocates no identifier and
    sends exactly two requests, attach (frame buffer at 0, 0) and commit, to
    the surface; it stores the painted image and ends in the state
    [SURFACE_ATTACHED]. *)
Theorem RenderFrame_again (m : Machine) (img : list byte) :
  shm_pool_id (app m) <> 0 ->
  frame_buffer_id (app m) <> 0 ->
  0 <= surface_id (app m) < 4294967296 ->
  paint (app m) = Some img ->
  let sid := surface_id (app m) in
  let fd := socket_fd (app m) in
  exists m',
    RenderFrame env m = (Ok 1, m') /\
    app m' = set_surface_state SURFACE_ATTACHED
               (set_image_buffer (ImgAt img) (app m)) /\
    next_id m' = next_id m /\
    trace m'
    = trace m ++ [Send fd (request sid 1 [frame_buffer_id (app m); 0; 0]) 0;
                  Send fd (request sid 6 []) 0].
Proof.
  intros Hp Hf Hs Hpaint. cbv zeta. unfold RenderFrame.
  rewrite bind_get_app.
  apply Z.eqb_neq in Hp, Hf. rewrite Hp, bind_ret.
  change (1 =? 0) with false. cbv iota.
  rewrite bind_get_app, Hf, bind_ret.
  change (1 =? 0) with false. cbv iota.
  rewrite bind_get_app, (bind_mem_Some _ _ _ _ Hpaint), bind_modify_app.
  erewrite bind_Ok; [|apply AttachBuffer_ok; exact Hs].
  change (1 =? 0) with false. cbv iota.
  erewrite bind_Ok; [|apply CommitSurface_ok; exact Hs].
  change (1 =? 0) with false. cbv iota.
  rewrite bind_modify_app.
  eexists. split; [reflexivity|].
  cbn [app emit with_app next_id trace]. repeat split.
  now rewrite <- app_assoc.
Qed.

Hypothesis Hsendmsg : sendmsg_succeeds env.

Lemma RenderFrame_first_ok (m : Machine) (img : list byte) :
  shm_pool_id (app m) = 0 ->
  frame_buffer_id (app m) = 0 ->
  0 <= next_id m ->
  next_id m + 2 <= MAX_CLIENT_ID ->
  0 <= shm_id (app m) < 4294967296 ->
  0 <= surface_id (app m) < 4294967296 ->
  paint (app m) = Some img ->
  let n := next_id m in
  let s := app m in
  let fd := socket_fd s in
  let pool_request := request (shm_id s) 0 [n + 1; image_buffer_size s] in
  exists m',
    RenderFrame env m = (Ok 1, m') /\
    app m' = set_surface_state SURFACE_ATTACHED
               (set_image_buffer (ImgAt img)
                  (set_frame_buffer_id (n + 2)
                     (set_shm_pool_id (n + 1) s))) /\
    next_id m' = n + 2 /\
    trace m'
    = trace m
      ++ [pool_announce_line; HexDump pool_request;
          SendMsg fd pool_request (shm_fd s);
          Send fd (request (n + 1) 0
                     [n + 2; 0; width s; height s; stride s; 0]) 0;
          Send fd (request (surface_id s) 1 [n + 2; 0; 0]) 0;
          Send fd (request (surface_id s) 6 []) 0].
Proof.
  intros Hp Hf H0 Hmax Hshm Hs Hpaint. cbv zeta.
  unfold MAX_CLIENT_ID in *. unfold RenderFrame.
  rewrite bind_get_app, Hp. change (0 =? 0) with true. cbv iota.
  erewrite bind_Ok;
    [|rewrite CreateShmPool_passes_pool
        by (try exact Hshm; unfold MAX_CLIENT_ID; lia);
      cbv zeta;
      replace (sendmsg_result env _ _ <? 0) with false
        by (symmetry; apply Z.ltb_ge; apply Hsendmsg);
      reflexivity].
  change (1 =? 0) with false. cbv iota.
  rewrite bind_get_app.
  cbn [app with_app emit with_next_id frame_buffer_id set_shm_pool_id].
  rewrite Hf. change (0 =? 0) with true. cbv iota.
  erewrite bind_Ok;
    [|apply CreateFrameBuffer_ok;
      cbn [app next_id emit with_app with_next_id shm_pool_id
           set_shm_pool_id]; unfold MAX_CLIENT_ID; lia].
  change (1 =? 0) with false. cbv iota.
  rewrite bind_get_app.
  cbn [app with_app emit with_next_id next_id].
  assert (Hpaint' : paint (set_frame_buffer_id (next_id m + 1 + 1)
                             (set_shm_pool_id (next_id m + 1) (app m)))
                    = Some img) by exact Hpaint.
  rewrite (bind_mem_Some _ _ _ _ Hpaint'), bind_modify_app.
  erewrite bind_Ok; [|apply AttachBuffer_ok; exact Hs].
  change (1 =? 0) with false. cbv iota.
  erewrite bind_Ok; [|apply CommitSurface_ok; exact Hs].
  change (1 =? 0) with false. cbv iota.
  rewrite bind_modify_app.
  eexists. split; [reflexivity|].
  cbn [app emit with_app with_next_id next_id trace socket_fd surface_id
       frame_buffer_id shm_pool_id width height stride
       set_image_buffer set_frame_buffer_id set_shm_pool_id].
  replace (next_id m + 1 + 1) with (next_id m + 2) by lia.
  repeat split. now rewrite <- !app_assoc.
Qed.

(** X17. The first frame: with no pool and no frame buffer yet, and every
    transmission going through, [RenderFrame] takes the next two identifiers
    for the pool and the frame buffer and sends four requests in this order:
    create_pool to the shared-memory factory (with the descriptor),
    create_buffer to the new pool (offset 0, width, height, stride, format
    0), then attach and commit to the surface. *)
Theorem RenderFrame_first (m : Machine) (img : list byte) :
  shm_pool_id (app m) = 0 ->
  frame_buffer_id (app m) = 0 ->
  0 <= next_id m ->
  next_id m + 2 <= MAX_CLIENT_ID ->
  0 <= shm_id (app m) < 4294967296 ->
  0 <= surface_id (app m) < 4294967296 ->
  paint (app m) = Some img ->
  let n := next_id m in
  let s := app m in
  let fd := socket_fd s in
  let pool_request := request (shm_id s) 0 [n + 1; image_buffer_size s] in
  exists m',
    RenderFrame env m = (Ok 1, m') /\
    app m' = set_surface_state SURFACE_ATTACHED
               (set_image_buffer (ImgAt img)
                  (set_frame_buffer_id (n + 2)
                     (set_shm_pool_id (n + 1) s))) /\
    next_id m' = n + 2 /\
    trace m'
    = trace m
      ++ [pool_announce_line; HexDump pool_request;
          SendMsg fd pool_request (shm_fd s);
          Send fd (request (n + 1) 0
                     [n + 2; 0; width s; height s; stride s; 0]) 0;
          Send fd (request (surface_id s) 1 [n + 2; 0; 0]) 0;
          Send fd (request (surface_id s) 6 []) 0].
Proof. exact (RenderFrame_first_ok m img). Qed.

End Frame.

(** ** Signals and the end of the stream *)

(** X18. A SIGINT that arrives while the process waits in [recv], and makes
    [recv] fail, is reported as an error: the handler sets the exit flag,
    but the loop prints the receive error and returns 0, the value for a
    failure, instead of 1. *)
Theorem interrupted_recv_is_an_error (env : Env) (turn : LoopInput)
    (rest : list LoopInput) (recv_buffer : list byte) (m : Machine) :
  should_exit m = 0 ->
  sigint_before_test turn = false ->
  sigint_in_recv turn = true ->
  recv_outcome turn = RecvError ->
  EventLoop_loop env (turn :: rest) recv_buffer m
  = (Ok 0,
     emit recv_error_line
       (emit (Recv (socket_fd (app m)) RecvError)
          (with_should_exit 1 (emit signal_line m)))).
Proof.
  intros Hexit Hb Hr Ho. cbn [EventLoop_loop]. rewrite Hb, Hr, Ho.
  unfold recv, SignalHandler, printf.
  cbv beta iota delta [bind ret get_app io]. rewrite Hexit.
  reflexivity.
Qed.

Lemma interrupted_recv_is_an_error_witness :
  EventLoop_loop friendly_env
    [{| sigint_before_test := false; sigint_in_recv := true;
        recv_outcome := RecvError |}] (repeat x00 4096) attached_machine
  = (Ok 0,
     emit recv_error_line
       (emit (Recv 3 RecvError)
          (with_should_exit 1 (emit signal_line attached_machine)))).
Proof.
  apply (interrupted_recv_is_an_error friendly_env
           {| sigint_before_test := false; sigint_in_recv := true;
              recv_outcome := RecvError |} [] (repeat x00 4096)
           attached_machine); reflexivity.
Defined.

Lemma EventLoop_loop_end_of_stream (env : Env) (rest : list LoopInput)
    (recv_buffer : list byte) (m : Machine) :
  should_exit m = 0 ->
  binding_done (app m) <> 0 ->
  surface_id (app m) <> 0 ->
  surface_state (app m) <> ACKED_CONFIGURE ->
  EventLoop_loop env (end_of_stream :: rest) recv_buffer m
  = EventLoop_loop env rest recv_buffer
      (emit (Recv (socket_fd (app m)) (RecvData [])) m).
Proof.
  intros Hexit Hdone Hsurf Hstate.
  cbn [EventLoop_loop end_of_stream quiet_turn sigint_before_test
       sigint_in_recv recv_outcome].
  unfold recv.
  assert (Hrecv : recv_into recv_buffer [] = (recv_buffer, 0))
    by (unfold recv_into; now rewrite firstn_nil).
  rewrite Hrecv.
  cbv beta iota delta [bind ret get_app io]. rewrite Hexit.
  change (0 =? 0) with true. cbv beta iota delta [negb].
  change (0 <? 0) with false. cbv iota.
  change (ProcessWaylandEvents env recv_buffer (u32 0))
    with (@ret Z 1).
  cbv beta iota delta [ret]. change (1 =? 0) with false. cbv beta iota.
  rewrite BindingDone_spec. cbn [app emit].
  apply Z.eqb_neq in Hdone, Hsurf. rewrite Hdone. cbn [negb].
  cbv beta iota.
  change (1 =? 0) with false. cbn [negb andb app emit]. rewrite Hsurf.
  cbv beta iota. cbn [negb app emit]. cbv beta iota.
  destruct (surface_state (app m)); try reflexivity. now elim Hstate.
Qed.

(** X19. The loop does not notice that the server has closed the
    connection.  Once the window exists and no frame is due, a [recv] that
    returns 0 changes nothing and the loop calls [recv] again; any number of
    such turns leaves the process where it was, with only the calls of
    [recv] added to what it did. *)
Theorem closed_connection_is_not_noticed (env : Env) (n : nat)
    (rest : list LoopInput) (recv_buffer : list byte) (m : Machine) :
  should_exit m = 0 ->
  binding_done (app m) <> 0 ->
  surface_id (app m) <> 0 ->
  surface_state (app m) <> ACKED_CONFIGURE ->
  EventLoop_loop env (repeat end_of_stream n ++ rest) recv_buffer m
  = EventLoop_loop env rest recv_buffer
      (Nat.iter n (emit (Recv (socket_fd (app m)) (RecvData []))) m).
Proof.
  revert m. induction n as [|n IH]; intros m Hexit Hdone Hsurf Hstate.
  - reflexivity.
  - change (repeat end_of_stream (S n) ++ rest)
      with (end_of_stream :: (repeat end_of_stream n ++ rest)).
    rewrite EventLoop_loop_end_of_stream by assumption.
    rewrite IH by assumption. cbn [app emit].
    f_equal. clear. induction n as [|n IHn]; [reflexivity|].
    cbn [Nat.iter nat_rect] in *. unfold Nat.iter in *.
    cbn [nat_rect]. now rewrite <- IHn.
Qed.

Lemma closed_connection_is_not_noticed_witness :
  EventLoop_loop friendly_env (repeat end_of_stream 3 ++ [])
    (repeat x00 4096) attached_machine
  = EventLoop_loop friendly_env [] (repeat x00 4096)
      (Nat.iter 3
         (emit (Recv (socket_fd (app attached_machine)) (RecvData [])))
         attached_machine).
Proof.
  apply (closed_connection_is_not_noticed friendly_env 3 []
           (repeat x00 4096) attached_machine);
    [reflexivity | discriminate | discriminate | discriminate].
Defined.

(** ** Globals announced by the registry *)

Lemma strcmp_eq_refl (a : list byte) : strcmp_eq a a = true.
Proof.
  induction a as [|x a IH]; [reflexivity|].
  cbn [strcmp_eq]. now rewrite (byte_dec_lb (eq_refl x)), IH.
Qed.

Lemma strcmp_eq_true (a : list byte) :
  forall b, strcmp_eq a b = true -> a = b.
Proof.
  induction a as [|x a IH]; intros [|y b] H; try discriminate.
  - reflexivity.
  - cbn [strcmp_eq] in H. apply andb_prop in H as [H1 H2].
    apply byte_dec_bl in H1. apply IH in H2. now subst.
Qed.

Lemma strcmp_eq_other (a b : list byte) : a <> b -> strcmp_eq a b = false.
Proof.
  intros H. destruct (strcmp_eq a b) eqn:E; [|reflexivity].
  now apply strcmp_eq_true in E.
Qed.

Section Globals.

Variable env : Env.

Lemma HandleWaylandEvent_global (e : ParsedWaylandEvent) (name : Z)
    (interface_name text : list byte) (version : Z) (m : Machine) :
  is_registry_global (app m) e = true ->
  announces e name interface_name version ->
  cstr interface_name = Some text ->
  HandleWaylandEvent env e m
  = (go1 <- bind_if_named env "wl_shm" set_shm_id
              "Error binding wl_shm object."
              name interface_name text version ;;
     if negb go1 then ret 0 else
     go2 <- bind_if_named env "xdg_wm_base" set_xdg_wm_base_id
              "Error binding xdg_wm_base object."
              name interface_name text version ;;
     if negb go2 then ret 0 else
     go3 <- bind_if_named env "wl_compositor" set_compositor_id
              "Error binding wl_compositor object."
              name interface_name text version ;;
     if negb go3 then ret 0 else
     ret 1) (emit (found_line text name version) m).
Proof.
  intros Hreg (view & off1 & off2 & off3 & Hp & R1 & R2 & R3) Hc.
  unfold HandleWaylandEvent. rewrite bind_get_app, Hreg.
  unfold deref. rewrite Hp.
  rewrite (bind_mem_Some _ _ _ _ eq_refl).
  rewrite (bind_mem_Some _ _ _ _ R1). cbv beta iota.
  rewrite (bind_mem_Some _ _ _ _ R2). cbv beta iota.
  rewrite (bind_mem_Some _ _ _ _ R3). cbv beta iota.
  rewrite (bind_mem_Some _ _ _ _ Hc).
  unfold printf at 1. rewrite bind_io. reflexivity.
Qed.

Lemma bind_if_named_bound (label : string)
    (set : Z -> ApplicationState -> ApplicationState) (error_line : string)
    (name : Z) (interface_name text : list byte) (version id : Z)
    (m m' : Machine) :
  strcmp_eq (lit label) text = true ->
  WaylandRegistryBind env name interface_name version m = (Ok id, m') ->
  id <> 0 ->
  bind_if_named env label set error_line name interface_name text version m
  = (Ok true, emit (bound_line id) (with_app (set id (app m')) m')).
Proof.
  intros Hs HB Hid. unfold bind_if_named. rewrite Hs.
  rewrite (bind_Ok _ _ _ _ _ HB), bind_modify_app.
  apply Z.eqb_neq in Hid. now rewrite Hid.
Qed.

Lemma bind_if_named_other (label : string)
    (set : Z -> ApplicationState -> ApplicationState) (error_line : string)
    (name : Z) (interface_name text : list byte) (version : Z)
    (m : Machine) :
  strcmp_eq (lit label) text = false ->
  bind_if_named env label set error_line name interface_name text version m
  = (Ok true, m).
Proof. intros Hs. unfold bind_if_named. now rewrite Hs. Qed.

(** X20. A global that the registry announces under one of the three
    interface names [wl_shm], [xdg_wm_base], [wl_compositor] is bound: the
    handler prints what it found, sends one bind request with the announced
    name and version and the next free identifier, stores that identifier in
    the field of this global only, and returns 1. *)
Theorem known_global_is_bound (e : ParsedWaylandEvent) (name : Z)
    (interface_name : list byte) (version : Z) (r : global_role)
    (m : Machine) :
  is_registry_global (app m) e = true ->
  announces e name interface_name version ->
  cstr interface_name = Some (lit (role_interface r)) ->
  0 <= next_id m < MAX_CLIENT_ID ->
  0 <= registry_id (app m) < 4294967296 ->
  let text := lit (role_interface r) in
  let id := next_id m + 1 in
  let data := bind_request (registry_id (app m)) name text version id in
  let m1 := emit (found_line text name version) m in
  u64 (send_result env (trace m1) data) = zlen data ->
  HandleWaylandEvent env e m
  = (Ok 1,
     emit (bound_line id)
       (with_app (record_role r id (app m))
          (emit (Send (socket_fd (app m)) data 0) (with_next_id id m1)))).
Proof.
  intros Hreg Hann Hc Hid Hrid. cbv zeta. intros Hsend.
  rewrite (HandleWaylandEvent_global e name interface_name _ version m
             Hreg Hann Hc).
  set (m1 := emit (found_line (lit (role_interface r)) name version) m)
    in *.
  assert (HB : WaylandRegistryBind env name interface_name version m1
               = (Ok (next_id m + 1),
                  emit (Send (socket_fd (app m))
                          (bind_request (registry_id (app m)) name
                             (lit (role_interface r)) version
                             (next_id m + 1)) 0)
                    (with_next_id (next_id m + 1) m1))).
  { rewrite (WaylandRegistryBind_request env name interface_name
               (lit (role_interface r)) version m1 Hc);
      [| destruct r; vm_compute; discriminate | exact Hid | exact Hrid].
    cbv zeta. cbn [app next_id m1 emit]. rewrite Hsend.
    now rewrite Z.eqb_refl. }
  assert (Hnz : next_id m + 1 <> 0) by lia.
  destruct r; cbn [role_interface record_role] in *.
  - rewrite (bind_Ok _ _ _ _ _
               (bind_if_named_bound "wl_shm" _ _ _ _ (lit "wl_shm") _ _ _ _
                  eq_refl HB Hnz)).
    cbn [negb].
    rewrite (bind_Ok _ _ _ _ _
               (bind_if_named_other "xdg_wm_base" _ _ _ _ (lit "wl_shm") _ _
                  eq_refl)).
    cbn [negb].
    rewrite (bind_Ok _ _ _ _ _
               (bind_if_named_other "wl_compositor" _ _ _ _ (lit "wl_shm") _ _
                  eq_refl)).
    cbn [negb].
    reflexivity.
  - rewrite (bind_Ok _ _ _ _ _
               (bind_if_named_other "wl_shm" _ _ _ _ (lit "xdg_wm_base") _ _
                  eq_refl)).
    cbn [negb].
    rewrite (bind_Ok _ _ _ _ _
               (bind_if_named_bound "xdg_wm_base" _ _ _ _ (lit "xdg_wm_base") _ _ _ _
                  eq_refl HB Hnz)).
    cbn [negb].
    rewrite (bind_Ok _ _ _ _ _
               (bind_if_named_other "wl_compositor" _ _ _ _ (lit "xdg_wm_base") _ _
                  eq_refl)).
    cbn [negb].
    reflexivity.
  - rewrite (bind_Ok _ _ _ _ _
               (bind_if_named_other "wl_shm" _ _ _ _ (lit "wl_compositor") _ _
                  eq_refl)).
    cbn [negb].
    rewrite (bind_Ok _ _ _ _ _
               (bind_if_named_other "xdg_wm_base" _ _ _ _ (lit "wl_compositor") _ _
                  eq_refl)).
    cbn [negb].
    rewrite (bind_Ok _ _ _ _ _
               (bind_if_named_bound "wl_compositor" _ _ _ _ (lit "wl_compositor") _ _ _ _
                  eq_refl HB Hnz)).
    cbn [negb].
    reflexivity.
Qed.

(** X21. A global under any other interface name is only logged: the
    handler prints what it found, sends nothing, allocates no identifier,
    leaves the application state as it is and returns 1. *)
Theorem unknown_global_is_ignored (e : ParsedWaylandEvent) (name : Z)
    (interface_name text : list byte) (version : Z) (m : Machine) :
  is_registry_global (app m) e = true ->
  announces e name interface_name version ->
  cstr interface_name = Some text ->
  (forall r, text <> lit (role_interface r)) ->
  HandleWaylandEvent env e m = (Ok 1, emit (found_line text name version) m).
Proof.
  intros Hreg Hann Hc Hother.
  rewrite (HandleWaylandEvent_global e name interface_name text version m
             Hreg Hann Hc).
  rewrite (bind_Ok _ _ _ _ _
             (bind_if_named_other _ _ _ _ _ _ _ _
                (strcmp_eq_other _ _
                   (fun E => Hother role_shm (eq_sym E))))).
  cbn [negb].
  rewrite (bind_Ok _ _ _ _ _
             (bind_if_named_other _ _ _ _ _ _ _ _
                (strcmp_eq_other _ _
                   (fun E => Hother role_wm_base (eq_sym E))))).
  cbn [negb].
  rewrite (bind_Ok _ _ _ _ _
             (bind_if_named_other _ _ _ _ _ _ _ _
                (strcmp_eq_other _ _
                   (fun E => Hother role_compositor (eq_sym E))))).
  reflexivity.
Qed.

End Globals.

(** ** The descriptors *)

Lemma closed_app (t1 t2 : list IOEvent) :
  closed (t1 ++ t2) = closed t1 ++ closed t2.
Proof. unfold closed. apply flat_map_app. Qed.

Lemma closed_emit (ev : IOEvent) (m : Machine) :
  closed (trace (emit ev m)) = closed (trace m) ++ closed [ev].
Proof. cbn [trace emit]. apply closed_app. Qed.

Lemma same_descriptors_refl (m : Machine) : same_descriptors m m.
Proof. repeat split. Qed.

Lemma same_descriptors_trans (a b c : Machine) :
  same_descriptors a b -> same_descriptors b c -> same_descriptors a c.
Proof.
  intros (A1 & A2 & A3 & A4) (B1 & B2 & B3 & B4).
  repeat split; congruence.
Qed.

Lemma kd_silent {A} (c : M A) :
  (forall m, app (snd (c m)) = app m /\ trace (snd (c m)) = trace m) ->
  keeps_descriptors c.
Proof.
  intros H m. destruct (H m) as [Ha Ht].
  unfold same_descriptors. rewrite Ha, Ht. repeat split.
Qed.

Lemma kd_ret {A} (a : A) : keeps_descriptors (ret a).
Proof. apply kd_silent. now intros m. Qed.

Lemma kd_io (ev : IOEvent) : closed [ev] = [] -> keeps_descriptors (io ev).
Proof.
  intros H m. unfold io. cbn [snd]. repeat split.
  rewrite closed_emit, H. apply app_nil_r.
Qed.

Lemma kd_mem {A} (o : option A) : keeps_descriptors (mem o).
Proof. destruct o; apply kd_silent; now intros m. Qed.

Lemma kd_modify (f : ApplicationState -> ApplicationState) :
  (forall s, socket_fd (f s) = socket_fd s /\ shm_fd (f s) = shm_fd s /\
             image_buffer_size (f s) = image_buffer_size s) ->
  keeps_descriptors (modify_app f).
Proof.
  intros H m. destruct (H (app m)) as (H1 & H2 & H3).
  unfold modify_app. cbn [snd]. repeat split; assumption.
Qed.

Lemma kd_bind {A B} (c : M A) (k : A -> M B) :
  keeps_descriptors c -> (forall a, keeps_descriptors (k a)) ->
  keeps_descriptors (bind c k).
Proof.
  intros Hc Hk m. unfold bind. specialize (Hc m).
  destruct (c m) as [[a| | | |] m1]; cbn [snd] in *; try exact Hc.
  eapply same_descriptors_trans; [exact Hc | apply Hk].
Qed.

Lemma kd_NextWaylandID : keeps_descriptors NextWaylandID.
Proof.
  intros m. unfold NextWaylandID. cbv zeta.
  destruct (u32 (next_id m + 1) >? MAX_CLIENT_ID).
  - repeat split. cbn. rewrite closed_app. apply app_nil_r.
  - repeat split.
Qed.

Lemma kd_SignalHandler (n : Z) : keeps_descriptors (SignalHandler n).
Proof.
  intros m. repeat split. cbn. rewrite closed_app. apply app_nil_r.
Qed.

Create HintDb descriptors discriminated.

Ltac kd_step :=
  lazymatch goal with
  | |- keeps_descriptors (bind _ _) => apply kd_bind; [ | intros ? ]
  | |- keeps_descriptors (ret _) => apply kd_ret
  | |- keeps_descriptors (exit _) => apply kd_silent; intros ?; now split
  | |- keeps_descriptors fault => apply kd_silent; intros ?; now split
  | |- keeps_descriptors get_app => apply kd_silent; intros ?; now split
  | |- keeps_descriptors (io _) => apply kd_io; reflexivity
  | |- keeps_descriptors (printf _ _) => apply kd_io; reflexivity
  | |- keeps_descriptors (mem _) => apply kd_mem
  | |- keeps_descriptors (deref _) => apply kd_mem
  | |- keeps_descriptors NextWaylandID => apply kd_NextWaylandID
  | |- keeps_descriptors (SignalHandler _) => apply kd_SignalHandler
  | |- keeps_descriptors (modify_app _) =>
      apply kd_modify; intros ?; repeat split
  | |- keeps_descriptors (if ?c then _ else _) => destruct c
  | |- keeps_descriptors (match ?x with _ => _ end) => destruct x
  | |- keeps_descriptors (let x := _ in _) => cbv zeta
  end.

Ltac kd_auto :=
  repeat first [ assumption | kd_step | solve [auto 1 with descriptors nocore] ].

Section Descriptors.

Variable env : Env.

Lemma kd_AppendWaylandString (buffer : list byte) (off cap : Z)
    (str : list byte) :
  keeps_descriptors (AppendWaylandString buffer off cap str).
Proof. unfold AppendWaylandString. kd_auto. Qed.

Lemma kd_ReadWaylandEvent (buffer : list byte) (off : Z) :
  keeps_descriptors (ReadWaylandEvent buffer off).
Proof. unfold ReadWaylandEvent. kd_auto. Qed.

Lemma kd_send (fd : Z) (buffer : list byte) (n flags : Z) :
  keeps_descriptors (send env fd buffer n flags).
Proof.
  unfold send. kd_auto. intros m. repeat split.
  cbn [snd]. rewrite closed_emit. apply app_nil_r.
Qed.

Lemma kd_write_and_send (cap : nat) (msg : ParsedWaylandEvent) (flags : Z) :
  keeps_descriptors (write_and_send env cap msg flags).
Proof. pose proof kd_send. unfold write_and_send. kd_auto. Qed.

Lemma kd_read_u32_at (p : ptr) (off : Z) :
  keeps_descriptors (read_u32_at p off).
Proof. unfold read_u32_at. kd_auto. Qed.

Lemma kd_recv (buffer : list byte) (got : RecvOutcome) :
  keeps_descriptors (recv buffer got).
Proof. unfold recv. kd_auto. Qed.

Lemma kd_WaylandRegistryBind (name : Z) (interface : list byte)
    (version : Z) :
  keeps_descriptors (WaylandRegistryBind env name interface version).
Proof.
  pose proof kd_AppendWaylandString. pose proof kd_write_and_send.
  unfold WaylandRegistryBind. kd_auto.
Qed.

Lemma kd_bind_if_named (label : string)
    (set : Z -> ApplicationState -> ApplicationState) (error_line : string)
    (name : Z) (interface_name text : list byte) (version : Z) :
  (forall v s, socket_fd (set v s) = socket_fd s /\
               shm_fd (set v s) = shm_fd s /\
               image_buffer_size (set v s) = image_buffer_size s) ->
  keeps_descriptors
    (bind_if_named env label set error_line name interface_name text version).
Proof.
  intros Hset. pose proof kd_WaylandRegistryBind.
  unfold bind_if_named. kd_auto; apply Hset.
Qed.

Lemma kd_PrintErrorEventInfo (e : ParsedWaylandEvent) :
  keeps_descriptors (PrintErrorEventInfo e).
Proof. unfold PrintErrorEventInfo. kd_auto. Qed.

Lemma kd_CreateSurface : keeps_descriptors (CreateSurface env).
Proof.
  pose proof kd_write_and_send.
  unfold CreateSurface, CreateWLSurface, CreateXDGSurface, GetXDGTopLevel.
  kd_auto.
Qed.

Lemma kd_CommitSurface : keeps_descriptors (CommitSurface env).
Proof. pose proof kd_write_and_send. unfold CommitSurface. kd_auto. Qed.

Lemma kd_SendMsgWithShmDescriptor (buffer : list byte) (size : Z) :
  keeps_descriptors (SendMsgWithShmDescriptor env buffer size).
Proof.
  unfold SendMsgWithShmDescriptor. kd_auto. intros m. repeat split.
  cbn [snd]. rewrite closed_emit. apply app_nil_r.
Qed.

Lemma kd_RenderFrame : keeps_descriptors (RenderFrame env).
Proof.
  pose proof kd_write_and_send. pose proof kd_SendMsgWithShmDescriptor.
  unfold RenderFrame, CreateShmPool, CreateFrameBuffer, AttachBuffer,
    CommitSurface.
  kd_auto.
Qed.

Lemma kd_HandleWaylandEvent (e : ParsedWaylandEvent) :
  keeps_descriptors (HandleWaylandEvent env e).
Proof.
  pose proof kd_write_and_send. pose proof kd_read_u32_at.
  pose proof kd_PrintErrorEventInfo.
  unfold HandleWaylandEvent, SendXDGPong, AckXDGSurfaceConfigure.
  kd_auto.
  1-3: apply kd_bind_if_named; intros v s; repeat split.
Qed.

Lemma kd_ProcessWaylandEvents_loop (fuel : nat) (buffer : list byte)
    (size : Z) :
  forall off,
    keeps_descriptors (ProcessWaylandEvents_loop env fuel buffer size off).
Proof.
  induction fuel as [|fuel IH]; intros off; cbn [ProcessWaylandEvents_loop].
  - kd_auto. apply kd_silent. now intros m.
  - pose proof kd_HandleWaylandEvent. pose proof kd_ReadWaylandEvent.
    kd_auto; auto.
Qed.

Lemma kd_BindingDone : keeps_descriptors BindingDone.
Proof. unfold BindingDone. kd_auto. Qed.

Lemma kd_EventLoop_loop (script : list LoopInput) :
  forall buffer, keeps_descriptors (EventLoop_loop env script buffer).
Proof.
  induction script as [|turn rest IH]; intros buffer; cbn [EventLoop_loop].
  - apply kd_silent. intros m. now destruct (should_exit m =? 0).
  - pose proof kd_ProcessWaylandEvents_loop. pose proof kd_BindingDone.
    pose proof kd_RenderFrame. pose proof kd_CreateSurface.
    pose proof kd_CommitSurface. pose proof kd_recv.
    unfold ProcessWaylandEvents.
    kd_auto; auto.
    all: apply kd_silent; now intros m.
Qed.

(** X22. Whatever the server sends and whenever a signal arrives, the event
    loop leaves the two descriptors and the size of the mapping in the
    application state as they were, and closes no descriptor, also when it
    ends with an error or leaves the process. *)
Theorem EventLoop_keeps_descriptors (script : list LoopInput) (m : Machine) :
  same_descriptors m (snd (EventLoop env script m)).
Proof. apply kd_EventLoop_loop. Qed.

End Descriptors.

(** ** Teardown *)

Ltac closed_events :=
  cbn [trace emit with_app]; rewrite ?closed_app; cbn [closed flat_map];
  rewrite ?app_nil_r; cbn [List.app]; rewrite <- ?app_assoc;
  cbn [List.app]; reflexivity.

Lemma CleanupState_spec (m : Machine) :
  exists m',
    CleanupState m = (Ok tt, m') /\
    app m' = released /\
    closed (trace m') = closed (trace m) ++ cleanup_closes (app m).
Proof.
  unfold CleanupState, cleanup_closes. rewrite bind_get_app.
  destruct (socket_fd (app m) >=? 0); destruct (shm_fd (app m) >=? 0);
    eexists; (split; [reflexivity|]); (split; [reflexivity|]);
    cbn [trace emit with_app app]; rewrite ?closed_app; cbn [closed flat_map];
    rewrite ?app_nil_r, <- ?app_assoc; reflexivity.
Qed.

(** X23. [CleanupState] can be called twice.  The first call closes the
    descriptors that are open (those that are not negative), the socket
    before the shared memory, and leaves a state with both descriptors at
    -1; a second call then does nothing at all. *)
Theorem CleanupState_twice (m : Machine) :
  exists m',
    CleanupState m = (Ok tt, m') /\
    app m' = released /\
    closed (trace m') = closed (trace m) ++ cleanup_closes (app m) /\
    CleanupState m' = (Ok tt, m').
Proof.
  destruct (CleanupState_spec m) as (m' & H1 & H2 & H3).
  exists m'. repeat split; try assumption.
  unfold CleanupState. rewrite bind_get_app, H2.
  destruct m' as [a n x t]. cbn [app] in H2. subst a. reflexivity.
Qed.

Lemma cleans_up_bind {A} (c : M A) (k : A -> M Z) :
  keeps_descriptors c -> (forall a, cleans_up (k a)) ->
  cleans_up (bind c k).
Proof.
  intros Hc Hk m st m' H. unfold bind in H. specialize (Hc m).
  destruct (c m) as [[a| | | |] m1]; try discriminate.
  destruct Hc as (S1 & S2 & _ & S4). cbn [snd] in *.
  destruct (Hk a m1 st m' H) as [K1 K2]. split; [exact K1|].
  rewrite K2, S4. unfold cleanup_closes. now rewrite S1, S2.
Qed.

Lemma cleans_up_end (z : Z) : cleans_up (CleanupState ;; ret z).
Proof.
  intros m st m' H. destruct (CleanupState_spec m) as (m1 & H1 & H2 & H3).
  rewrite (bind_Ok _ _ _ _ _ H1) in H. unfold ret in H.
  assert (m' = m1) by exact (eq_sym (f_equal snd H)). now subst.
Qed.

Section Teardown.

Variable env : Env.

Lemma kd_GetWaylandDisplayRegistry :
  keeps_descriptors (GetWaylandDisplayRegistry env).
Proof.
  pose proof (kd_write_and_send env).
  unfold GetWaylandDisplayRegistry. kd_auto.
Qed.

Lemma OpenSharedMemoryObject_descriptors (m : Machine) :
  exists r m',
    OpenSharedMemoryObject env m = (Ok r, m') /\
    socket_fd (app m') = socket_fd (app m) /\
    shm_fd (app m') = shm_open_result env /\
    closed (trace m') = closed (trace m).
Proof.
  unfold OpenSharedMemoryObject. cbv zeta.
  rewrite bind_io, bind_modify_app, bind_get_app.
  cbn [app with_app emit shm_fd set_shm_fd].
  destruct (shm_open_result env <=? -1);
    [|destruct (negb (shm_unlink_result env =? 0));
      [|destruct (negb (ftruncate_result env =? 0));
        [|destruct (mmap_succeeds env)]]];
    do 2 eexists; (split; [reflexivity|]);
    cbn [app with_app emit trace shm_fd socket_fd set_shm_fd
         set_image_buffer];
    (split; [reflexivity|]); (split; [reflexivity|]);
    rewrite ?closed_app; cbn [closed flat_map];
    rewrite ?app_nil_r; reflexivity.
Qed.

Lemma GetWaylandConnection_outcome (m : Machine) :
  exists r m',
    GetWaylandConnection env m = (Ok r, m') /\
    app m' = app m /\
    ((r = -1 /\ closed (trace m') = closed (trace m) ++ opened env) \/
     (r = socket_result env /\ 0 <= r /\
      closed (trace m') = closed (trace m) /\
      opened env
      = r :: (if shm_open_result env >=? 0 then [shm_open_result env]
              else []))).
Proof.
  unfold GetWaylandConnection, opened.
  destruct (getenv_XDG_RUNTIME_DIR env) as [xdg_dir|].
  - cbv zeta. set (path := firstn 106 _).
    unfold printf. rewrite !bind_io.
    destruct (socket_result env <? 0) eqn:Es.
    + rewrite bind_io. do 2 eexists. split; [reflexivity|].
      split; [reflexivity|]. left. split; [reflexivity|].
      closed_events.
    + rewrite bind_io. apply Z.ltb_ge in Es.
      destruct (connect_result env =? 0); cbn [negb andb].
      * do 2 eexists. split; [reflexivity|]. split; [reflexivity|].
        right. split; [reflexivity|]. split; [exact Es|].
        split; [|reflexivity].
        closed_events.
      * rewrite !bind_io. do 2 eexists. split; [reflexivity|].
        split; [reflexivity|]. left. split; [reflexivity|].
        closed_events.
  - unfold printf. rewrite bind_io. do 2 eexists. split; [reflexivity|].
    split; [reflexivity|]. left. split; [reflexivity|].
    closed_events.
Qed.

Lemma cleans_up_after_setup (script : list LoopInput) (r1 : Z) :
  cleans_up
    (if r1 =? 0 then CleanupState ;; ret 1 else
     r2 <- GetWaylandDisplayRegistry env ;;
     if r2 =? 0 then CleanupState ;; ret 1 else
     io Sigaction ;;
     if negb (sigaction_result env =? 0) then
       printf "Error setting SIGINT handler: %s" [AErrno] ;;
       CleanupState ;;
       ret 1
     else
     printf "Running. Press Ctrl+C to exit." [] ;;
     result <- EventLoop env script ;;
     (if result =? 0 then printf "The event loop exited with an error." []
      else printf "The event loop ended normally." []) ;;
     CleanupState ;;
     ret 0).
Proof.
  pose proof kd_GetWaylandDisplayRegistry as K1.
  pose proof (kd_EventLoop_loop env script (repeat x00 4096)) as K2.
  destruct (r1 =? 0); [apply cleans_up_end|].
  apply cleans_up_bind; [exact K1 | intros r2].
  destruct (r2 =? 0); [apply cleans_up_end|].
  apply cleans_up_bind; [apply kd_io; reflexivity | intros _].
  destruct (negb (sigaction_result env =? 0)).
  - apply cleans_up_bind; [apply kd_io; reflexivity | intros _].
    apply cleans_up_end.
  - apply cleans_up_bind; [apply kd_io; reflexivity | intros _].
    apply cleans_up_bind; [exact K2 | intros result].
    apply cleans_up_bind; [|intros _; apply cleans_up_end].
    destruct (result =? 0); apply kd_io; reflexivity.
Qed.

(** X24. When [main] returns, every descriptor the process opened has been
    closed exactly once, in the order of opening, and the application state
    is released: this holds for every environment in which [socket] does
    not return descriptor 0, for every failure of the set-up and every
    course of the event loop. *)
Theorem main_closes_what_it_opened (script : list LoopInput) (m : Machine)
    (st : Z) (m' : Machine) :
  socket_result env <> 0 ->
  main env script m = (Ok st, m') ->
  app m' = released /\
  closed (trace m') = closed (trace m) ++ opened env.
Proof.
  intros Hfd. unfold main.
  rewrite (bind_Ok _ _ _ _ _ (eq_refl : _ m = (Ok tt, with_should_exit 0 m))).
  rewrite bind_modify_app. fold released.
  set (m0 := with_app released (with_should_exit 0 m)).
  assert (T0 : closed (trace m0) = closed (trace m)) by reflexivity.
  destruct (GetWaylandConnection_outcome m0)
    as (r & m1 & HG & Ha & [(Hr & Hc) | (Hr & H0 & Hc & Ho)]);
    rewrite (bind_Ok _ _ _ _ _ HG), bind_modify_app.
  - subst r. change (-1 <=? 0) with true. cbv iota. unfold ret. intros H.
    assert (E : m' = with_app (set_socket_fd (-1) (app m1)) m1)
      by exact (eq_sym (f_equal snd H)).
    subst m'. cbn [app with_app trace]. rewrite Ha, Hc, T0.
    split; reflexivity.
  - replace (r <=? 0) with false by (symmetry; apply Z.leb_gt; lia).
    cbv iota. rewrite !bind_modify_app.
    match goal with
    | |- bind (OpenSharedMemoryObject env) _ ?mm = _ -> _ =>
        set (m4 := mm);
        destruct (OpenSharedMemoryObject_descriptors m4)
          as (r1 & m5 & HO & S1 & S2 & S4)
    end.
    rewrite (bind_Ok _ _ _ _ _ HO). intros H.
    destruct (cleans_up_after_setup script r1 m5 st m' H) as [K1 K2].
    split; [exact K1|]. rewrite K2, S4, Ho. unfold cleanup_closes.
    rewrite S1, S2.
    assert (F : socket_fd (app m4) = r) by reflexivity.
    assert (T4 : closed (trace m4) = closed (trace m))
      by (subst m4; cbn [trace with_app]; now rewrite Hc).
    rewrite F, T4.
    replace (r >=? 0) with true
      by (symmetry; rewrite Z.geb_leb; apply Z.leb_le; lia).
    reflexivity.
Qed.

End Teardown.

Lemma main_closes_what_it_opened_witness :
  app (snd (main deaf_env [] boot)) = released /\
  closed (trace (snd (main deaf_env [] boot)))
  = closed (trace boot) ++ opened deaf_env.
Proof.
  apply (main_closes_what_it_opened deaf_env [] boot 1
           (snd (main deaf_env [] boot)));
    [discriminate | apply returned; vm_compute; reflexivity].
Defined.

(** ** Descriptor 0 *)

(** X25. Descriptor 0 is taken for a failure.  When [socket] returns 0 and
    [connect] succeeds, [main] returns 1 at once: the connected socket is
    still in the application state and no descriptor has been closed. *)
Theorem main_gives_up_on_descriptor_0 (env : Env) (script : list LoopInput)
    (m : Machine) :
  getenv_XDG_RUNTIME_DIR env <> None ->
  socket_result env = 0 ->
  connect_result env = 0 ->
  exists m',
    main env script m = (Ok 1, m') /\
    socket_fd (app m') = 0 /\
    closed (trace m') = closed (trace m).
Proof.
  intros Hdir Hs Hc. unfold main.
  rewrite (bind_Ok _ _ _ _ _ (eq_refl : _ m = (Ok tt, with_should_exit 0 m))).
  rewrite bind_modify_app.
  set (m0 := with_app _ (with_should_exit 0 m)).
  assert (HG : exists m1,
             GetWaylandConnection env m0 = (Ok 0, m1) /\
             closed (trace m1) = closed (trace m)).
  { unfold GetWaylandConnection.
    destruct (getenv_XDG_RUNTIME_DIR env) as [xdg_dir|]; [|now elim Hdir].
    cbv zeta. unfold printf. rewrite !bind_io, Hs.
    change (0 <? 0) with false. cbv iota. rewrite bind_io, Hc.
    change (negb (0 =? 0)) with false. cbv iota.
    eexists. split; [reflexivity|]. closed_events. }
  destruct HG as (m1 & HG & Ht).
  rewrite (bind_Ok _ _ _ _ _ HG), bind_modify_app.
  change (0 <=? 0) with true. cbv iota.
  eexists. split; [reflexivity|].
  cbn [app with_app trace]. split; [reflexivity | exact Ht].
Qed.

Lemma main_gives_up_on_descriptor_0_witness :
  exists m',
    main stdin_closed_env [] boot = (Ok 1, m') /\
    socket_fd (app m') = 0 /\
    closed (trace m') = closed (trace boot).
Proof.
  apply (main_gives_up_on_descriptor_0 stdin_closed_env [] boot);
    [discriminate | reflexivity | reflexivity].
Defined.

(** ** The first request and the error event *)

Lemma load_middle (pre bs rest : list byte) :
  load (pre ++ bs ++ rest) (zlen pre) (List.length bs) = Some bs.
Proof.
  unfold load, zlen.
  replace ((0 <=? Z.of_nat (List.length pre))
           && (Z.of_nat (List.length pre) + Z.of_nat (List.length bs)
               <=? Z.of_nat (List.length (pre ++ bs ++ rest)))) with true.
  - f_equal. rewrite Nat2Z.id.
    rewrite skipn_app, skipn_all, Nat.sub_diag. cbn [skipn List.app].
    rewrite firstn_app, firstn_all, Nat.sub_diag. cbn [firstn].
    apply app_nil_r.
  - symmetry. apply andb_true_intro. split; apply Z.leb_le; [lia|].
    rewrite !length_app. lia.
Qed.

Lemma ReadUint32_middle (pre : list byte) (v : Z) (rest : list byte) :
  0 <= v < 4294967296 ->
  zlen pre + 4 < 18446744073709551616 ->
  ReadUint32 (pre ++ u32_bytes v ++ rest) (zlen pre)
  = Some (v, zlen pre + 4).
Proof.
  intros Hv Hb. unfold ReadUint32.
  change 4%nat with (List.length (u32_bytes v)).
  rewrite load_middle, bytes_u32_u32_bytes by exact Hv.
  rewrite u64_id by (unfold zlen in *; lia). reflexivity.
Qed.

Section FirstRequest.

Variable env : Env.

(** X26. [GetWaylandDisplayRegistry] takes the next identifier and sends
    one get_registry request (opcode 1, the new identifier as its argument)
    to the display object 1, without blocking.  The identifier becomes the
    registry of the application state only when [send] reports the 12 bytes
    sent; otherwise the function prints an error and returns 0, and the
    identifier is used up all the same. *)
Theorem GetWaylandDisplayRegistry_request (m : Machine) :
  0 <= next_id m < MAX_CLIENT_ID ->
  GetWaylandDisplayRegistry env m
  = let id := next_id m + 1 in
    let data := request 1 1 [id] in
    let m1 := emit (Send (socket_fd (app m)) data MSG_DONTWAIT)
                (with_next_id id m) in
    if u64 (send_result env (trace m) data) =? 12
    then (Ok 1, with_app (set_registry_id id (app m)) m1)
    else (Ok 0, emit registry_error_line m1).
Proof.
  intros Hid. cbv zeta. unfold GetWaylandDisplayRegistry.
  rewrite (bind_Ok _ _ _ _ _ (NextWaylandID_ok m Hid)). cbv zeta.
  rewrite (bind_Ok _ _ _ _ _
    (write_and_send_request env 128 WAYLAND_DISPLAY_OBJECT_ID
       WAYLAND_DISPLAY_GET_REGISTRY_OPCODE [next_id m + 1] MSG_DONTWAIT _
       ltac:(unfold WAYLAND_DISPLAY_OBJECT_ID; lia)
       ltac:(unfold WAYLAND_DISPLAY_GET_REGISTRY_OPCODE; lia)
       ltac:(cbn; lia) ltac:(cbn; lia))).
  cbn [app with_next_id trace].
  change (8 + 4 * Z.of_nat (List.length [next_id m + 1])) with 12.
  destruct (u64 (send_result env (trace m) _) =? 12); reflexivity.
Qed.

(** X27. An error event of the display with more than 12 bytes of payload
    is printed and ends the batch: the handler reads the object, the error
    code and the length of the message, prints the bytes behind the length
    up to the first zero byte as the message, and returns 0.  The length
    itself is only tested for zero; how many bytes it announces, and that
    the payload holds them, is not checked. *)
Theorem display_error_is_printed (e : ParsedWaylandEvent)
    (oid code len : Z) (text rest : list byte) (m : Machine) :
  is_registry_global (app m) e = false ->
  is_display_error e = true ->
  12 < payload_size e ->
  payload e = Some (u32_bytes oid ++ u32_bytes code ++ u32_bytes len
                    ++ text ++ x00 :: rest) ->
  0 <= oid < 4294967296 ->
  0 <= code < 4294967296 ->
  0 < len < 4294967296 ->
  Forall (fun b => b <> x00) text ->
  HandleWaylandEvent env e m
  = (Ok 0, emit (error_event_line oid code text) m).
Proof.
  intros G1 G2 Hps Hp Ho Hc Hl Ht.
  unfold HandleWaylandEvent. rewrite bind_get_app, G1, G2.
  unfold PrintErrorEventInfo.
  replace (payload_size e <=? 12) with false
    by (symmetry; apply Z.leb_gt; exact Hps).
  unfold deref. rewrite Hp.
  set (tail := text ++ x00 :: rest).
  set (view := u32_bytes oid ++ u32_bytes code ++ u32_bytes len ++ tail).
  assert (R1 : ReadUint32 view 0 = Some (oid, 4))
    by exact (ReadUint32_middle [] oid _ Ho ltac:(cbn; lia)).
  assert (R2 : ReadUint32 view 4 = Some (code, 8))
    by exact (ReadUint32_middle (u32_bytes oid) code _ Hc ltac:(cbn; lia)).
  assert (R3 : ReadUint32 view 8 = Some (len, 12)).
  { pose proof (ReadUint32_middle (u32_bytes oid ++ u32_bytes code) len tail
                  ltac:(lia) ltac:(cbn; lia)) as R.
    rewrite <- app_assoc in R. exact R. }
  assert (RS : ReadWaylandString view 8
               = Some (tail, u64 (12 + RoundUp4 len))).
  { unfold ReadWaylandString. rewrite R3.
    replace (len =? 0) with false by (symmetry; apply Z.eqb_neq; lia).
    reflexivity. }
  unfold bind at 1. unfold bind at 1.
  change (mem (Some view) m) with (Ok view, m). cbv beta iota.
  rewrite (bind_mem_Some _ _ _ _ R1). cbv beta iota.
  rewrite (bind_mem_Some _ _ _ _ R2). cbv beta iota.
  rewrite (bind_mem_Some _ _ _ _ RS). cbv beta iota.
  rewrite (bind_mem_Some _ _ _ _ (cstr_app_nul text rest Ht)).
  reflexivity.
Qed.

End FirstRequest.

Lemma GetWaylandDisplayRegistry_request_witness :
  GetWaylandDisplayRegistry friendly_env boot
  = let id := next_id boot + 1 in
    let data := request 1 1 [id] in
    let m1 := emit (Send (socket_fd (app boot)) data MSG_DONTWAIT)
                (with_next_id id boot) in
    if u64 (send_result friendly_env (trace boot) data) =? 12
    then (Ok 1, with_app (set_registry_id id (app boot)) m1)
    else (Ok 0, emit registry_error_line m1).
Proof.
  apply (GetWaylandDisplayRegistry_request friendly_env boot);
    vm_compute; split; [discriminate | reflexivity].
Defined.

Lemma display_error_is_printed_witness :
  HandleWaylandEvent friendly_env display_error_event attached_machine
  = (Ok 0, emit (error_event_line 7 2 (lit "bad")) attached_machine).
Proof.
  apply (display_error_is_printed friendly_env display_error_event
           7 2 400 (lit "bad") [] attached_machine);
    try (vm_compute; repeat split; first [reflexivity | discriminate]).
  repeat constructor; discriminate.
Defined.

(** ** Instances *)

Lemma friendly_env_sends_all : sends_all friendly_env.
Proof.
  intros t data H. cbn [send_result friendly_env].
  apply u64_id. unfold zlen in *. lia.
Qed.

Lemma friendly_env_sendmsg_succeeds : sendmsg_succeeds friendly_env.
Proof. intros t data. cbn [sendmsg_result friendly_env]. unfold zlen. lia. Qed.

Ltac by_evaluation :=
  vm_compute; repeat split; first [reflexivity | discriminate].

Lemma WaylandRegistryBind_name_too_long_witness :
  WaylandRegistryBind friendly_env 1 (repeat x61 240 ++ [x00]) 1
    bound_machine
  = (Ok 0,
     emit copy_error_line
       (emit (refusal_line 244)
          (with_next_id (next_id bound_machine + 1) bound_machine))).
Proof.
  apply (WaylandRegistryBind_name_too_long friendly_env 1
           (repeat x61 240 ++ [x00]) (repeat x61 240) 1 bound_machine);
    by_evaluation.
Defined.

Lemma WaylandRegistryBind_overruns_payload_witness :
  WaylandRegistryBind friendly_env 1 (repeat x61 232 ++ [x00]) 1
    bound_machine
  = (Fault, with_next_id (next_id bound_machine + 1) bound_machine).
Proof.
  apply (WaylandRegistryBind_overruns_payload friendly_env 1
           (repeat x61 232 ++ [x00]) (repeat x61 232) 1 bound_machine);
    by_evaluation.
Defined.

Lemma WaylandRegistryBind_sends_witness :
  WaylandRegistryBind friendly_env 1 (lit "wl_shm" ++ [x00]) 1 bound_machine
  = let data := bind_request (registry_id (app bound_machine)) 1
                  (lit "wl_shm") 1 (next_id bound_machine + 1) in
    let m' := emit (Send (socket_fd (app bound_machine)) data 0)
                (with_next_id (next_id bound_machine + 1) bound_machine) in
    if u64 (send_result friendly_env (trace bound_machine) data) =? zlen data
    then (Ok (next_id bound_machine + 1), m')
    else (Ok 0, emit bind_send_error_line m').
Proof.
  apply (WaylandRegistryBind_sends friendly_env 1 (lit "wl_shm" ++ [x00])
           (lit "wl_shm") 1 bound_machine); by_evaluation.
Defined.

Lemma ping_is_answered_witness :
  HandleWaylandEvent friendly_env ping_event attached_machine
  = let data := request (xdg_wm_base_id (app attached_machine)) 3
                  [bytes_u32 (firstn 4 (u32_bytes 9))] in
    let m' := emit (Send (socket_fd (app attached_machine)) data 0)
                attached_machine in
    if u64 (send_result friendly_env (trace attached_machine) data) =? 12
    then (Ok 1, m')
    else (Ok 0, emit pong_error_line m').
Proof.
  apply (ping_is_answered friendly_env ping_event (u32_bytes 9)
           attached_machine); by_evaluation.
Defined.

Lemma configure_is_acknowledged_witness :
  HandleWaylandEvent friendly_env surface_configure_event attached_machine
  = let data := request (xdg_surface_id (app attached_machine)) 4
                  [bytes_u32 (firstn 4 (u32_bytes 7))] in
    let m' := emit (Send (socket_fd (app attached_machine)) data 0)
                attached_machine in
    if u64 (send_result friendly_env (trace attached_machine) data) =? 12
    then (Ok 1,
          with_app (set_surface_state ACKED_CONFIGURE (app attached_machine))
            m')
    else (Ok 0, emit ack_error_line m').
Proof.
  apply (configure_is_acknowledged friendly_env surface_configure_event
           (u32_bytes 7) attached_machine); by_evaluation.
Defined.

Lemma one_word_events_are_size_checked_witness :
  exists fmt,
    HandleWaylandEvent friendly_env long_ping_event attached_machine
    = (Ok 0,
       emit (Printf fmt [AInt (payload_size long_ping_event)])
         attached_machine).
Proof.
  apply (one_word_events_are_size_checked friendly_env long_ping_event
           attached_machine); by_evaluation.
Defined.

Lemma CreateSurface_sequence_witness :
  let m := bound_machine in
  let n := next_id m in
  let fd := socket_fd (app m) in
  exists m',
    CreateSurface friendly_env m = (Ok 1, m') /\
    app m' = set_xdg_toplevel_id (n + 3)
               (set_xdg_surface_id (n + 2)
                  (set_surface_id (n + 1) (app m))) /\
    next_id m' = n + 3 /\
    trace m'
    = trace m
      ++ [Send fd (request (compositor_id (app m)) 0 [n + 1]) 0;
          surface_id_line (n + 1);
          Send fd (request (xdg_wm_base_id (app m)) 2 [n + 2; n + 1]) 0;
          xdg_surface_id_line (n + 2);
          Send fd (request (n + 2) 1 [n + 3]) 0;
          xdg_toplevel_id_line (n + 3)].
Proof.
  apply (CreateSurface_sequence friendly_env friendly_env_sends_all
           bound_machine); by_evaluation.
Defined.

Lemma CreateShmPool_passes_descriptor_witness :
  CreateShmPool friendly_env bound_machine
  = let m := bound_machine in
    let pool := next_id m + 1 in
    let data := request (shm_id (app m)) 0
                  [pool; image_buffer_size (app m)] in
    let m1 := emit (HexDump data)
                (emit pool_announce_line (with_next_id pool m)) in
    let m2 := emit (SendMsg (socket_fd (app m)) data (shm_fd (app m))) m1 in
    if sendmsg_result friendly_env (trace m1) data <? 0
    then (Ok 0, emit pool_error_line (emit sendmsg_error_line m2))
    else (Ok 1, with_app (set_shm_pool_id pool (app m)) m2).
Proof.
  apply (CreateShmPool_passes_descriptor friendly_env bound_machine);
    by_evaluation.
Defined.

Lemma RenderFrame_again_witness :
  let m := window_machine in
  let sid := surface_id (app m) in
  let fd := socket_fd (app m) in
  exists m',
    RenderFrame friendly_env m = (Ok 1, m') /\
    app m' = set_surface_state SURFACE_ATTACHED
               (set_image_buffer (ImgAt (pixel ++ pixel ++ pixel ++ pixel))
                  (app m)) /\
    next_id m' = next_id m /\
    trace m'
    = trace m ++ [Send fd (request sid 1 [frame_buffer_id (app m); 0; 0]) 0;
                  Send fd (request sid 6 []) 0].
Proof.
  apply (RenderFrame_again friendly_env friendly_env_sends_all
           window_machine (pixel ++ pixel ++ pixel ++ pixel));
    by_evaluation.
Defined.

Lemma RenderFrame_first_witness :
  let m := first_frame_machine in
  let n := next_id m in
  let s := app m in
  let fd := socket_fd s in
  let pool_request := request (shm_id s) 0 [n + 1; image_buffer_size s] in
  exists m',
    RenderFrame friendly_env m = (Ok 1, m') /\
    app m' = set_surface_state SURFACE_ATTACHED
               (set_image_buffer (ImgAt (pixel ++ pixel ++ pixel ++ pixel))
                  (set_frame_buffer_id (n + 2)
                     (set_shm_pool_id (n + 1) s))) /\
    next_id m' = n + 2 /\
    trace m'
    = trace m
      ++ [pool_announce_line; HexDump pool_request;
          SendMsg fd pool_request (shm_fd s);
          Send fd (request (n + 1) 0
                     [n + 2; 0; width s; height s; stride s; 0]) 0;
          Send fd (request (surface_id s) 1 [n + 2; 0; 0]) 0;
          Send fd (request (surface_id s) 6 []) 0].
Proof.
  apply (RenderFrame_first friendly_env friendly_env_sends_all
           friendly_env_sendmsg_succeeds first_frame_machine
           (pixel ++ pixel ++ pixel ++ pixel)); by_evaluation.
Defined.

Lemma known_global_is_bound_witness :
  HandleWaylandEvent friendly_env shm_global_event bound_machine
  = let m := bound_machine in
    let text := lit (role_interface role_shm) in
    let id := next_id m + 1 in
    let data := bind_request (registry_id (app m)) 1 text 1 id in
    let m1 := emit (found_line text 1 1) m in
    (Ok 1,
     emit (bound_line id)
       (with_app (record_role role_shm id (app m))
          (emit (Send (socket_fd (app m)) data 0) (with_next_id id m1)))).
Proof.
  cbv zeta.
  apply (known_global_is_bound friendly_env shm_global_event 1
           (lit "wl_shm" ++ [x00; x00] ++ u32_bytes 1) 1 role_shm
           bound_machine);
    [ by_evaluation
    | exists (u32_bytes 1 ++ u32_bytes 7 ++ lit "wl_shm"
              ++ [x00; x00] ++ u32_bytes 1), 4, 16, 20; by_evaluation
    | by_evaluation | by_evaluation | by_evaluation | by_evaluation ].
Defined.

Lemma unknown_global_is_ignored_witness :
  HandleWaylandEvent friendly_env seat_global_event bound_machine
  = (Ok 1, emit (found_line (lit "wl_seat") 2 1) bound_machine).
Proof.
  apply (unknown_global_is_ignored friendly_env seat_global_event 2
           (lit "wl_seat" ++ [x00] ++ u32_bytes 1) (lit "wl_seat") 1
           bound_machine);
    [ by_evaluation
    | exists (u32_bytes 2 ++ u32_bytes 8 ++ lit "wl_seat"
              ++ [x00] ++ u32_bytes 1), 4, 16, 20; by_evaluation
    | by_evaluation
    | intros []; by_evaluation ].
Defined.

(** ** The turns that create the window and render the frame *)

Section Orchestration.

Variable env : Env.
Hypothesis Hsend : sends_all env.

(** X28. The turn in which the last of the three globals gets bound creates
    the window: when the batch has been handled, the three roles are bound,
    completion has not been recorded and no surface exists yet, the loop
    records the completion, creates the surface, the shell surface and the
    top-level object with the next three identifiers, commits the surface
    once, prints a line and goes on with the next turn. *)
Theorem bound_turn_creates_surface (data recv_buffer buf : list byte)
    (n : Z) (rest : list LoopInput) (m m2 : Machine) (r : Z) :
  should_exit m = 0 ->
  recv_into recv_buffer data = (buf, n) ->
  ProcessWaylandEvents env buf (u32 n)
    (emit (Recv (socket_fd (app m)) (RecvData data)) m) = (Ok r, m2) ->
  r <> 0 ->
  binding_done (app m2) = 0 ->
  roles_bound (app m2) = true ->
  surface_id (app m2) = 0 ->
  surface_state (app m2) <> ACKED_CONFIGURE ->
  0 <= next_id m2 ->
  next_id m2 + 3 <= MAX_CLIENT_ID ->
  0 <= compositor_id (app m2) < 4294967296 ->
  0 <= xdg_wm_base_id (app m2) < 4294967296 ->
  let id := next_id m2 in
  let fd := socket_fd (app m2) in
  exists m3,
    EventLoop_loop env (quiet_turn (RecvData data) :: rest) recv_buffer m
    = EventLoop_loop env rest buf m3 /\
    app m3 = set_xdg_toplevel_id (id + 3)
               (set_xdg_surface_id (id + 2)
                  (set_surface_id (id + 1)
                     (set_binding_done 1 (app m2)))) /\
    next_id m3 = id + 3 /\
    trace m3
    = trace m2
      ++ [Send fd (request (compositor_id (app m2)) 0 [id + 1]) 0;
          surface_id_line (id + 1);
          Send fd (request (xdg_wm_base_id (app m2)) 2 [id + 2; id + 1]) 0;
          xdg_surface_id_line (id + 2);
          Send fd (request (id + 2) 1 [id + 3]) 0;
          xdg_toplevel_id_line (id + 3);
          Send fd (request (id + 1) 6 []) 0;
          created_line].
Proof.
  intros Hexit Hrecv HP Hr Hbd Hroles Hsurf Hstate H0 Hmax Hc Hw.
  cbv zeta.
  assert (Hn : 0 <= n).
  { unfold recv_into in Hrecv.
    assert (E : n = zlen (firstn (List.length recv_buffer) data))
      by exact (eq_sym (f_equal snd Hrecv)).
    unfold zlen in E. lia. }
  set (m2' := with_app (set_binding_done 1 (app m2)) m2).
  destruct (CreateSurface_ok env Hsend m2' H0 Hmax Hc Hw)
    as (m' & HC & Ha & Hid & Ht).
  cbv zeta in Ha, Hid, Ht.
  cbn [app next_id trace m2' with_app socket_fd compositor_id xdg_wm_base_id
       set_binding_done] in Ha, Hid, Ht.
  assert (Hsid : surface_id (app m') = next_id m2 + 1)
    by (rewrite Ha; reflexivity).
  pose proof (CommitSurface_ok env Hsend m'
                ltac:(rewrite Hsid; unfold MAX_CLIENT_ID in Hmax; lia))
    as HCm.
  rewrite Hsid in HCm.
  assert (Hfd : socket_fd (app m') = socket_fd (app m2))
    by (rewrite Ha; reflexivity).
  rewrite Hfd in HCm.
  eexists. split.
  - cbn [EventLoop_loop quiet_turn sigint_before_test sigint_in_recv
         recv_outcome].
    rewrite bind_ret.
    rewrite (bind_Ok (fun m0 => (Ok (negb (should_exit m0 =? 0)), m0))
               _ m m _ eq_refl).
    rewrite Hexit. change (negb (0 =? 0)) with false. cbv iota.
    rewrite bind_ret.
    assert (HR : recv recv_buffer (RecvData data) m
                 = (Ok (buf, n),
                    emit (Recv (socket_fd (app m)) (RecvData data)) m))
      by (unfold recv; rewrite Hrecv; reflexivity).
    rewrite (bind_Ok _ _ _ _ _ HR). cbv beta iota.
    replace (n <? 0) with false by (symmetry; apply Z.ltb_ge; exact Hn).
    rewrite (bind_Ok _ _ _ _ _ HP).
    apply Z.eqb_neq in Hr. rewrite Hr.
    assert (HB : BindingDone m2 = (Ok 1, m2')).
    { rewrite BindingDone_spec, Hbd, Hroles. reflexivity. }
    rewrite (bind_Ok _ _ _ _ _ HB), bind_get_app.
    cbn [app m2' with_app surface_id set_binding_done].
    rewrite Hsurf. change (negb (1 =? 0) && (0 =? 0)) with true. cbv iota.
    fold m2'.
    erewrite (bind_Ok _ _ m2');
      [|rewrite (bind_Ok _ _ _ _ _ HC); change (1 =? 0) with false;
        cbv iota; rewrite (bind_Ok _ _ _ _ _ HCm);
        change (1 =? 0) with false; cbv iota; reflexivity].
    cbn [negb]. rewrite bind_get_app.
    cbn [app emit]. rewrite Ha.
    cbn [surface_state set_xdg_toplevel_id set_xdg_surface_id set_surface_id
         set_binding_done].
    destruct (surface_state (app m2)); try (now elim Hstate);
      rewrite bind_ret; reflexivity.
  - cbn [app emit next_id trace]. split; [exact Ha|]. split; [exact Hid|].
    rewrite Ht, <- !app_assoc. reflexivity.
Qed.

End Orchestration.

Lemma bound_turn_creates_surface_witness :
  let m2 := emit (Recv (socket_fd (app bound_machine)) (RecvData []))
              bound_machine in
  let id := next_id m2 in
  let fd := socket_fd (app m2) in
  exists m3,
    EventLoop_loop friendly_env (quiet_turn (RecvData []) :: [])
      (repeat x00 4096) bound_machine
    = EventLoop_loop friendly_env [] (repeat x00 4096) m3 /\
    app m3 = set_xdg_toplevel_id (id + 3)
               (set_xdg_surface_id (id + 2)
                  (set_surface_id (id + 1)
                     (set_binding_done 1 (app m2)))) /\
    next_id m3 = id + 3 /\
    trace m3
    = trace m2
      ++ [Send fd (request (compositor_id (app m2)) 0 [id + 1]) 0;
          surface_id_line (id + 1);
          Send fd (request (xdg_wm_base_id (app m2)) 2 [id + 2; id + 1]) 0;
          xdg_surface_id_line (id + 2);
          Send fd (request (id + 2) 1 [id + 3]) 0;
          xdg_toplevel_id_line (id + 3);
          Send fd (request (id + 1) 6 []) 0;
          created_line].
Proof.
  cbv zeta.
  apply (bound_turn_creates_surface friendly_env friendly_env_sends_all
           [] (repeat x00 4096) (repeat x00 4096) 0 [] bound_machine
           (emit (Recv (socket_fd (app bound_machine)) (RecvData []))
              bound_machine) 1);
    by_evaluation.
Defined.

Section Rendering.

Variable env : Env.
Hypothesis Hsend : sends_all env.
Hypothesis Hsendmsg : sendmsg_succeeds env.

(** X29. The turn in which the configure event has been acknowledged
    renders the first frame: when the batch has been handled and has left
    the surface state at [ACKED_CONFIGURE], with the window created and
    neither pool nor frame buffer yet, the loop creates both with the next
    two identifiers, paints the image, attaches and commits it, leaves the
    state [SURFACE_ATTACHED] and goes on with the next turn. *)
Theorem acked_turn_renders_frame (data recv_buffer buf : list byte)
    (n : Z) (rest : list LoopInput) (m m2 : Machine) (r : Z)
    (img : list byte) :
  should_exit m = 0 ->
  recv_into recv_buffer data = (buf, n) ->
  ProcessWaylandEvents env buf (u32 n)
    (emit (Recv (socket_fd (app m)) (RecvData data)) m) = (Ok r, m2) ->
  r <> 0 ->
  binding_done (app m2) <> 0 ->
  0 < surface_id (app m2) < 4294967296 ->
  surface_state (app m2) = ACKED_CONFIGURE ->
  shm_pool_id (app m2) = 0 ->
  frame_buffer_id (app m2) = 0 ->
  0 <= next_id m2 ->
  next_id m2 + 2 <= MAX_CLIENT_ID ->
  0 <= shm_id (app m2) < 4294967296 ->
  paint (app m2) = Some img ->
  let id := next_id m2 in
  let s := app m2 in
  let fd := socket_fd s in
  let pool_request := request (shm_id s) 0 [id + 1; image_buffer_size s] in
  exists m3,
    EventLoop_loop env (quiet_turn (RecvData data) :: rest) recv_buffer m
    = EventLoop_loop env rest buf m3 /\
    app m3 = set_surface_state SURFACE_ATTACHED
               (set_image_buffer (ImgAt img)
                  (set_frame_buffer_id (id + 2)
                     (set_shm_pool_id (id + 1) s))) /\
    next_id m3 = id + 2 /\
    trace m3
    = trace m2
      ++ [pool_announce_line; HexDump pool_request;
          SendMsg fd pool_request (shm_fd s);
          Send fd (request (id + 1) 0
                     [id + 2; 0; width s; height s; stride s; 0]) 0;
          Send fd (request (surface_id s) 1 [id + 2; 0; 0]) 0;
          Send fd (request (surface_id s) 6 []) 0].
Proof.
  intros Hexit Hrecv HP Hr Hbd Hsurf Hstate Hpool Hfb H0 Hmax Hshm Hpaint.
  cbv zeta.
  assert (Hn : 0 <= n).
  { unfold recv_into in Hrecv.
    assert (E : n = zlen (firstn (List.length recv_buffer) data))
      by exact (eq_sym (f_equal snd Hrecv)).
    unfold zlen in E. lia. }
  destruct (RenderFrame_first_ok env Hsend Hsendmsg m2 img Hpool Hfb H0 Hmax
              Hshm ltac:(lia) Hpaint) as (m3 & HR & Ha & Hid & Ht).
  cbv zeta in Ha, Hid, Ht.
  exists m3. split; [|repeat split; assumption].
  cbn [EventLoop_loop quiet_turn sigint_before_test sigint_in_recv
       recv_outcome].
  rewrite bind_ret.
  rewrite (bind_Ok (fun m0 => (Ok (negb (should_exit m0 =? 0)), m0))
             _ m m _ eq_refl).
  rewrite Hexit. change (negb (0 =? 0)) with false. cbv iota.
  rewrite bind_ret.
  assert (HRv : recv recv_buffer (RecvData data) m
                = (Ok (buf, n),
                   emit (Recv (socket_fd (app m)) (RecvData data)) m))
    by (unfold recv; rewrite Hrecv; reflexivity).
  rewrite (bind_Ok _ _ _ _ _ HRv). cbv beta iota.
  replace (n <? 0) with false by (symmetry; apply Z.ltb_ge; exact Hn).
  rewrite (bind_Ok _ _ _ _ _ HP).
  apply Z.eqb_neq in Hr. rewrite Hr.
  assert (HB : BindingDone m2 = (Ok 1, m2)).
  { apply BindingDone_cached. now apply Z.eqb_neq. }
  rewrite (bind_Ok _ _ _ _ _ HB), bind_get_app.
  replace (surface_id (app m2) =? 0) with false
    by (symmetry; apply Z.eqb_neq; lia).
  rewrite andb_false_r, bind_ret. cbn [negb].
  rewrite bind_get_app, Hstate.
  rewrite (bind_Ok _ _ _ _ _ (bind_Ok _ _ _ _ _ HR)).
  reflexivity.
Qed.

End Rendering.

Lemma acked_turn_renders_frame_witness :
  let m2 := emit (Recv (socket_fd (app acked_machine)) (RecvData []))
              acked_machine in
  let id := next_id m2 in
  let s := app m2 in
  let fd := socket_fd s in
  let pool_request := request (shm_id s) 0 [id + 1; image_buffer_size s] in
  exists m3,
    EventLoop_loop friendly_env (quiet_turn (RecvData []) :: [])
      (repeat x00 4096) acked_machine
    = EventLoop_loop friendly_env [] (repeat x00 4096) m3 /\
    app m3 = set_surface_state SURFACE_ATTACHED
               (set_image_buffer (ImgAt (pixel ++ pixel ++ pixel ++ pixel))
                  (set_frame_buffer_id (id + 2)
                     (set_shm_pool_id (id + 1) s))) /\
    next_id m3 = id + 2 /\
    trace m3
    = trace m2
      ++ [pool_announce_line; HexDump pool_request;
          SendMsg fd pool_request (shm_fd s);
          Send fd (request (id + 1) 0
                     [id + 2; 0; width s; height s; stride s; 0]) 0;
          Send fd (request (surface_id s) 1 [id + 2; 0; 0]) 0;
          Send fd (request (surface_id s) 6 []) 0].
Proof.
  cbv zeta.
  apply (acked_turn_renders_frame friendly_env friendly_env_sends_all
           friendly_env_sendmsg_succeeds
           [] (repeat x00 4096) (repeat x00 4096) 0 [] acked_machine
           (emit (Recv (socket_fd (app acked_machine)) (RecvData []))
              acked_machine) 1 (pixel ++ pixel ++ pixel ++ pixel));
    by_evaluation.
Defined.
